(** * Universal XBLA Extraction Tool (extract.py): model and verification

    The development follows the source file top-down:
    - [Text]: Python strings as lists of code points and the string
      operations the program uses ([str.lower], [str.endswith],
      [str.replace], [str.strip], the three [re.sub] calls);
    - [Sanitizer]: [clean_filename];
    - [Locator]: [os.path.join], [os.walk] over a directory tree and
      [find_innermost_file];
    - [Effects], [Extractor], [Pipeline]: the calls to the host (processes,
      file system, console) as a state-and-exception monad that records
      every call, [is_tool_available], [get_archive_extractor],
      [extract_archive] and the two per-archive loops of [main].

    The host is a parameter: what a process returns, what a file-system call
    does and which tree a directory holds are arbitrary, and every call may
    raise.  Paths are POSIX paths.  What the program prints is recorded;
    [print] raises [UnicodeEncodeError] on a text the console cannot encode,
    and the progress bar is drawn or raises [UnicodeEncodeError];
    - [Session]: the prompts and folder dialogs of [main], the listing of the
      input folder, the deletion of the archives and the start of the
      script. *)

From Stdlib Require Import String Ascii.
From Stdlib Require Import ZArith NArith Bool Lia Arith List Permutation.
Import ListNotations.

Set Implicit Arguments.
Set Warnings "-register-all".

(** ** Python strings *)

Module Text.

(** A Python [str] is a sequence of Unicode code points. *)
Definition char := N.
Bind Scope N_scope with char.
Definition str := list char.

(** Literals: the code points of an ASCII literal. *)
Definition py (s : string) : str := map N_of_ascii (list_ascii_of_string s).
Arguments py s%_string.

(** The tables of the Unicode database for the code points from 128 on;
    the ASCII range is written out below. *)
Class UnicodeData := {
  uni_isalnum : char -> bool;
  uni_isspace : char -> bool;
  uni_lower : char -> str
}.

(** A database in which no code point from 128 on is a letter, a digit or
    white space, used to run the model on ASCII names. *)
Definition ascii_tables : UnicodeData :=
  {| uni_isalnum := fun _ => false;
     uni_isspace := fun _ => false;
     uni_lower := fun c => [c] |}.

Definition between (lo hi c : char) : bool := ((lo <=? c) && (c <=? hi))%N.

Definition is_ascii (c : char) : bool := (c <? 128)%N.

Definition ascii_isalnum (c : char) : bool :=
  between 48 57 c || between 65 90 c || between 97 122 c.

Definition space : char := 32%N.
Definition underscore : char := 95%N.
Definition dot : char := 46%N.
Definition dash : char := 45%N.
Definition slash : char := 47%N.
Definition backslash : char := 92%N.
Definition tab : char := 9%N.

Fixpoint mem (c : char) (set : str) : bool :=
  match set with
  | [] => false
  | x :: rest => (c =? x)%N || mem c rest
  end.

Fixpoint str_eqb (a b : str) : bool :=
  match a, b with
  | [], [] => true
  | x :: a', y :: b' => (x =? y)%N && str_eqb a' b'
  | _, _ => false
  end.

(** Truth value of a string: the empty string is false. *)
Definition truthy (s : str) : bool :=
  match s with [] => false | _ :: _ => true end.

(** [s.startswith(p)] *)
Fixpoint startswith (s p : str) {struct p} : bool :=
  match p with
  | [] => true
  | a :: p' =>
      match s with
      | [] => false
      | b :: s' => (a =? b)%N && startswith s' p'
      end
  end.

(** [s.endswith(p)] *)
Definition endswith (s p : str) : bool :=
  (length p <=? length s) && str_eqb (skipn (length s - length p) s) p.

Section Classes.
Context {U : UnicodeData}.

(** [\w] of [re] on a [str] pattern: alphanumeric or underscore. *)
Definition re_w (c : char) : bool :=
  if is_ascii c then ascii_isalnum c || (c =? underscore)%N else uni_isalnum c.

(** [\s] of [re] on a [str] pattern: the ASCII white space is
    [\t \n \v \f \r], the four separators 28 to 31 and the space. *)
Definition re_s (c : char) : bool :=
  if is_ascii c then between 9 13 c || between 28 32 c else uni_isspace c.

Definition lower_char (c : char) : str :=
  if between 65 90 c then [(c + 32)%N]
  else if is_ascii c then [c]
  else uni_lower c.

(** [s.lower()], character by character.  (The one character Python lowers
    by context, the Greek capital sigma, has no ASCII lower case in either
    context, and only ASCII suffixes are tested on lowered names.) *)
Definition str_lower (s : str) : str := flat_map lower_char s.

End Classes.

(** [s.replace(old, new)] for a one-character [old]. *)
Definition str_replace (old : char) (new : str) (s : str) : str :=
  flat_map (fun c => if (c =? old)%N then new else [c]) s.

(** [re.sub('[^...]+', repl, s)]: every maximal run of characters of the
    negated class [bad] becomes one [repl].  [in_run] tells that the
    character before belongs to a run already replaced.  The replacement is
    taken literally, as [re.sub] does for a template without backslash. *)
Fixpoint re_sub_run (bad : char -> bool) (repl : str) (in_run : bool) (s : str) : str :=
  match s with
  | [] => []
  | c :: rest =>
      if bad c
      then (if in_run then [] else repl) ++ re_sub_run bad repl true rest
      else c :: re_sub_run bad repl false rest
  end.

Definition re_sub_class (bad : char -> bool) (repl s : str) : str :=
  re_sub_run bad repl false s.

(** [re.sub(re.escape(r) + '{2,}', r, s)] for a non-empty [r].  The
    quantifier binds the last character of [r] only, so a match is [r]
    followed by at least one more copy of its last character, and it is
    greedy.  [pending] counts the characters of the current match still to
    be consumed; [greedy] tells that a match was just consumed and further
    copies of the last character belong to it. *)
Fixpoint re_sub_repeat (r : str) (pending : nat) (greedy : bool) (s : str) : str :=
  match s with
  | [] => []
  | x :: rest =>
      match pending with
      | S k => re_sub_repeat r k greedy rest
      | O =>
          if greedy && (x =? last r 0%N)%N then re_sub_repeat r 0 true rest
          else if startswith s (r ++ [last r 0%N])
               then r ++ re_sub_repeat r (length r) true rest
               else x :: re_sub_repeat r 0 false rest
      end
  end.

Definition collapse_repeats (r s : str) : str := re_sub_repeat r 0 false s.

Fixpoint lstrip (set s : str) : str :=
  match s with
  | [] => []
  | c :: rest => if mem c set then lstrip set rest else s
  end.

Definition rstrip (set s : str) : str := rev (lstrip set (rev s)).

(** [s.strip(set)] *)
Definition str_strip (set s : str) : str := rstrip set (lstrip set s).

Definition count (c : char) (s : str) : nat := count_occ N.eq_dec s c.

(** No two adjacent occurrences of [c]. *)
Fixpoint no_double (c : char) (s : str) : bool :=
  match s with
  | [] => true
  | x :: rest =>
      match rest with
      | [] => true
      | y :: _ => negb ((x =? c)%N && (y =? c)%N) && no_double c rest
      end
  end.

(** Every run of [c] reduced to one [c]. *)
Fixpoint squeeze (c : char) (s : str) : str :=
  match s with
  | [] => []
  | x :: rest =>
      if (x =? c)%N && startswith rest [c] then squeeze c rest
      else x :: squeeze c rest
  end.

(** [s] without the copies of [c] it starts with. *)
Fixpoint drop_leading (c : char) (s : str) : str :=
  match s with
  | [] => []
  | x :: rest => if (x =? c)%N then drop_leading c rest else s
  end.

(** [a] is obtained from [b] by deleting characters. *)
Inductive subseq : str -> str -> Prop :=
| subseq_nil : subseq [] []
| subseq_skip a x b : subseq a b -> subseq a (x :: b)
| subseq_keep a x b : subseq a b -> subseq (x :: a) (x :: b).

(** ASCII control characters: the C0 range and DEL. *)
Definition is_control (c : char) : bool := (c <? 32)%N || (c =? 127)%N.

End Text.

Import Text.

(** ** Filename sanitizer *)

Module Sanitizer.

Definition SUPPORTED_EXTENSIONS : list str := [py ".rar"; py ".zip"; py ".7z"].

Definition punctuation : str := py "-()[]{}".

Section Clean.
Context {U : UnicodeData}.

(** The loop of lines 131-134: the first extension the lower-cased name ends
    with is cut off the name, and the loop stops there. *)
Fixpoint remove_extension (exts : list str) (filename : str) : str :=
  match exts with
  | [] => filename
  | ext :: more =>
      if endswith (str_lower filename) ext
      then firstn (length filename - length ext) filename
      else remove_extension more filename
  end.

(** The negated class of line 147, [[^\w\-\(\)\[\]\{\}\s]]. *)
Definition outside_replace_class (c : char) : bool :=
  negb (re_w c || mem c punctuation || re_s c).

(** The negated class of line 152, [[^\w \-\(\)\[\]\{\}]]. *)
Definition outside_keep_class (c : char) : bool :=
  negb (re_w c || (c =? space)%N || mem c punctuation).

Definition clean_filename (filename : str) (replace_spaces : bool)
                          (space_replacement : str) : str :=
  let filename := remove_extension SUPPORTED_EXTENSIONS filename in
  let filename :=
    if replace_spaces then str_replace space space_replacement filename
    else filename in
  let filename :=
    if replace_spaces
    then str_replace space space_replacement
           (re_sub_class outside_replace_class space_replacement filename)
    else re_sub_class outside_keep_class [] filename in
  let filename :=
    if truthy space_replacement
    then collapse_repeats space_replacement filename
    else filename in
  str_strip (py ".-_ ") filename.

End Clean.

(** The four formats offered by [main] (lines 177-196) and the arguments
    each one passes to [clean_filename]. *)
Inductive policy := keepSpaces | replaceWithUnderscore | replaceWithDash | removeSpaces.

Definition replace_spaces_of (p : policy) : bool :=
  match p with keepSpaces => false | _ => true end.

Definition space_replacement_of (p : policy) : str :=
  match p with
  | keepSpaces => py " "
  | replaceWithUnderscore => py "_"
  | replaceWithDash => py "-"
  | removeSpaces => py ""
  end.

Definition sanitize {U : UnicodeData} (filename : str) (p : policy) : str :=
  clean_filename filename (replace_spaces_of p) (space_replacement_of p).

(** The characters the class of line 152 lets through. *)
Definition kept_characters {U : UnicodeData} (filename : str) : str :=
  filter (fun c => negb (outside_keep_class c))
         (remove_extension SUPPORTED_EXTENSIONS filename).

(** Spaces stay where they are: the name under [keepSpaces] is the name
    without its extension and without the characters outside the class,
    and nothing else has changed. *)
Definition space_positions_kept {U : UnicodeData} (filename : str) : Prop :=
  sanitize filename keepSpaces = kept_characters filename.

End Sanitizer.

Import Sanitizer.

(** ** Innermost-artifact locator *)

Module Locator.

(** [os.sep] and [posixpath.join] for two components. *)
Definition os_sep : char := slash.

Definition path_join (a b : str) : str :=
  if startswith b [os_sep] then b
  else if negb (truthy a) || endswith a [os_sep] then a ++ b
  else a ++ os_sep :: b.

(** What [os.walk] finds below a directory: the sub-directories it descends
    into, by name and in listing order, and the names of the other entries.
    A sub-directory that [os.walk] lists but does not enter (a symbolic
    link, an unreadable directory) yields nothing, like an empty one. *)
Inductive dir_tree := Dir (subdirs : list (str * dir_tree)) (files : list str).

(** [os.walk(top)], top-down: the triple of the directory itself, then the
    walk of each sub-directory in the order of [dirs]. *)
Fixpoint os_walk (top : str) (t : dir_tree) : list (str * list str * list str) :=
  match t with
  | Dir subdirs files =>
      (top, map fst subdirs, files)
      :: flat_map (fun entry => os_walk (path_join top (fst entry)) (snd entry)) subdirs
  end.

(** [file_path[len(directory):].count(os.sep)] *)
Definition depth_of (directory file_path : str) : Z :=
  Z.of_nat (count os_sep (skipn (length directory) file_path)).

(** The two variables of the search, [deepest_file] and [max_depth]. *)
Record best := { deepest_file : option str; max_depth : Z }.

(** The body of the inner loop, lines 109-115. *)
Definition visit (directory root : str) (b : best) (file : str) : best :=
  let file_path := path_join root file in
  let depth := depth_of directory file_path in
  if (depth >? max_depth b)%Z
  then {| deepest_file := Some file_path; max_depth := depth |}
  else b.

Definition find_innermost_file (directory : str) (t : dir_tree) : option str :=
  deepest_file
    (fold_left
       (fun b '(root, _, files) => fold_left (visit directory root) files b)
       (os_walk directory t)
       {| deepest_file := None; max_depth := (-1)%Z |}).

(** One step of the search on a path already joined. *)
Definition track (directory : str) (b : best) (file_path : str) : best :=
  if (depth_of directory file_path >? max_depth b)%Z
  then {| deepest_file := Some file_path; max_depth := depth_of directory file_path |}
  else b.

Definition start : best := {| deepest_file := None; max_depth := (-1)%Z |}.

(** [b] holds the first of the deepest paths of [paths], or nothing when
    [paths] is empty. *)
Definition first_deepest (directory : str) (paths : list str) (b : best) : Prop :=
  match deepest_file b with
  | None => paths = [] /\ max_depth b = (-1)%Z
  | Some p =>
      exists before after,
        paths = before ++ p :: after
        /\ max_depth b = depth_of directory p
        /\ (forall q, In q before -> (depth_of directory q < depth_of directory p)%Z)
        /\ (forall q, In q after -> (depth_of directory q <= depth_of directory p)%Z)
  end.

(** [directory] is a proper prefix of [p]. *)
Definition strictly_inside (directory p : str) : Prop :=
  exists rest, p = directory ++ rest /\ rest <> [].

(** The files of the tree in the order the two loops meet them. *)
Definition walk_files (directory : str) (t : dir_tree) : list str :=
  flat_map (fun '(root, _, files) => map (path_join root) files)
           (os_walk directory t).

(** Number of files in the tree. *)
Fixpoint file_count (t : dir_tree) : nat :=
  match t with
  | Dir subdirs files =>
      length files + list_sum (map (fun entry => file_count (snd entry)) subdirs)
  end.

(** A name of a directory entry is not empty and holds no separator. *)
Definition entry_name_ok (name : str) : bool :=
  truthy name && negb (mem os_sep name).

Fixpoint names_ok (t : dir_tree) : bool :=
  match t with
  | Dir subdirs files =>
      forallb entry_name_ok files
      && forallb (fun entry => entry_name_ok (fst entry) && names_ok (snd entry)) subdirs
  end.

End Locator.

Import Locator.

(** ** Calls to the host *)

Module Effects.

(** The exceptions the host calls can raise; all of them derive from
    [Exception]. *)
Inductive exn :=
| TimeoutExpired
| FileNotFoundError
| CalledProcessError
| PermissionError
| OSError
| RuntimeError (msg : str)
| UnicodeEncodeError
| OtherException (code : N).

Inductive result (A : Type) :=
| Ok (a : A)
| Raise (e : exn).
Arguments Ok {A} a.
Arguments Raise {A} e.

(** File-system calls and the library back end; each returns nothing or
    raises. *)
Inductive action :=
| Makedirs (path : str)
| PatoolExtract (archive outdir : str)
| Move (src dst : str)
| Copy2 (src dst : str)
| Remove (path : str)
| Rmtree (path : str)
| WriteText (path content : str).

Inductive extractor_name := unrar | sevenz | unzip | patoolib.

Definition extractor := (extractor_name * option str)%type.

Definition tool_name (n : extractor_name) : str :=
  match n with
  | unrar => py "unrar"
  | sevenz => py "7z"
  | unzip => py "unzip"
  | patoolib => py "patoolib"
  end.

(** What the program prints, by message. *)
Inductive message :=
| BackendFailed (name : extractor_name)
| BackendError (name : extractor_name) (e : exn)
| Processing (archive : str)
| ProcessingOf (archive : str) (index total : nat)
| NoInnermostFile (game_dir : str)
| ExtractFailed (archive : str)
| ErrorProcessing (archive : str) (e : exn)
| Moving (src dst : str)
| Moved (game_name : str)
| MoveFailed (src : str) (e : exn)
| Copied (game_name : str)
| CopyFailed (src : str) (e : exn)
| CleanedUp (game_dir : str)
| CleanupFailed (game_dir : str) (e : exn)
| MarkerCreated (game_name : str)
| MarkerFailed (e : exn)
| ProgressBarDisabled
| UnpackingComplete.

(** The record of a run: every call with what it returned, in order. *)
Inductive event :=
| Ran (cmd : list str) (timeout : Z) (r : result Z)
| Did (a : action) (r : result unit)
| Walked (directory : str)
| SetEnviron (name value : str)
| Printed (m : message)
| BarOpened (total : nat) (drawn : bool)
| BarUpdate (drawn : bool).

(** The host: the platform, whether [patoolib] can be imported, what a
    process started by [subprocess.run] does (its return code, or the
    exception of a missing program or of the time limit), what a file-system
    call does, the tree [os.walk] finds at a path, whether the progress
    bar can be drawn: when it cannot, it raises the [UnicodeEncodeError] that
    [main] provides for, and which messages the console can encode in a
    world: [print] raises [UnicodeEncodeError] on a text the console cannot
    encode, be it for an archive name, a path, the output a tool has left,
    the text of an exception or one of the signs of lines 305-330. *)
Record host (World : Type) := {
  win32 : bool;
  patoolib_importable : bool;
  subprocess_run : list str -> Z -> World -> result Z * World;
  perform : action -> World -> result unit * World;
  tree_at : str -> World -> dir_tree;
  draw_bar : World -> bool * World;
  prints : message -> World -> bool
}.

(** The two messages whose text is a constant of the program, in ASCII. *)
Definition constant_text (m : message) : bool :=
  match m with
  | ProgressBarDisabled | UnpackingComplete => true
  | _ => false
  end.

Section Monad.
Variable World : Type.

(** A computation threads the world, may raise, and appends to the record. *)
Definition M (A : Type) := World -> result A * World * list event.

Definition ret {A} (a : A) : M A := fun w => (Ok a, w, []).

Definition raise {A} (e : exn) : M A := fun w => (Raise e, w, []).

Definition bind {A B} (m : M A) (f : A -> M B) : M B :=
  fun w =>
    match m w with
    | (Ok a, w1, e1) =>
        match f a w1 with
        | (r, w2, e2) => (r, w2, e1 ++ e2)
        end
    | (Raise e, w1, e1) => (Raise e, w1, e1)
    end.

(** [try: m  except Exception as e: handler e] *)
Definition try_except {A} (m : M A) (handler : exn -> M A) : M A :=
  fun w =>
    match m w with
    | (Ok a, w1, e1) => (Ok a, w1, e1)
    | (Raise e, w1, e1) =>
        match handler e w1 with
        | (r, w2, e2) => (r, w2, e1 ++ e2)
        end
    end.

(** [try: m  except (classes): handler]; other exceptions pass through. *)
Definition try_except_only {A} (caught : exn -> bool) (m : M A) (handler : M A) : M A :=
  fun w =>
    match m w with
    | (Ok a, w1, e1) => (Ok a, w1, e1)
    | (Raise e, w1, e1) =>
        if caught e
        then match handler w1 with
             | (r, w2, e2) => (r, w2, e1 ++ e2)
             end
        else (Raise e, w1, e1)
    end.

Definition emit (ev : event) : M unit := fun w => (Ok tt, w, [ev]).

Variable H : host World.

(** The console prints the message in the world: its text is a constant in
    ASCII, or the console can encode it. *)
Definition can_print (m : message) (w : World) : bool :=
  constant_text m || prints H m w.

(** [print]: the message is printed, or nothing is and [UnicodeEncodeError]
    is raised. *)
Definition print (m : message) : M unit :=
  fun w =>
    if can_print m w then (Ok tt, w, [Printed m])
    else (Raise UnicodeEncodeError, w, []).

Definition run (cmd : list str) (timeout : Z) : M Z :=
  fun w =>
    match subprocess_run H cmd timeout w with
    | (r, w1) => (r, w1, [Ran cmd timeout r])
    end.

Definition do (a : action) : M unit :=
  fun w =>
    match perform H a w with
    | (r, w1) => (r, w1, [Did a r])
    end.

Definition walk (directory : str) : M dir_tree :=
  fun w => (Ok (tree_at H directory w), w, [Walked directory]).

(** A drawing of the progress bar, recorded by [ev]. *)
Definition draw (ev : bool -> event) : M unit :=
  fun w =>
    match draw_bar H w with
    | (drawn, w1) =>
        (if drawn then Ok tt else Raise UnicodeEncodeError, w1, [ev drawn])
    end.

End Monad.

(** The three parts of a finished computation. *)
Definition outcome {W A} (x : result A * W * list event) : result A := fst (fst x).
Definition world_after {W A} (x : result A * W * list event) : W := snd (fst x).
Definition events {W A} (x : result A * W * list event) : list event := snd x.

(** What was printed, in order. *)
Definition messages (evs : list event) : list message :=
  flat_map (fun ev => match ev with Printed m => [m] | _ => [] end) evs.

(** Some event of the first kind comes before some event of the second. *)
Fixpoint occurs_before (first second : event -> bool) (evs : list event) : bool :=
  match evs with
  | [] => false
  | ev :: rest =>
      (first ev && existsb second rest) || occurs_before first second rest
  end.

Definition is_cleanup (ev : event) : bool :=
  match ev with Did (Rmtree _) _ => true | _ => false end.

Definition is_marker_write (ev : event) : bool :=
  match ev with Did (WriteText _ _) _ => true | _ => false end.

Arguments ret {World A} a.
Arguments raise {World A} e.
Arguments emit {World} ev.

Declare Scope py_scope.
Delimit Scope py_scope with py.
Notation "x <- m ;; k" := (bind m (fun x => k))
  (at level 61, m at next level, right associativity) : py_scope.
Notation "m ;; k" := (bind m (fun _ => k))
  (at level 61, right associativity) : py_scope.

End Effects.

Import Effects.
Open Scope py_scope.

(** ** Extractor resolver and archive extractor *)

Module Extractor.

Section Extract.
Variable World : Type.
Variable H : host World.

Definition probe_caught (e : exn) : bool :=
  match e with
  | TimeoutExpired | FileNotFoundError | CalledProcessError => true
  | _ => false
  end.

Definition is_tool_available (tool : str) : M World bool :=
  try_except_only probe_caught
    (_ <- run H [tool; py "--version"] 5 ;; ret true)
    (ret false).

(** [if is_tool_available(tool): extractors.append(entry)] *)
Definition append_if_available (tool : extractor_name) (entry : extractor)
                               (extractors : list extractor) : M World (list extractor) :=
  ok <- is_tool_available (tool_name tool) ;;
  ret (if ok then extractors ++ [entry] else extractors).

Definition get_archive_extractor : M World (list extractor) :=
  extractors <-
    (if win32 H
     then
       extractors <- append_if_available unrar (unrar, Some (py "x")) [] ;;
       append_if_available sevenz (sevenz, Some (py "x")) extractors
     else
       extractors <- append_if_available unrar (unrar, Some (py "x")) [] ;;
       extractors <- append_if_available sevenz (sevenz, Some (py "x")) extractors ;;
       append_if_available unzip (unzip, Some (py "")) extractors) ;;
  ret (if patoolib_importable H
       then extractors ++ [(patoolib, None)]
       else extractors).

Definition cmd_text (extractor_cmd : option str) : str :=
  match extractor_cmd with Some c => c | None => [] end.

(** The command line of lines 84-89. *)
Definition command_line (name : extractor_name) (extractor_cmd : option str)
                        (archive_path extract_to : str) : list str :=
  match name with
  | unrar => [tool_name name; cmd_text extractor_cmd; py "-o-"; archive_path; extract_to]
  | sevenz => [tool_name name; cmd_text extractor_cmd; py "-o" ++ extract_to; archive_path]
  | _ => [tool_name name; archive_path; py "-d"; extract_to]
  end.

(** The body of the [try] of lines 75-95: [Some true] stands for
    [return True], [None] for reaching the end of the body. *)
Definition attempt (e : extractor) (archive_path extract_to : str) : M World (option bool) :=
  let '(extractor_name, extractor_cmd) := e in
  match extractor_name with
  | patoolib =>
      (if win32 H then emit (SetEnviron (py "PATOOL_FILE_CMD") (py "")) else ret tt) ;;
      do H (PatoolExtract archive_path extract_to) ;;
      ret (Some true)
  | _ =>
      returncode <- run H (command_line extractor_name extractor_cmd archive_path extract_to) 60 ;;
      if (returncode =? 0)%Z
      then ret (Some true)
      else (print H (BackendFailed extractor_name) ;; ret None)
  end.

(** The loop of lines 73-98 and the [return False] after it. *)
Fixpoint try_extractors (extractors : list extractor) (archive_path extract_to : str)
  : M World bool :=
  match extractors with
  | [] => ret false
  | e :: rest =>
      returned <- try_except (attempt e archive_path extract_to)
                    (fun err => print H (BackendError (fst e) err) ;; ret None) ;;
      match returned with
      | Some b => ret b
      | None => try_extractors rest archive_path extract_to
      end
  end.

Definition no_tools_message : str :=
  py "No archive extraction tools available. Please install unrar, 7z, or patoolib.".

Definition extract_archive (archive_path extract_to archive_name : str) : M World bool :=
  extractors <- get_archive_extractor ;;
  match extractors with
  | [] => raise (RuntimeError no_tools_message)
  | _ :: _ => try_extractors extractors archive_path extract_to
  end.

(** The rank order: [unrar], [7z], [unzip], and the library last. *)
Definition ranked (use_unrar use_7z use_unzip use_patoolib : bool) : list extractor :=
  (if use_unrar then [(unrar, Some (py "x"))] else [])
  ++ (if use_7z then [(sevenz, Some (py "x"))] else [])
  ++ (if use_unzip then [(unzip, Some (py ""))] else [])
  ++ (if use_patoolib then [(patoolib, None)] else []).

(** A back end invoked on its own: the call made and the world after it. *)
Definition backend_call (e : extractor) (archive_path extract_to : str) (w : World)
  : event * World :=
  match fst e with
  | patoolib =>
      match perform H (PatoolExtract archive_path extract_to) w with
      | (r, w1) => (Did (PatoolExtract archive_path extract_to) r, w1)
      end
  | name =>
      match subprocess_run H (command_line name (snd e) archive_path extract_to) 60 w with
      | (r, w1) => (Ran (command_line name (snd e) archive_path extract_to) 60 r, w1)
      end
  end.

(** A command-line tool reports success by return code zero, the library by
    returning. *)
Definition reports_success (ev : event) : bool :=
  match ev with
  | Ran _ _ (Ok returncode) => (returncode =? 0)%Z
  | Did _ (Ok _) => true
  | _ => false
  end.

Definition is_backend_call (ev : event) : bool :=
  match ev with
  | Ran _ _ _ => true
  | Did (PatoolExtract _ _) _ => true
  | _ => false
  end.

(** Whether the failure of a back-end call is reported in the world the call
    left, so that the loop goes on: a return code other than zero is
    reported at line 95 and, when that text cannot be printed, the
    [UnicodeEncodeError] of line 95 is reported at line 97; an exception of
    the call is reported at line 97.  When the print of line 97 fails, its
    [UnicodeEncodeError] leaves [extract_archive]. *)
Definition reported (name : extractor_name) (ev : event) (w : World) : bool :=
  match ev with
  | Ran _ _ (Ok _) =>
      can_print H (BackendFailed name) w
      || can_print H (BackendError name UnicodeEncodeError) w
  | Ran _ _ (Raise e) | Did _ (Raise e) => can_print H (BackendError name e) w
  | _ => true
  end.

(** The fallback chain over a ranked list, from a world: the result, the
    back-end calls made, in order, and the world left.  Each back end runs in
    the world the one before left; the first that reports success ends the
    chain with [True]; a failure that is reported passes the turn to the
    next back end; a failure whose report cannot be printed ends the chain
    with the [UnicodeEncodeError] of that print, the back ends after it
    untried; the chain ends with [False] when the list is used up. *)
Inductive fallback_chain (archive_path extract_to : str)
  : list extractor -> World -> result bool -> list event -> World -> Prop :=
| chain_exhausted w :
    fallback_chain archive_path extract_to [] w (Ok false) [] w
| chain_success e rest w ev w1 :
    backend_call e archive_path extract_to w = (ev, w1) ->
    reports_success ev = true ->
    fallback_chain archive_path extract_to (e :: rest) w (Ok true) [ev] w1
| chain_failure e rest w ev w1 r calls w2 :
    backend_call e archive_path extract_to w = (ev, w1) ->
    reports_success ev = false ->
    reported (fst e) ev w1 = true ->
    fallback_chain archive_path extract_to rest w1 r calls w2 ->
    fallback_chain archive_path extract_to (e :: rest) w r (ev :: calls) w2
| chain_unreported e rest w ev w1 :
    backend_call e archive_path extract_to w = (ev, w1) ->
    reports_success ev = false ->
    reported (fst e) ev w1 = false ->
    fallback_chain archive_path extract_to (e :: rest) w (Raise UnicodeEncodeError) [ev] w1.

End Extract.

End Extractor.

Import Extractor.

(** ** Batch pipeline *)

Module Pipeline.

(** What [main] has settled before the loops: the filename format and the
    two directories. *)
Record settings := {
  replace_spaces : bool;
  space_replacement : str;
  xbla_dir : str;
  xbla_unpacked_dir : str
}.

Section Main.
Context {U : UnicodeData}.
Variable World : Type.
Variable H : host World.
Variable cfg : settings.

(** Lines 220-223: the entries of the input directory with a supported
    extension, extension by extension. *)
Definition archive_files_of (listing : list str) : list str :=
  flat_map (fun ext => filter (fun f => endswith (str_lower f) ext) listing)
           SUPPORTED_EXTENSIONS.

Definition game_name_of (archive : str) : str :=
  clean_filename archive (replace_spaces cfg) (space_replacement cfg).

Definition game_dir_of (archive : str) : str :=
  path_join (xbla_unpacked_dir cfg) (game_name_of archive ++ py "_temp").

Definition final_file_path_of (archive : str) : str :=
  path_join (xbla_unpacked_dir cfg) (game_name_of archive).

Definition marker_path_of (archive : str) : str :=
  final_file_path_of archive ++ py ".xbox360".

(** [find_innermost_file(game_dir)] on the tree the host has there. *)
Definition locate (game_dir : str) : M World (option str) :=
  t <- walk H game_dir ;;
  ret (find_innermost_file game_dir t).

(** [if innermost_file:] holds for a path that is not empty. *)
Definition found (innermost_file : option str) : option str :=
  match innermost_file with
  | Some p => if truthy p then Some p else None
  | None => None
  end.

(** Lines 236-271: one round of the loop under the progress bar. *)
Definition process_archive (archive : str) : M World unit :=
  let archive_path := path_join (xbla_dir cfg) archive in
  let game_name := game_name_of archive in
  let game_dir := game_dir_of archive in
  try_except
    (print H (Processing archive) ;;
     do H (Makedirs game_dir) ;;
     extracted <- extract_archive H archive_path game_dir archive ;;
     if extracted
     then
       innermost_file <- locate game_dir ;;
       match found innermost_file with
       | Some innermost_file =>
           let final_file_path := final_file_path_of archive in
           do H (Move innermost_file final_file_path) ;;
           do H (Rmtree game_dir) ;;
           do H (WriteText (final_file_path ++ py ".xbox360") game_name)
       | None => print H (NoInnermostFile game_dir)
       end
     else print H (ExtractFailed archive))
    (fun e => print H (ErrorProcessing archive e)).

(** Lines 235-273: the loop over the archives, with the tick of the progress
    bar after every round. *)
Fixpoint main_loop (archive_files : list str) : M World unit :=
  match archive_files with
  | [] => ret tt
  | archive :: rest =>
      process_archive archive ;; draw H BarUpdate ;; main_loop rest
  end.

(** Lines 302-315: the move, and the copy that replaces it when it fails.
    [false] stands for the [continue] of line 315. *)
Definition relocate (innermost_file final_file_path game_name : str) : M World bool :=
  try_except
    (do H (Move innermost_file final_file_path) ;;
     print H (Moved game_name) ;;
     ret true)
    (fun e =>
       print H (MoveFailed innermost_file e) ;;
       try_except
         (do H (Copy2 innermost_file final_file_path) ;;
          do H (Remove innermost_file) ;;
          print H (Copied game_name) ;;
          ret true)
         (fun copy_error =>
            print H (CopyFailed innermost_file copy_error) ;;
            ret false)).

(** Lines 318-322. *)
Definition clean_up (game_dir : str) : M World unit :=
  try_except
    (do H (Rmtree game_dir) ;; print H (CleanedUp game_dir))
    (fun e => print H (CleanupFailed game_dir e)).

(** Lines 325-330. *)
Definition write_marker (final_file_path game_name : str) : M World unit :=
  try_except
    (do H (WriteText (final_file_path ++ py ".xbox360") game_name) ;;
     print H (MarkerCreated game_name))
    (fun e => print H (MarkerFailed e)).

(** Lines 278-337: one round of the loop that runs without progress bar. *)
Definition process_archive_plain (total i : nat) (archive : str) : M World unit :=
  let archive_path := path_join (xbla_dir cfg) archive in
  let game_name := game_name_of archive in
  let game_dir := game_dir_of archive in
  try_except
    (print H (ProcessingOf archive (i + 1) total) ;;
     do H (Makedirs game_dir) ;;
     extracted <- extract_archive H archive_path game_dir archive ;;
     if extracted
     then
       innermost_file <- locate game_dir ;;
       match found innermost_file with
       | Some innermost_file =>
           let final_file_path := final_file_path_of archive in
           print H (Moving innermost_file final_file_path) ;;
           moved <- relocate innermost_file final_file_path game_name ;;
           if moved
           then clean_up game_dir ;; write_marker final_file_path game_name
           else ret tt
       | None => print H (NoInnermostFile game_dir)
       end
     else print H (ExtractFailed archive))
    (fun e => print H (ErrorProcessing archive e)).

(** Lines 277-337: the loop of the [except UnicodeEncodeError] branch, which
    starts again from the first archive. *)
Fixpoint plain_loop_from (total i : nat) (archive_files : list str) : M World unit :=
  match archive_files with
  | [] => ret tt
  | archive :: rest =>
      process_archive_plain total i archive ;; plain_loop_from total (S i) rest
  end.

Definition plain_loop (archive_files : list str) : M World unit :=
  plain_loop_from (length archive_files) 0 archive_files.

Definition is_UnicodeEncodeError (e : exn) : bool :=
  match e with UnicodeEncodeError => true | _ => false end.

(** Lines 233-339: the loop under the progress bar, the loop without it when
    the bar cannot be drawn, and the closing message. *)
Definition main_batch (archive_files : list str) : M World unit :=
  try_except_only is_UnicodeEncodeError
    (draw H (BarOpened (length archive_files)) ;; main_loop archive_files)
    (print H ProgressBarDisabled ;; plain_loop archive_files) ;;
  print H UnpackingComplete.

(** The archive has had its round in one loop or the other: the events of
    the round, run from some world, are part of the events. *)
Definition had_round (archive : str) (evs : list event) : Prop :=
  (exists w0 front back, evs = front ++ events (process_archive archive w0) ++ back)
  \/ (exists total i w0 front back,
        evs = front ++ events (process_archive_plain total i archive w0) ++ back).

(** The error report of lines 271 and 337 can be printed for every archive
    of the batch, whatever the exception and the world. *)
Definition reports_printable (archive_files : list str) : Prop :=
  forall a e w, In a archive_files -> can_print H (ErrorProcessing a e) w = true.

(** The calls that relocate the file, clean up and write the marker. *)
Definition relocation_step (ev : event) : bool :=
  match ev with
  | Did (Move _ _) _ | Did (Copy2 _ _) _ | Did (Remove _) _
  | Did (Rmtree _) _ | Did (WriteText _ _) _ => true
  | _ => false
  end.

(** The events the resolver and the extractor leave. *)
Definition extraction_event (ev : event) : bool :=
  match ev with
  | Ran _ _ _ | Did (PatoolExtract _ _) _ | SetEnviron _ _
  | Printed (BackendFailed _) | Printed (BackendError _ _) => true
  | _ => false
  end.

Definition placed_at (final_file_path : str) (ev : event) : bool :=
  match ev with
  | Did (Move _ dst) (Ok _) | Did (Copy2 _ dst) (Ok _) => str_eqb dst final_file_path
  | _ => false
  end.

Definition marker_written (marker game_name : str) (ev : event) : bool :=
  match ev with
  | Did (WriteText path content) (Ok _) => str_eqb path marker && str_eqb content game_name
  | _ => false
  end.

(** The final artifact of an archive is there: a file was placed at the
    final path and the marker was written next to it. *)
Definition artifact_produced (archive : str) (evs : list event) : bool :=
  existsb (placed_at (final_file_path_of archive)) evs
  && existsb (marker_written (marker_path_of archive) (game_name_of archive)) evs.

(** The relocation steps a round under the progress bar can leave: none;
    a failed move; a move and a failed clean-up; a move, a clean-up and the
    marker write. *)
Definition steps_under_bar (archive : str) (steps : list event) : Prop :=
  steps = []
  \/ (exists src e, steps = [Did (Move src (final_file_path_of archive)) (Raise e)])
  \/ (exists src e,
        steps = [Did (Move src (final_file_path_of archive)) (Ok tt);
                 Did (Rmtree (game_dir_of archive)) (Raise e)])
  \/ (exists src r,
        steps = [Did (Move src (final_file_path_of archive)) (Ok tt);
                 Did (Rmtree (game_dir_of archive)) (Ok tt);
                 Did (WriteText (marker_path_of archive) (game_name_of archive)) r]).

(** The calls with which the loop without progress bar relocates a file:
    the move; the move and the copy; the move, a copy that succeeded and the
    removal of the source. *)
Definition relocation_calls (archive : str) (steps : list event) : Prop :=
  exists src r,
    steps = [Did (Move src (final_file_path_of archive)) r]
    \/ (exists r1,
          steps = [Did (Move src (final_file_path_of archive)) r;
                   Did (Copy2 src (final_file_path_of archive)) r1])
    \/ (exists r2,
          steps = [Did (Move src (final_file_path_of archive)) r;
                   Did (Copy2 src (final_file_path_of archive)) (Ok tt);
                   Did (Remove src) r2]).

(** The calls of a relocation that succeeded in that loop: a move that
    succeeded, or a copy and a removal of the source that succeeded. *)
Definition relocated (archive : str) (steps : list event) : Prop :=
  (exists src, steps = [Did (Move src (final_file_path_of archive)) (Ok tt)])
  \/ (exists src r,
        steps = [Did (Move src (final_file_path_of archive)) r;
                 Did (Copy2 src (final_file_path_of archive)) (Ok tt);
                 Did (Remove src) (Ok tt)]).

(** The relocation steps a round of that loop can leave: none; the calls of
    a relocation; a relocation that succeeded and the clean-up; a relocation
    that succeeded, the clean-up and then the marker write. *)
Definition steps_plain (archive : str) (steps : list event) : Prop :=
  steps = []
  \/ relocation_calls archive steps
  \/ (exists moves r,
        relocated archive moves
        /\ steps = moves ++ [Did (Rmtree (game_dir_of archive)) r])
  \/ (exists moves r r',
        relocated archive moves
        /\ steps = moves ++ [Did (Rmtree (game_dir_of archive)) r;
                             Did (WriteText (marker_path_of archive) (game_name_of archive)) r']).

End Main.

End Pipeline.

Import Pipeline.

(** ** A simulated host *)

Module Sim.

(** The world of the simulation is the list of the directories that exist,
    one entry for every time a directory was made.
    [os.makedirs(path, exist_ok=True)] creates the directory or finds it
    there; [shutil.rmtree(path)], called as the program calls it (errors are
    not ignored), removes an existing directory and raises
    [FileNotFoundError] for a missing one.  The rest is scripted: which
    programs start, what a command line returns, what the library does, which
    tree an existing directory holds, and which other file-system calls
    fail. *)
Record script := {
  on_win32 : bool;
  has_patoolib : bool;
  installed : list str;
  exit_of : list str -> result Z;
  patool_result : str -> result unit;
  extracted_tree : dir_tree;
  failing : action -> option exn;
  bar_draws : list str -> bool;
  shows : message -> bool
}.

Definition world := list str.

Definition exists_dir (path : str) (w : world) : bool := existsb (str_eqb path) w.

Definition remove_dir (path : str) (w : world) : world :=
  filter (fun d => negb (str_eqb path d)) w.

Definition sim_run (s : script) (cmd : list str) (timeout : Z) (w : world)
  : result Z * world :=
  match cmd with
  | tool :: arg :: _ =>
      if existsb (str_eqb tool) (installed s)
      then if str_eqb arg (py "--version") then (Ok 0%Z, w) else (exit_of s cmd, w)
      else (Raise FileNotFoundError, w)
  | _ => (Raise FileNotFoundError, w)
  end.

Definition sim_perform (s : script) (a : action) (w : world) : result unit * world :=
  match failing s a with
  | Some e => (Raise e, w)
  | None =>
      match a with
      | Makedirs path => (Ok tt, path :: w)
      | Rmtree path =>
          if exists_dir path w then (Ok tt, remove_dir path w)
          else (Raise FileNotFoundError, w)
      | PatoolExtract archive _ => (patool_result s archive, w)
      | _ => (Ok tt, w)
      end
  end.

Definition sim_tree_at (s : script) (path : str) (w : world) : dir_tree :=
  if exists_dir path w then extracted_tree s else Dir [] [].

Definition sim_host (s : script) : host world :=
  {| win32 := on_win32 s;
     patoolib_importable := has_patoolib s;
     subprocess_run := sim_run s;
     perform := sim_perform s;
     tree_at := sim_tree_at s;
     draw_bar := fun w => (bar_draws s w, w);
     prints := fun m _ => shows s m |}.

(** A Linux host with [unrar] and [7z] installed, where every extraction
    and every file-system call succeeds and an archive unpacks to one file
    two directories down. *)
Definition payload_tree : dir_tree :=
  Dir [ (py "Content", Dir [ (py "0000", Dir [] [py "ABCDEF"]) ] []) ] [py "readme.txt"].

Definition healthy : script :=
  {| on_win32 := false;
     has_patoolib := false;
     installed := [py "unrar"; py "7z"];
     exit_of := fun _ => Ok 0%Z;
     patool_result := fun _ => Ok tt;
     extracted_tree := payload_tree;
     failing := fun _ => None;
     bar_draws := fun _ => true;
     shows := fun _ => true |}.

(** The same host with no extraction tool and no library. *)
Definition bare : script :=
  {| on_win32 := false;
     has_patoolib := false;
     installed := [];
     exit_of := fun _ => Ok 0%Z;
     patool_result := fun _ => Ok tt;
     extracted_tree := payload_tree;
     failing := fun _ => None;
     bar_draws := fun _ => true;
     shows := fun _ => true |}.

(** A host where [unrar] exits with 3, [7z] runs into the time limit and the
    library unpacks the archive. *)
Definition last_resort : script :=
  {| on_win32 := false;
     has_patoolib := true;
     installed := [py "unrar"; py "7z"];
     exit_of := fun cmd =>
       match cmd with
       | tool :: _ => if str_eqb tool (py "unrar") then Ok 3%Z else Raise TimeoutExpired
       | [] => Raise FileNotFoundError
       end;
     patool_result := fun _ => Ok tt;
     extracted_tree := payload_tree;
     failing := fun _ => None;
     bar_draws := fun _ => true;
     shows := fun _ => true |}.

(** The command line names the path. *)
Definition mentions (path : str) (cmd : list str) : bool := existsb (str_eqb path) cmd.

(** The healthy host, except that no tool can unpack the archive
    [/in/B.zip]. *)
Definition one_bad_archive : script :=
  {| on_win32 := false;
     has_patoolib := false;
     installed := [py "unrar"; py "7z"];
     exit_of := fun cmd => if mentions (py "/in/B.zip") cmd then Ok 2%Z else Ok 0%Z;
     patool_result := fun _ => Ok tt;
     extracted_tree := payload_tree;
     failing := fun _ => None;
     bar_draws := fun _ => true;
     shows := fun _ => true |}.

(** The host with one bad archive on a console where the progress bar can
    be drawn until the second scratch directory is there. *)
Definition bar_breaks : script :=
  {| on_win32 := false;
     has_patoolib := false;
     installed := [py "unrar"; py "7z"];
     exit_of := fun cmd => if mentions (py "/in/B.zip") cmd then Ok 2%Z else Ok 0%Z;
     patool_result := fun _ => Ok tt;
     extracted_tree := payload_tree;
     failing := fun _ => None;
     bar_draws := fun w => negb (exists_dir (py "/out/B_temp") w);
     shows := fun _ => true |}.

(** The texts a message shows beside its constant words: names and
    paths. *)
Definition shown (m : message) : list str :=
  match m with
  | Processing a | ProcessingOf a _ _ | ExtractFailed a | ErrorProcessing a _ => [a]
  | NoInnermostFile d | CleanedUp d | CleanupFailed d _ => [d]
  | Moving src dst => [src; dst]
  | Moved n | Copied n | MarkerCreated n => [n]
  | MoveFailed src _ | CopyFailed src _ => [src]
  | _ => []
  end.

(** The messages of lines 305-330 start with a check mark, a cross or a
    warning sign. *)
Definition has_sign (m : message) : bool :=
  match m with
  | Moved _ | MoveFailed _ _ | Copied _ | CopyFailed _ _
  | CleanedUp _ | CleanupFailed _ _ | MarkerCreated _ | MarkerFailed _ => true
  | _ => false
  end.

(** A console that encodes ASCII only; the text of an exception and the
    output of a tool are taken to be ASCII. *)
Definition ascii_console (m : message) : bool :=
  negb (has_sign m) && forallb (forallb is_ascii) (shown m).

(** The healthy host on a console that encodes ASCII only. *)
Definition ascii_only : script :=
  {| on_win32 := false;
     has_patoolib := false;
     installed := [py "unrar"; py "7z"];
     exit_of := fun _ => Ok 0%Z;
     patool_result := fun _ => Ok tt;
     extracted_tree := payload_tree;
     failing := fun _ => None;
     bar_draws := fun _ => true;
     shows := ascii_console |}.

(** An archive name with a letter outside ASCII. *)
Definition accented : str := py "Pok" ++ 233%N :: py "mon.zip".

(** The host where [unrar] exits with 3, [7z] runs into the time limit and
    the library unpacks the archive, on a console that encodes ASCII only,
    in a run on an archive whose path has a letter outside ASCII: the text of
    the exception of the time limit holds the command line and with it that
    path, so the console cannot encode it. *)
Definition unreported_timeout : script :=
  {| on_win32 := false;
     has_patoolib := true;
     installed := [py "unrar"; py "7z"];
     exit_of := fun cmd =>
       match cmd with
       | tool :: _ => if str_eqb tool (py "unrar") then Ok 3%Z else Raise TimeoutExpired
       | [] => Raise FileNotFoundError
       end;
     patool_result := fun _ => Ok tt;
     extracted_tree := payload_tree;
     failing := fun _ => None;
     bar_draws := fun _ => true;
     shows := fun m =>
       match m with
       | BackendError _ TimeoutExpired => false
       | _ => ascii_console m
       end |}.

(** Spaces become underscores, archives come from [/in], the results go to
    [/out]. *)
Definition underscores : settings :=
  {| replace_spaces := true;
     space_replacement := py "_";
     xbla_dir := py "/in";
     xbla_unpacked_dir := py "/out" |}.

End Sim.

(** ** Further notions for the sanitizer and the listing *)

(** The characters a policy lets go in the end: the ones [strip] takes off
    and the ones outside the class of the policy. *)
Definition droppable {U : UnicodeData} (p : policy) (c : char) : bool :=
  mem c (py ".-_ ")
  || (if replace_spaces_of p then outside_replace_class c else outside_keep_class c).

(** The lower case of the database holds no dot. *)
Definition lower_without_dot (U : UnicodeData) : Prop :=
  forall c, is_ascii c = false -> ~ In dot (uni_lower c).

(** The test of lines 222-223 over the three extensions. *)
Definition has_supported_extension {U : UnicodeData} (f : str) : bool :=
  existsb (fun ext => endswith (str_lower f) ext) SUPPORTED_EXTENSIONS.

(** A spelling of a supported extension: it is as long as the extension and
    lower-cases to it. *)
Definition spells_extension {U : UnicodeData} (suffix : str) : Prop :=
  exists ext, In ext SUPPORTED_EXTENSIONS
              /\ str_lower suffix = ext /\ length suffix = length ext.

(** ** Further notions for the resolver and the extractor *)

(** The command-line back ends the resolver asks for on a platform, each
    with the entry it appends (lines 42-54). *)
Definition offered (on_win32 : bool) : list extractor :=
  if on_win32
  then [(unrar, Some (py "x")); (sevenz, Some (py "x"))]
  else [(unrar, Some (py "x")); (sevenz, Some (py "x")); (unzip, Some (py ""))].

(** Everything the resolver can return. *)
Definition resolvable (on_win32 : bool) : list extractor :=
  offered on_win32 ++ [(patoolib, None)].

(** The probe of a tool: [tool --version] with a time limit of five
    seconds. *)
Definition probe_of (e : extractor) (r : result Z) : event :=
  Ran [tool_name (fst e); py "--version"] 5 r.

Definition probe_event (on_win32 : bool) (ev : event) : Prop :=
  exists e r, In e (offered on_win32) /\ ev = probe_of e r.

(** What [extract_archive] may do for an archive and a destination: probe
    the tools of the platform, run one of them on the archive and the
    destination with a time limit of sixty seconds, call the library on
    them, set the one environment variable on Windows, and report a back end
    that failed. *)
Inductive sanctioned (on_win32 : bool) (archive_path extract_to : str) : event -> Prop :=
| sanctioned_probe e r :
    In e (offered on_win32) ->
    sanctioned on_win32 archive_path extract_to (probe_of e r)
| sanctioned_command e r :
    In e (offered on_win32) ->
    sanctioned on_win32 archive_path extract_to
      (Ran (command_line (fst e) (snd e) archive_path extract_to) 60 r)
| sanctioned_library r :
    sanctioned on_win32 archive_path extract_to
      (Did (PatoolExtract archive_path extract_to) r)
| sanctioned_environ :
    on_win32 = true ->
    sanctioned on_win32 archive_path extract_to
      (SetEnviron (py "PATOOL_FILE_CMD") (py ""))
| sanctioned_failed name :
    sanctioned on_win32 archive_path extract_to (Printed (BackendFailed name))
| sanctioned_error name e :
    sanctioned on_win32 archive_path extract_to (Printed (BackendError name e)).

(** A computation all of whose events satisfy [P] and whose value, when it
    returns one, satisfies [Q], from every world. *)
Definition holds {World A} (P : event -> Prop) (Q : A -> Prop) (m : M World A) : Prop :=
  forall w, Forall P (events (m w)) /\ forall a, outcome (m w) = Ok a -> Q a.

(** A host on which no program may be started: every process raises
    [PermissionError]. *)
Definition locked_host : host unit :=
  {| win32 := false;
     patoolib_importable := true;
     subprocess_run := fun _ _ w => (Raise PermissionError, w);
     perform := fun _ w => (Ok tt, w);
     tree_at := fun _ _ => Dir [] [];
     draw_bar := fun w => (true, w);
     prints := fun _ _ => true |}.

(** ** Further notions for the locator *)

(** The files of the tree in the order of the walk, each with the number of
    directories between the top and the file. *)
Fixpoint files_with_level (top : str) (level : nat) (t : dir_tree) : list (str * nat) :=
  match t with
  | Dir subdirs files =>
      map (fun f => (path_join top f, level)) files
      ++ flat_map (fun entry =>
                     files_with_level (path_join top (fst entry)) (S level) (snd entry))
                  subdirs
  end.

(** Whether [os.path.join] puts a separator after [a]. *)
Definition joins_with_sep (a : str) : bool := truthy a && negb (endswith a [os_sep]).

(** The separators the search counts in front of a file of the top
    directory. *)
Definition level_offset (directory : str) : nat :=
  if joins_with_sep directory then 1 else 0.

(** ** Further notions for the rounds *)

(** What the round of an archive may do: what [extract_archive] may do for
    the archive and its scratch directory; make, walk and remove the scratch
    directory; move or copy a file from inside the scratch directory to the
    final path, and remove that file; write the game name to the marker;
    print. *)
Inductive round_event {U : UnicodeData} (on_win32 : bool) (cfg : settings) (archive : str)
  : event -> Prop :=
| round_extraction ev :
    sanctioned on_win32 (path_join (xbla_dir cfg) archive) (game_dir_of cfg archive) ev ->
    round_event on_win32 cfg archive ev
| round_makedirs r :
    round_event on_win32 cfg archive (Did (Makedirs (game_dir_of cfg archive)) r)
| round_walk :
    round_event on_win32 cfg archive (Walked (game_dir_of cfg archive))
| round_move src r :
    strictly_inside (game_dir_of cfg archive) src ->
    round_event on_win32 cfg archive (Did (Move src (final_file_path_of cfg archive)) r)
| round_copy src r :
    strictly_inside (game_dir_of cfg archive) src ->
    round_event on_win32 cfg archive (Did (Copy2 src (final_file_path_of cfg archive)) r)
| round_remove src r :
    strictly_inside (game_dir_of cfg archive) src ->
    round_event on_win32 cfg archive (Did (Remove src) r)
| round_rmtree r :
    round_event on_win32 cfg archive (Did (Rmtree (game_dir_of cfg archive)) r)
| round_marker r :
    round_event on_win32 cfg archive
      (Did (WriteText (marker_path_of cfg archive) (game_name_of cfg archive)) r)
| round_print m :
    round_event on_win32 cfg archive (Printed m).

(** The host lists directory entries under names of directory entries. *)
Definition lists_entries {World} (H : host World) : Prop :=
  forall path w, names_ok (tree_at H path w) = true.

(** ** The session: prompts, folder dialogs, listing and deletion *)

Module Session.

(** [s.strip()] takes the white space off both ends; white space is what
    [\s] matches. *)
Fixpoint lstrip_by (f : char -> bool) (s : str) : str :=
  match s with
  | [] => []
  | c :: rest => if f c then lstrip_by f rest else s
  end.

Definition strip_by (f : char -> bool) (s : str) : str :=
  rev (lstrip_by f (rev (lstrip_by f s))).

(** The upper case of the characters outside ASCII, from the Unicode
    database. *)
Class UpperData := { uni_upper : char -> str }.

(** The table that leaves every character outside ASCII as it is. *)
Definition ascii_upper : UpperData := {| uni_upper := fun c => [c] |}.

Definition upper_char {V : UpperData} (c : char) : str :=
  if between 97 122 c then [(c - 32)%N]
  else if is_ascii c then [c]
  else uni_upper c.

(** [s.upper()] *)
Definition str_upper {V : UpperData} (s : str) : str := flat_map upper_char s.

(** [EOFError], which [input] raises at the end of the input, [ImportError]
    and the [SystemExit] of [sys.exit(1)]. *)
Definition EOFError : exn := OtherException 0.
Definition ImportError : exn := OtherException 1.
Definition SystemExit : exn := OtherException 2.

Definition is_ImportError (e : exn) : bool :=
  match e with OtherException 1 => true | _ => false end.

(** What [main] and the script print, by message. *)
Inductive notice :=
| Banner
| FormatMenu
| BadFormat
| UsingFormat (p : policy)
| AskInputFolder
| NoInputFolder
| AskOutputFolder
| NoOutputFolder
| NoArchives (xbla_dir : str)
| Found (count : nat)
| BadDelete
| Deleted
| DeleteFailed (e : exn)
| MissingDependency.

Inductive question := AskFormat | AskDelete.

Inductive dialog := InputFolder | OutputFolder.

(** The record of a session: what was printed, what was asked and answered
    ([None] at the end of the input), which folder a dialog returned, what
    [os.listdir] returned, and the events of the calls to the host. *)
Inductive step :=
| Said (n : notice)
| Asked (q : question) (answer : option str)
| Chose (d : dialog) (path : str)
| Listed (directory : str) (r : result (list str))
| Host (ev : event).

(** The desk of the user: the folder each dialog returns, empty when the
    dialog is cancelled, what [os.listdir] finds, its exception included,
    and which notices the console can encode in a world.  The dialogs are taken to
    open, and the listing to depend on the world only, so that the three
    listings of lines 221-223 agree. *)
Record desk (World : Type) := {
  askdirectory : dialog -> str;
  listdir : str -> World -> result (list str);
  says : notice -> World -> bool
}.

(** The notices whose text is a constant of the program, in ASCII; the
    others show a folder path or the text of an exception. *)
Definition constant_notice (n : notice) : bool :=
  match n with
  | NoArchives _ | DeleteFailed _ | MissingDependency => false
  | _ => true
  end.

(** Which of the two packages of lines 12-13 can be imported. *)
Record installation := {
  has_alive_progress : bool;
  has_tkinter : bool
}.

(** The choice of lines 178-196, once stripped. *)
Definition format_of (choice : str) : option policy :=
  if str_eqb choice [] || str_eqb choice (py "2") then Some replaceWithUnderscore
  else if str_eqb choice (py "1") then Some keepSpaces
  else if str_eqb choice (py "3") then Some replaceWithDash
  else if str_eqb choice (py "4") then Some removeSpaces
  else None.

(** The parts of a finished computation of the session. *)
Definition result_of {W A} (x : result A * (list str * W) * list step) : result A :=
  fst (fst x).
Definition unread {W A} (x : result A * (list str * W) * list step) : list str :=
  fst (snd (fst x)).
Definition world_of {W A} (x : result A * (list str * W) * list step) : W :=
  snd (snd (fst x)).
Definition steps {W A} (x : result A * (list str * W) * list step) : list step := snd x.

Section Top.
Context {U : UnicodeData} {V : UpperData}.
Variable World : Type.
Variable H : host World.
Variable D : desk World.

(** A computation of the session threads the lines still to be read and the
    world, may raise, and appends to the record. *)
Definition T (A : Type) := list str -> World -> result A * (list str * World) * list step.

Definition tret {A} (a : A) : T A := fun i w => (Ok a, (i, w), []).

Definition traise {A} (e : exn) : T A := fun i w => (Raise e, (i, w), []).

Definition tbind {A B} (m : T A) (f : A -> T B) : T B :=
  fun i w =>
    match m i w with
    | (Ok a, (i1, w1), s1) =>
        match f a i1 w1 with
        | (r, st, s2) => (r, st, s1 ++ s2)
        end
    | (Raise e, st, s1) => (Raise e, st, s1)
    end.

(** [try: m  except Exception as e: handler e] *)
Definition ttry {A} (m : T A) (handler : exn -> T A) : T A :=
  fun i w =>
    match m i w with
    | (Ok a, st, s1) => (Ok a, st, s1)
    | (Raise e, (i1, w1), s1) =>
        match handler e i1 w1 with
        | (r, st, s2) => (r, st, s1 ++ s2)
        end
    end.

(** [try: m  except (classes): handler]; other exceptions pass through. *)
Definition ttry_only {A} (caught : exn -> bool) (m : T A) (handler : T A) : T A :=
  fun i w =>
    match m i w with
    | (Ok a, st, s1) => (Ok a, st, s1)
    | (Raise e, (i1, w1), s1) =>
        if caught e
        then match handler i1 w1 with
             | (r, st, s2) => (r, st, s1 ++ s2)
             end
        else (Raise e, (i1, w1), s1)
    end.

(** The console prints the notice in the world: its text is a constant in
    ASCII, or the console can encode it. *)
Definition can_say (n : notice) (w : World) : bool := constant_notice n || says D n w.

(** [print] of a notice: it is printed, or nothing is and
    [UnicodeEncodeError] is raised. *)
Definition say (n : notice) : T unit :=
  fun i w =>
    if can_say n w then (Ok tt, (i, w), [Said n])
    else (Raise UnicodeEncodeError, (i, w), []).

Definition choose (d : dialog) : T str :=
  fun i w => (Ok (askdirectory D d), (i, w), [Chose d (askdirectory D d)]).

Definition os_listdir (directory : str) : T (list str) :=
  fun i w => (listdir D directory w, (i, w), [Listed directory (listdir D directory w)]).

(** A computation on the host, run from the session. *)
Definition on_host {A} (m : M World A) : T A :=
  fun i w =>
    match m w with
    | (r, w1, evs) => (r, (i, w1), map Host evs)
    end.

(** [import] of a package. *)
Definition import (available : bool) : T unit :=
  if available then tret tt else traise ImportError.

(** Lines 177-196: the loop that asks for the filename format until a line
    holds one; [input] raises [EOFError] when no line is left. *)
Fixpoint choose_format (stdin : list str) (w : World)
  : result policy * (list str * World) * list step :=
  match stdin with
  | [] => (Raise EOFError, ([], w), [Asked AskFormat None])
  | line :: rest =>
      let choice := strip_by re_s line in
      match format_of choice with
      | Some p => (Ok p, (rest, w), [Asked AskFormat (Some line)])
      | None =>
          match choose_format rest w with
          | (r, st, s) => (r, st, Asked AskFormat (Some line) :: Said BadFormat :: s)
          end
      end
  end.

(** Lines 342-346: the loop that asks whether to delete the archives. *)
Fixpoint ask_delete (stdin : list str) (w : World)
  : result str * (list str * World) * list step :=
  match stdin with
  | [] => (Raise EOFError, ([], w), [Asked AskDelete None])
  | line :: rest =>
      let delete_choice := str_upper (strip_by re_s line) in
      if str_eqb delete_choice (py "Y") || str_eqb delete_choice (py "N")
      then (Ok delete_choice, (rest, w), [Asked AskDelete (Some line)])
      else
        match ask_delete rest w with
        | (r, st, s) => (r, st, Asked AskDelete (Some line) :: Said BadDelete :: s)
        end
  end.

(** The loop of lines 350-351. *)
Fixpoint remove_all (xbla_dir : str) (archive_files : list str) : M World unit :=
  match archive_files with
  | [] => ret tt
  | archive :: rest =>
      do H (Remove (path_join xbla_dir archive)) ;; remove_all xbla_dir rest
  end.

Declare Scope top_scope.
Delimit Scope top_scope with top.
Notation "x <- m ;; k" := (tbind m (fun x => k))
  (at level 61, m at next level, right associativity) : top_scope.
Notation "m ;; k" := (tbind m (fun _ => k))
  (at level 61, right associativity) : top_scope.
Local Open Scope top_scope.

(** Lines 220-223: the folder is listed once for every extension. *)
Fixpoint list_archives (exts : list str) (xbla_dir : str) : T (list str) :=
  match exts with
  | [] => tret []
  | ext :: more =>
      listing <- os_listdir xbla_dir ;;
      rest <- list_archives more xbla_dir ;;
      tret (filter (fun f => endswith (str_lower f) ext) listing ++ rest)
  end.

(** Lines 348-354. *)
Definition delete_originals (xbla_dir : str) (archive_files : list str) : T unit :=
  ttry (on_host (remove_all xbla_dir archive_files) ;; say Deleted)
       (fun e => say (DeleteFailed e)).

(** Lines 341-354. *)
Definition finish (xbla_dir : str) (archive_files : list str) : T unit :=
  delete_choice <- ask_delete ;;
  if str_eqb delete_choice (py "Y")
  then delete_originals xbla_dir archive_files
  else tret tt.

(** What [main] has settled when the loops start. *)
Definition settings_of (p : policy) (xbla_dir xbla_unpacked_dir : str) : settings :=
  {| replace_spaces := replace_spaces_of p;
     space_replacement := space_replacement_of p;
     xbla_dir := xbla_dir;
     xbla_unpacked_dir := xbla_unpacked_dir |}.

(** [main], lines 163-354. *)
Definition main : T unit :=
  say Banner ;;
  say FormatMenu ;;
  p <- choose_format ;;
  say (UsingFormat p) ;;
  say AskInputFolder ;;
  xbla_dir <- choose InputFolder ;;
  if negb (truthy xbla_dir) then say NoInputFolder
  else
    say AskOutputFolder ;;
    xbla_unpacked_dir <- choose OutputFolder ;;
    if negb (truthy xbla_unpacked_dir) then say NoOutputFolder
    else
      on_host (do H (Makedirs xbla_unpacked_dir)) ;;
      archive_files <- list_archives SUPPORTED_EXTENSIONS xbla_dir ;;
      match archive_files with
      | [] => say (NoArchives xbla_dir)
      | _ :: _ =>
          say (Found (length archive_files)) ;;
          on_host (main_batch H (settings_of p xbla_dir xbla_unpacked_dir) archive_files) ;;
          finish xbla_dir archive_files
      end.

(** What [main] has printed, asked and done when the queue of archives is
    there: the output folder is made and the input folder was listed three
    times. *)
Definition prelude (stdin : list str) (w : World) (p : policy) (listing : list str)
  : list step :=
  [Said Banner; Said FormatMenu]
  ++ steps (choose_format stdin w)
  ++ [Said (UsingFormat p);
      Said AskInputFolder; Chose InputFolder (askdirectory D InputFolder);
      Said AskOutputFolder; Chose OutputFolder (askdirectory D OutputFolder);
      Host (Did (Makedirs (askdirectory D OutputFolder)) (Ok tt));
      Listed (askdirectory D InputFolder) (Ok listing);
      Listed (askdirectory D InputFolder) (Ok listing);
      Listed (askdirectory D InputFolder) (Ok listing)].

(** The script: the imports of lines 12-13, then, run as a program, the
    check of lines 358-364 and [main]. *)
Definition script (I : installation) : T unit :=
  import (has_alive_progress I) ;;
  import (has_tkinter I) ;;
  ttry_only is_ImportError
    (import (has_alive_progress I) ;; import (has_tkinter I))
    (say MissingDependency ;; traise SystemExit) ;;
  main.

End Top.

(** A step that leaves the file system alone and does not read it. *)
Definition quiet (s : step) : bool :=
  match s with
  | Host _ | Listed _ _ => false
  | _ => true
  end.

(** A line that holds no filename format. *)
Definition no_format {U : UnicodeData} (line : str) : bool :=
  match format_of (strip_by re_s line) with Some _ => false | None => true end.

(** The answer a line gives to the question of line 343. *)
Definition answer_of {U : UnicodeData} {V : UpperData} (line : str) : str :=
  str_upper (strip_by re_s line).

Definition no_answer {U : UnicodeData} {V : UpperData} (line : str) : bool :=
  negb (str_eqb (answer_of line) (py "Y") || str_eqb (answer_of line) (py "N")).

(** The steps of the lines that a prompt turned down. *)
Definition turned_down (q : question) (n : notice) (lines : list str) : list step :=
  flat_map (fun line => [Asked q (Some line); Said n]) lines.

End Session.

Import Session.

(** A host like the healthy one where [/in/B.zip] cannot be removed. *)
Definition guarded : Sim.script :=
  {| Sim.on_win32 := false;
     Sim.has_patoolib := false;
     Sim.installed := [py "unrar"; py "7z"];
     Sim.exit_of := fun _ => Ok 0%Z;
     Sim.patool_result := fun _ => Ok tt;
     Sim.extracted_tree := Sim.payload_tree;
     Sim.failing := fun a =>
       match a with
       | Remove path => if str_eqb path (py "/in/B.zip") then Some PermissionError else None
       | _ => None
       end;
     Sim.bar_draws := fun _ => true;
     Sim.shows := fun _ => true |}.

(** A desk where the input folder [/in] holds three archives and a text
    file, and the output folder is [/out]. *)
Definition three_archives : desk Sim.world :=
  {| askdirectory := fun d => match d with InputFolder => py "/in" | OutputFolder => py "/out" end;
     listdir := fun _ _ => Ok [py "A.zip"; py "notes.txt"; py "B.zip"; py "C.rar"];
     says := fun _ _ => true |}.

(** A desk where the dialog for the input folder is cancelled. *)
Definition cancelled : desk Sim.world :=
  {| askdirectory := fun d => match d with InputFolder => [] | OutputFolder => py "/out" end;
     listdir := fun _ _ => Ok [py "A.zip"];
     says := fun _ _ => true |}.

(** A desk where the input folder holds no archive. *)
Definition no_archives : desk Sim.world :=
  {| askdirectory := fun d => match d with InputFolder => py "/in" | OutputFolder => py "/out" end;
     listdir := fun _ _ => Ok [py "notes.txt"; py "cover.png"];
     says := fun _ _ => true |}.

(** ** Tactics for the rounds of the loops *)

(** One case split of a round: on what a file-system call returns, on what
    [extract_archive] returns (with [no_relocation], the fact that its events
    hold no relocation step), on whether a file was found, or on whether a
    message can be printed. *)
Ltac host_step no_relocation :=
  match goal with
  | |- context [perform ?h ?a ?w0] =>
      destruct (perform h a w0) as [[[]|?] ?]
  | |- context [extract_archive ?h ?a ?b ?c ?w0] =>
      let X := fresh "X" in
      pose proof (no_relocation _ h a b c w0) as X;
      destruct (extract_archive h a b c w0) as [[[[|]|?] ?] ?];
      unfold events in X; simpl snd in X
  | |- context [found ?x] => destruct (found x)
  | |- context [can_print ?h ?m ?w0] => destruct (can_print h m w0)
  end.

(** All the ways a round can go. *)
Ltac run_round no_relocation :=
  cbv beta iota zeta delta
    [Pipeline.process_archive Pipeline.process_archive_plain relocate clean_up
     write_marker bind try_except do print emit ret locate walk events snd fst];
  repeat host_step no_relocation.

Ltac settle X := rewrite ?filter_app, ?X; simpl.

(** * Properties *)

(** ** Strings *)

Section TextFacts.

Lemma str_eqb_eq a b : str_eqb a b = true <-> a = b.
Proof.
  revert b; induction a as [|x a IH]; intros [|y b]; simpl; split; try congruence.
  - intros E. apply andb_true_iff in E as [E1 E2].
    apply N.eqb_eq in E1. apply IH in E2. congruence.
  - intros E. inversion E; subst. rewrite N.eqb_refl. simpl. now apply IH.
Qed.

Lemma mem_In c set : mem c set = true <-> In c set.
Proof.
  induction set as [|x set IH]; simpl.
  - split; [discriminate | tauto].
  - rewrite orb_true_iff, N.eqb_eq, IH. split; intros [E|E]; auto.
Qed.

Lemma subseq_refl s : subseq s s.
Proof. induction s; [apply subseq_nil | now apply subseq_keep]. Qed.

Lemma subseq_trans a b c : subseq a b -> subseq b c -> subseq a c.
Proof.
  intros Hab Hbc. revert a Hab.
  induction Hbc as [| b x c Hbc IH | b x c Hbc IH]; intros a Hab.
  - exact Hab.
  - constructor. now apply IH.
  - inversion Hab; subst.
    + apply subseq_skip. now apply IH.
    + apply subseq_keep. now apply IH.
Qed.

Lemma subseq_app_l p s : subseq s (p ++ s).
Proof. induction p; simpl; [apply subseq_refl | now apply subseq_skip]. Qed.

Lemma subseq_app_r s q : subseq s (s ++ q).
Proof.
  induction s as [|x s IH]; simpl.
  - induction q; [apply subseq_nil | now apply subseq_skip].
  - now apply subseq_keep.
Qed.

Lemma subseq_Forall (P : char -> Prop) a b : subseq a b -> Forall P b -> Forall P a.
Proof.
  induction 1; intros F; auto.
  - inversion F; auto.
  - inversion F; subst. constructor; auto.
Qed.

Lemma firstn_subseq n (s : str) : subseq (firstn n s) s.
Proof.
  rewrite <- (firstn_skipn n s) at 2. apply subseq_app_r.
Qed.

(** [lstrip] cuts a prefix off, [rstrip] a suffix. *)
Lemma lstrip_suffix set s : exists p, s = p ++ lstrip set s.
Proof.
  induction s as [|c s [p IH]]; simpl.
  - now exists [].
  - destruct (mem c set).
    + exists (c :: p). simpl. now f_equal.
    + now exists [].
Qed.

Lemma rstrip_prefix set s : exists q, s = rstrip set s ++ q.
Proof.
  unfold rstrip. destruct (lstrip_suffix set (rev s)) as [p E].
  exists (rev p). rewrite <- rev_app_distr, <- E. now rewrite rev_involutive.
Qed.

Lemma str_strip_middle set s : exists p q, s = p ++ str_strip set s ++ q.
Proof.
  unfold str_strip.
  destruct (lstrip_suffix set s) as [p E].
  destruct (rstrip_prefix set (lstrip set s)) as [q E'].
  exists p, q. now rewrite <- E', <- E.
Qed.

Lemma str_strip_subseq set s : subseq (str_strip set s) s.
Proof.
  destruct (str_strip_middle set s) as (p & q & E). rewrite E at 2.
  eapply subseq_trans; [apply subseq_app_r | apply subseq_app_l].
Qed.

Lemma lstrip_head set s x rest : lstrip set s = x :: rest -> mem x set = false.
Proof.
  induction s as [|c s IH]; simpl; [discriminate|].
  destruct (mem c set) eqn:E; auto.
  intros E'. inversion E'; subst. exact E.
Qed.

Lemma str_strip_first set s x rest : str_strip set s = x :: rest -> mem x set = false.
Proof.
  unfold str_strip. intros E.
  destruct (rstrip_prefix set (lstrip set s)) as [q E']. rewrite E in E'.
  simpl in E'. now apply lstrip_head in E'.
Qed.

Lemma str_strip_last set s front x : str_strip set s = front ++ [x] -> mem x set = false.
Proof.
  unfold str_strip, rstrip. intros E.
  apply (f_equal (@rev char)) in E. rewrite rev_involutive, rev_app_distr in E.
  simpl in E. now apply lstrip_head in E.
Qed.

(** Adjacent copies survive in no part of a string free of them. *)
Lemma no_double_app c a b : no_double c (a ++ b) = true -> no_double c a = true /\ no_double c b = true.
Proof.
  induction a as [|x a IH]; simpl.
  - intros E; split; auto.
  - destruct a as [|y a]; simpl in *.
    + destruct b as [|z b]; auto.
      intros E. apply andb_true_iff in E as [_ E]. auto.
    + intros E. apply andb_true_iff in E as [E1 E2].
      destruct (IH E2) as [I1 I2]. rewrite E1, I1. auto.
Qed.

Lemma no_double_strip c set s : no_double c s = true -> no_double c (str_strip set s) = true.
Proof.
  destruct (str_strip_middle set s) as (p & q & E). intros N.
  rewrite E in N. apply no_double_app in N as [_ N].
  now apply no_double_app in N as [N _].
Qed.

(** With an empty replacement, [re.sub] of a negated class deletes the
    characters outside the class. *)
Lemma re_sub_run_delete bad in_run s :
  re_sub_run bad [] in_run s = filter (fun c => negb (bad c)) s.
Proof.
  revert in_run; induction s as [|c s IH]; intros in_run; simpl; auto.
  destruct (bad c); simpl.
  - destruct in_run; simpl; apply IH.
  - f_equal. apply IH.
Qed.

Lemma filter_subseq (f : char -> bool) s : subseq (filter f s) s.
Proof.
  induction s as [|c s IH]; simpl; [constructor|].
  destruct (f c); [now apply subseq_keep | now apply subseq_skip].
Qed.

(** What [re.sub] of a negated class lets through is in the class or comes
    from the replacement. *)
Lemma re_sub_run_chars bad repl in_run s :
  Forall (fun c => bad c = false \/ In c repl) (re_sub_run bad repl in_run s).
Proof.
  revert in_run; induction s as [|c s IH]; intros in_run; simpl; auto.
  destruct (bad c) eqn:B.
  - apply Forall_app. split; [|apply IH].
    destruct in_run; [constructor|].
    apply Forall_forall. intros x Hx. now right.
  - constructor; auto.
Qed.

Lemma str_replace_chars (P : char -> Prop) old new s :
  Forall P new -> Forall (fun c => c <> old -> P c) s -> Forall P (str_replace old new s).
Proof.
  intros Hn. induction 1 as [|c s Hc Hs IH]; simpl; auto.
  apply Forall_app. split; auto.
  destruct (N.eqb_spec c old); auto.
Qed.

(** [squeeze] and the [re.sub] of line 156 for a one-character
    replacement. *)
Lemma squeeze_cons c x rest :
  squeeze c (x :: rest) =
  if (x =? c)%N && startswith rest [c] then squeeze c rest else x :: squeeze c rest.
Proof. reflexivity. Qed.

Lemma startswith_one c y u : startswith (y :: u) [c] = (c =? y)%N.
Proof. simpl. apply andb_true_r. Qed.

Lemma squeeze_head c u : squeeze c (c :: u) = c :: squeeze c (drop_leading c u).
Proof.
  induction u as [|y u IH].
  - simpl. rewrite N.eqb_refl. reflexivity.
  - rewrite squeeze_cons, startswith_one, N.eqb_refl. simpl drop_leading.
    destruct (N.eqb_spec c y) as [<-|D].
    + rewrite N.eqb_refl. simpl andb. exact IH.
    + destruct (N.eqb_spec y c); [congruence|]. reflexivity.
Qed.

Lemma squeeze_other c x u : x <> c -> squeeze c (x :: u) = x :: squeeze c u.
Proof.
  intros D. simpl. destruct (N.eqb_spec x c); [contradiction|]. reflexivity.
Qed.

Lemma re_sub_repeat_one c greedy x rest :
  re_sub_repeat [c] 0 greedy (x :: rest) =
  if greedy && (x =? c)%N then re_sub_repeat [c] 0 true rest
  else if (c =? x)%N && startswith rest [c]
       then c :: re_sub_repeat [c] 1 true rest
       else x :: re_sub_repeat [c] 0 false rest.
Proof. reflexivity. Qed.

Lemma re_sub_repeat_squeeze c s :
  re_sub_repeat [c] 0 false s = squeeze c s
  /\ re_sub_repeat [c] 0 true s = squeeze c (drop_leading c s)
  /\ re_sub_repeat [c] 1 true s = squeeze c (drop_leading c (tl s)).
Proof.
  induction s as [|x s (IH1 & IH2 & IH3)]; [simpl; auto|].
  split; [|split].
  - rewrite re_sub_repeat_one, squeeze_cons. cbn [andb].
    rewrite (N.eqb_sym c x).
    destruct ((x =? c)%N && startswith s [c]) eqn:E.
    + apply andb_true_iff in E as [E1 E2]. apply N.eqb_eq in E1. subst x.
      rewrite IH3. destruct s as [|y s]; [discriminate|].
      rewrite startswith_one in E2. apply N.eqb_eq in E2. subst y.
      cbn [tl]. now rewrite squeeze_head.
    + now rewrite IH1.
  - rewrite re_sub_repeat_one. cbn [andb drop_leading].
    destruct (N.eqb_spec x c) as [->|D]; [exact IH2|].
    destruct (N.eqb_spec c x); [congruence|]. cbn [andb].
    rewrite IH1. now rewrite squeeze_other.
  - cbn [re_sub_repeat tl]. exact IH2.
Qed.

Lemma collapse_repeats_squeeze c s : collapse_repeats [c] s = squeeze c s.
Proof. apply re_sub_repeat_squeeze. Qed.

Lemma squeeze_starts c s : startswith (squeeze c s) [c] = startswith s [c].
Proof.
  induction s as [|x s IH]; [reflexivity|].
  rewrite squeeze_cons. destruct ((x =? c)%N && startswith s [c]) eqn:E.
  - apply andb_true_iff in E as [E1 E2]. rewrite IH, E2, startswith_one.
    apply N.eqb_eq in E1. subst. now rewrite N.eqb_refl.
  - now rewrite !startswith_one.
Qed.

Lemma no_double_cons c x y u :
  no_double c (x :: y :: u) = negb ((x =? c)%N && (y =? c)%N) && no_double c (y :: u).
Proof. reflexivity. Qed.

Lemma squeeze_no_double c s : no_double c (squeeze c s) = true.
Proof.
  induction s as [|x s IH]; [reflexivity|].
  rewrite squeeze_cons. destruct ((x =? c)%N && startswith s [c]) eqn:E; auto.
  destruct (squeeze c s) as [|y u] eqn:Q; auto.
  rewrite no_double_cons, IH, andb_true_r.
  pose proof (squeeze_starts c s) as S. rewrite Q, startswith_one in S.
  destruct (N.eqb_spec x c) as [->|D]; auto.
  cbn [andb] in E. cbn [andb].
  rewrite (N.eqb_sym y c), S, E. reflexivity.
Qed.

Lemma squeeze_subseq c s : subseq (squeeze c s) s.
Proof.
  induction s as [|x s IH]; [constructor|].
  rewrite squeeze_cons.
  destruct ((x =? c)%N && startswith s [c]); [now apply subseq_skip | now apply subseq_keep].
Qed.

End TextFacts.

(** ** Filename sanitizer *)

Section SanitizerFacts.
Context {U : UnicodeData}.

Lemma remove_extension_subseq exts filename : subseq (remove_extension exts filename) filename.
Proof.
  induction exts as [|ext exts IH]; simpl; [apply subseq_refl|].
  destruct (endswith (str_lower filename) ext); [apply firstn_subseq | exact IH].
Qed.

Lemma sanitize_keepSpaces filename :
  sanitize filename keepSpaces
  = str_strip (py ".-_ ") (squeeze space (kept_characters filename)).
Proof.
  unfold sanitize, clean_filename, kept_characters, re_sub_class.
  cbn [replace_spaces_of space_replacement_of]. change (py " ") with [space].
  cbn [truthy]. now rewrite collapse_repeats_squeeze, re_sub_run_delete.
Qed.

Lemma keepSpaces_subseq filename :
  subseq (sanitize filename keepSpaces) (kept_characters filename).
Proof.
  rewrite sanitize_keepSpaces.
  eapply subseq_trans; [apply str_strip_subseq | apply squeeze_subseq].
Qed.

Lemma keepSpaces_no_double filename :
  no_double space (sanitize filename keepSpaces) = true.
Proof. rewrite sanitize_keepSpaces. apply no_double_strip, squeeze_no_double. Qed.

(** C7, as the code has it: under [keepSpaces] the name is the input without
    its extension and without the characters outside the class, with every
    run of spaces reduced to one space and with dots, dashes, underscores and
    spaces trimmed at both ends.  It has no two adjacent spaces and no space
    at either end. *)
Theorem keepSpaces_squeezes_and_trims filename :
  sanitize filename keepSpaces
  = str_strip (py ".-_ ") (squeeze space (kept_characters filename))
  /\ subseq (sanitize filename keepSpaces) (kept_characters filename)
  /\ no_double space (sanitize filename keepSpaces) = true
  /\ (forall x rest, sanitize filename keepSpaces = x :: rest -> x <> space)
  /\ (forall front x, sanitize filename keepSpaces = front ++ [x] -> x <> space).
Proof.
  split; [apply sanitize_keepSpaces|]. split; [apply keepSpaces_subseq|].
  split; [apply keepSpaces_no_double|]. rewrite sanitize_keepSpaces. split.
  - intros x rest E ->. apply str_strip_first in E. discriminate.
  - intros front x E ->. apply str_strip_last in E. discriminate.
Qed.

(** A control character is neither a word character, nor a space, nor one
    of the brackets or the dash. *)
Lemma control_outside c :
  is_control c = true ->
  re_w c = false /\ (c =? space)%N = false /\ mem c punctuation = false.
Proof.
  unfold is_control, re_w, is_ascii, ascii_isalnum, between, underscore, space.
  intros C. apply orb_true_iff in C.
  assert (c < 32 \/ c = 127)%N as R
    by (destruct C as [C|C]; [left; now apply N.ltb_lt | right; now apply N.eqb_eq]).
  clear C.
  assert ((c <? 128)%N = true) as -> by (apply N.ltb_lt; lia).
  assert ((48 <=? c)%N && (c <=? 57)%N = false) as ->
    by (apply andb_false_iff; rewrite !N.leb_gt; lia).
  assert ((65 <=? c)%N && (c <=? 90)%N = false) as ->
    by (apply andb_false_iff; rewrite !N.leb_gt; lia).
  assert ((97 <=? c)%N && (c <=? 122)%N = false) as ->
    by (apply andb_false_iff; rewrite !N.leb_gt; lia).
  assert ((c =? 95)%N = false) as -> by (apply N.eqb_neq; lia).
  assert ((c =? 32)%N = false) as -> by (apply N.eqb_neq; lia).
  repeat split.
  destruct (mem c punctuation) eqn:E; auto.
  apply mem_In in E. vm_compute in E.
  repeat (destruct E as [E|E]; [lia|]). contradiction.
Qed.

Lemma keep_class_chars filename :
  Forall (fun c => outside_keep_class c = false) (sanitize filename keepSpaces).
Proof.
  eapply subseq_Forall.
  - apply keepSpaces_subseq.
  - unfold kept_characters. apply Forall_forall. intros c Hc.
    apply filter_In in Hc as [_ Hc]. now apply negb_true_iff in Hc.
Qed.

Lemma replace_class_chars filename p :
  replace_spaces_of p = true ->
  Forall (fun c => outside_replace_class c = false) (sanitize filename p).
Proof.
  intros R. unfold sanitize, clean_filename. rewrite R.
  set (name := str_replace space (space_replacement_of p)
                 (remove_extension SUPPORTED_EXTENSIONS filename)).
  assert (Forall (fun c => outside_replace_class c = false) (space_replacement_of p)) as Hr
    by (destruct p; try discriminate; repeat constructor).
  assert (Forall (fun c => outside_replace_class c = false)
            (str_replace space (space_replacement_of p)
               (re_sub_class outside_replace_class (space_replacement_of p) name))) as F.
  { apply str_replace_chars; auto.
    eapply Forall_impl; [|apply re_sub_run_chars].
    intros c [B|B] _; auto.
    eapply Forall_forall in Hr; eauto. }
  eapply subseq_Forall; [apply str_strip_subseq|].
  destruct p; try discriminate; cbn [space_replacement_of truthy]; auto.
  - change (py "_") with [underscore]. rewrite collapse_repeats_squeeze.
    eapply subseq_Forall; [apply squeeze_subseq | exact F].
  - change (py "-") with [dash]. rewrite collapse_repeats_squeeze.
    eapply subseq_Forall; [apply squeeze_subseq | exact F].
Qed.

(** Under the three policies that replace spaces the name has no space. *)
Lemma replacing_leaves_no_space filename p :
  Forall (fun c => replace_spaces_of p = true -> c <> space) (sanitize filename p).
Proof.
  destruct (replace_spaces_of p) eqn:R;
    [|apply Forall_forall; intros c _ D; discriminate].
  unfold sanitize, clean_filename. rewrite R.
  set (name := str_replace space (space_replacement_of p)
                 (remove_extension SUPPORTED_EXTENSIONS filename)).
  assert (Forall (fun c => true = true -> c <> space)
            (str_replace space (space_replacement_of p)
               (re_sub_class outside_replace_class (space_replacement_of p) name))) as F.
  { apply str_replace_chars.
    - destruct p; try discriminate; repeat constructor; discriminate.
    - apply Forall_forall. intros c _ D _. exact D. }
  eapply subseq_Forall; [apply str_strip_subseq|].
  destruct p; try discriminate; cbn [space_replacement_of truthy]; auto.
  - change (py "_") with [underscore]. rewrite collapse_repeats_squeeze.
    eapply subseq_Forall; [apply squeeze_subseq | exact F].
  - change (py "-") with [dash]. rewrite collapse_repeats_squeeze.
    eapply subseq_Forall; [apply squeeze_subseq | exact F].
Qed.

Lemma endswith_In s p c : endswith s p = true -> In c p -> In c s.
Proof.
  unfold endswith. intros E Hc. apply andb_true_iff in E as [_ E].
  apply str_eqb_eq in E. rewrite <- (firstn_skipn (length s - length p) s).
  apply in_or_app. right. now rewrite E.
Qed.

(** X1: the parts of C5 that hold for every name and every policy: the name has
    no slash, no backslash and no dot, so it ends with none of the archive
    extensions; it has no two adjacent copies of the replacement character;
    and a control character in it is white space of [\s], which only the
    policies that replace spaces let through. *)
Lemma sanitize_invariants filename p :
  Forall (fun c => c <> slash /\ c <> backslash /\ c <> dot) (sanitize filename p)
  /\ (forall ext, In ext SUPPORTED_EXTENSIONS -> endswith (sanitize filename p) ext = false)
  /\ (forall c, space_replacement_of p = [c] -> no_double c (sanitize filename p) = true)
  /\ Forall (fun c => is_control c = true -> re_s c = true /\ replace_spaces_of p = true)
            (sanitize filename p).
Proof.
  assert (Forall (fun c => c <> slash /\ c <> backslash /\ c <> dot) (sanitize filename p)) as F.
  { destruct (replace_spaces_of p) eqn:R.
    - eapply Forall_impl; [|apply (replace_class_chars filename p R)].
      intros c B. repeat split; intros ->; vm_compute in B; discriminate.
    - destruct p; try discriminate.
      eapply Forall_impl; [|apply keep_class_chars].
      intros c B. repeat split; intros ->; vm_compute in B; discriminate. }
  split; [exact F|]. split; [|split].
  - intros ext He. destruct (endswith (sanitize filename p) ext) eqn:E; auto.
    assert (In dot (sanitize filename p)) as D.
    { apply (endswith_In _ _ dot E).
      destruct He as [<-|[<-|[<-|[]]]]; vm_compute; auto. }
    eapply Forall_forall in F; eauto. destruct F as (_ & _ & F). contradiction.
  - intros c Hc. destruct p; simpl in Hc; try discriminate;
      injection Hc as <-.
    + apply keepSpaces_no_double.
    + unfold sanitize, clean_filename. cbn [replace_spaces_of space_replacement_of].
      change (py "_") with [95%N]. cbn [truthy].
      rewrite collapse_repeats_squeeze. apply no_double_strip, squeeze_no_double.
    + unfold sanitize, clean_filename. cbn [replace_spaces_of space_replacement_of].
      change (py "-") with [45%N]. cbn [truthy].
      rewrite collapse_repeats_squeeze. apply no_double_strip, squeeze_no_double.
  - destruct (replace_spaces_of p) eqn:R.
    + eapply Forall_impl; [|apply (replace_class_chars filename p R)].
      intros c B C. split; auto.
      apply control_outside in C as (W & _ & P).
      unfold outside_replace_class in B. rewrite W, P in B. simpl in B.
      now apply negb_false_iff in B.
    + destruct p; try discriminate.
      eapply Forall_impl; [|apply keep_class_chars].
      intros c B C. exfalso.
      apply control_outside in C as (W & S & P).
      unfold outside_keep_class in B. rewrite W, S, P in B. discriminate.
Qed.

End SanitizerFacts.

(** The extension is cut off whatever its case, and spaces are replaced. *)
Example extension_stripping :
  @sanitize ascii_tables (py "Game Title.zip") replaceWithUnderscore = py "Game_Title"
  /\ @sanitize ascii_tables (py "Game Title.ZIP") replaceWithDash = py "Game-Title"
  /\ @sanitize ascii_tables (py "My  Game!! (v1.2) [EU].7z") removeSpaces = py "MyGame(v12)[EU]".
Proof. repeat split; vm_compute; reflexivity. Qed.

(** C7 fails on a name with two spaces in a row: one of them is lost. *)
Lemma keepSpaces_loses_a_space :
  @sanitize ascii_tables (py "a  b.zip") keepSpaces = py "a b"
  /\ @kept_characters ascii_tables (py "a  b.zip") = py "a  b"
  /\ count space (@sanitize ascii_tables (py "a  b.zip") keepSpaces) = 1
  /\ count space (@kept_characters ascii_tables (py "a  b.zip")) = 2
  /\ ~ @space_positions_kept ascii_tables (py "a  b.zip").
Proof.
  repeat split; try (vm_compute; reflexivity).
  unfold space_positions_kept. vm_compute. discriminate.
Qed.

(** C5 at a name with a tab: under the three policies that replace spaces
    the tab, a control character, is still in the name. *)
Theorem tab_survives_replacement (U : UnicodeData) :
  is_control tab = true
  /\ sanitize ([97; tab; 98] ++ py ".zip")%N replaceWithUnderscore = [97; tab; 98]%N
  /\ sanitize ([97; tab; 98] ++ py ".zip")%N replaceWithDash = [97; tab; 98]%N
  /\ sanitize ([97; tab; 98] ++ py ".zip")%N removeSpaces = [97; tab; 98]%N
  /\ sanitize ([97; tab; 98] ++ py ".zip")%N keepSpaces = [97; 98]%N.
Proof. repeat split; vm_compute; reflexivity. Qed.

(** ** Innermost-artifact locator *)

Section LocatorFacts.

Lemma dir_tree_induction (P : dir_tree -> Prop) :
  (forall subdirs files, Forall (fun entry => P (snd entry)) subdirs -> P (Dir subdirs files)) ->
  forall t, P t.
Proof.
  intros step. fix IH 1. intros [subdirs files]. apply step.
  induction subdirs as [|entry subdirs IHs]; constructor; [apply IH | exact IHs].
Qed.

Lemma fold_left_flat_map {A B C} (f : A -> B -> A) (g : C -> list B) l a :
  fold_left f (flat_map g l) a = fold_left (fun a x => fold_left f (g x) a) l a.
Proof.
  revert a; induction l as [|x l IH]; intros a; simpl; auto.
  now rewrite fold_left_app, IH.
Qed.

Lemma fold_left_over_map {A B C} (f : A -> B -> A) (g : C -> B) l a :
  fold_left f (map g l) a = fold_left (fun a x => f a (g x)) l a.
Proof. revert a; induction l as [|x l IH]; intros a; simpl; auto. Qed.

(** The two nested loops are one loop over the files in walk order. *)
Lemma find_innermost_file_fold directory t :
  find_innermost_file directory t
  = deepest_file (fold_left (track directory) (walk_files directory t) start).
Proof.
  unfold find_innermost_file, walk_files. rewrite fold_left_flat_map.
  change {| deepest_file := None; max_depth := (-1)%Z |} with start.
  generalize start. generalize (os_walk directory t).
  intros l. induction l as [|[[root dirs] files] l IH]; intros b; simpl; auto.
  rewrite IH. do 2 f_equal. rewrite fold_left_over_map. reflexivity.
Qed.

Lemma depth_of_nonneg directory p : (0 <= depth_of directory p)%Z.
Proof. unfold depth_of. lia. Qed.

Lemma track_first_deepest directory paths b x :
  first_deepest directory paths b ->
  first_deepest directory (paths ++ [x]) (track directory b x).
Proof.
  unfold first_deepest, track. intros I.
  destruct (deepest_file b) as [p|] eqn:D.
  - destruct I as (before & after & E & M & Hb & Ha). rewrite M.
    destruct (Z.gtb_spec (depth_of directory x) (depth_of directory p)) as [G|G]; simpl.
    + exists paths, []. repeat split; auto.
      * intros q Hq. rewrite E in Hq. apply in_app_or in Hq as [Hq|[<-|Hq]].
        -- specialize (Hb q Hq). lia.
        -- exact G.
        -- specialize (Ha q Hq). lia.
      * intros q [].
    + rewrite D. exists before, (after ++ [x]). repeat split; auto.
      * rewrite E, <- app_assoc. reflexivity.
      * intros q Hq. apply in_app_or in Hq as [Hq|[<-|[]]]; auto.
  - destruct I as [-> M]. rewrite M.
    pose proof (depth_of_nonneg directory x).
    destruct (Z.gtb_spec (depth_of directory x) (-1)) as [G|G]; [|lia]. simpl.
    exists [], []. repeat split; auto; intros q [].
Qed.

Lemma fold_track_first_deepest directory paths :
  first_deepest directory paths (fold_left (track directory) paths start).
Proof.
  induction paths as [|x paths IH] using rev_ind.
  - simpl. unfold first_deepest. simpl. auto.
  - rewrite fold_left_app. simpl. now apply track_first_deepest.
Qed.

Lemma walk_files_count directory t : length (walk_files directory t) = file_count t.
Proof.
  revert directory. induction t as [subdirs files IH] using dir_tree_induction.
  intros directory. unfold walk_files. simpl. rewrite length_app, length_map. f_equal.
  induction subdirs as [|[name sub] subdirs IHs]; simpl; auto.
  inversion IH as [|? ? Hsub Hrest]; subst.
  rewrite flat_map_app, length_app. f_equal; [apply Hsub | now apply IHs].
Qed.

(** The file found splits the walk order: strictly shallower files before
    it, no deeper file after it. *)
Lemma find_innermost_file_split directory t :
  match find_innermost_file directory t with
  | Some p =>
      exists before after,
        walk_files directory t = before ++ p :: after
        /\ (forall q, In q before -> (depth_of directory q < depth_of directory p)%Z)
        /\ (forall q, In q after -> (depth_of directory q <= depth_of directory p)%Z)
  | None => walk_files directory t = []
  end.
Proof.
  rewrite find_innermost_file_fold.
  pose proof (fold_track_first_deepest directory (walk_files directory t)) as I.
  unfold first_deepest in I.
  destruct (deepest_file (fold_left (track directory) (walk_files directory t) start))
    as [p|].
  - destruct I as (before & after & E & _ & Hb & Ha). exists before, after. auto.
  - apply I.
Qed.

(** C3: the search returns the first of the deepest files in walk order,
    deepest by the number of separators after the directory prefix, and it
    returns nothing exactly when the tree has no file. *)
Theorem find_innermost_file_first_deepest directory t :
  match find_innermost_file directory t with
  | Some p =>
      exists before after,
        walk_files directory t = before ++ p :: after
        /\ (forall q, In q before -> (depth_of directory q < depth_of directory p)%Z)
        /\ (forall q, In q after -> (depth_of directory q <= depth_of directory p)%Z)
  | None => walk_files directory t = []
  end
  /\ (find_innermost_file directory t = None <-> file_count t = 0).
Proof.
  pose proof (find_innermost_file_split directory t) as S.
  split; [exact S|].
  destruct (find_innermost_file directory t) as [p|].
  - destruct S as (before & after & E & _). split; [discriminate|]. intros Z.
    rewrite <- (walk_files_count directory), E, length_app in Z. simpl in Z. lia.
  - split; auto. intros _. now rewrite <- (walk_files_count directory), S.
Qed.

Lemma path_join_entry a name :
  entry_name_ok name = true -> exists x, path_join a name = a ++ x /\ x <> [].
Proof.
  unfold entry_name_ok, path_join. intros N. apply andb_true_iff in N as [N1 N2].
  destruct name as [|c name]; [discriminate|].
  apply negb_true_iff in N2. simpl in N2. apply orb_false_iff in N2 as [N2 _].
  simpl startswith. rewrite N2. simpl.
  destruct (negb (truthy a) || endswith a [os_sep]).
  - exists (c :: name). split; auto. discriminate.
  - exists (os_sep :: c :: name). split; auto. discriminate.
Qed.

(** Every directory of the walk lies at or below the starting one. *)
Lemma os_walk_roots directory t root dirs files :
  names_ok t = true -> In (root, dirs, files) (os_walk directory t) ->
  (exists mid, root = directory ++ mid) /\ Forall (fun f => entry_name_ok f = true) files.
Proof.
  revert directory. induction t as [subdirs fs IH] using dir_tree_induction.
  intros directory N Hin. simpl in N. apply andb_true_iff in N as [Nf Ns].
  simpl in Hin. destruct Hin as [E|Hin].
  - inversion E; subst. split; [exists []; now rewrite app_nil_r|].
    apply Forall_forall. intros f Hf. eapply forallb_forall in Nf; eauto.
  - apply in_flat_map in Hin as ([name sub] & He & Hin). simpl in Hin.
    eapply forallb_forall in Ns; eauto. simpl in Ns. apply andb_true_iff in Ns as [Nn Nt].
    eapply Forall_forall in IH; eauto. simpl in IH.
    destruct (IH _ Nt Hin) as [[mid E] F]. split; auto.
    destruct (path_join_entry directory name Nn) as (x & Ex & _).
    exists (x ++ mid). now rewrite E, Ex, app_assoc.
Qed.

Lemma walk_files_entries directory t p :
  In p (walk_files directory t) ->
  exists root dirs files file,
    In (root, dirs, files) (os_walk directory t) /\ In file files /\ p = path_join root file.
Proof.
  unfold walk_files. intros Hin.
  apply in_flat_map in Hin as ([[root dirs] files] & Hw & Hin).
  apply in_map_iff in Hin as (file & E & Hf).
  exists root, dirs, files, file. auto.
Qed.

(** C10: when the names of the tree are names of directory entries, the file
    returned is one the walk listed as a file, and its path starts with the
    directory searched and is longer. *)
Theorem find_innermost_file_inside directory t p :
  names_ok t = true ->
  find_innermost_file directory t = Some p ->
  strictly_inside directory p
  /\ exists root dirs files file,
       In (root, dirs, files) (os_walk directory t) /\ In file files
       /\ p = path_join root file.
Proof.
  intros N E.
  pose proof (find_innermost_file_split directory t) as S.
  rewrite E in S. destruct S as (before & after & W & _).
  assert (In p (walk_files directory t)) as Hin
    by (rewrite W; apply in_or_app; right; now left).
  destruct (walk_files_entries _ _ _ Hin) as (root & dirs & files & file & Hw & Hf & ->).
  split; [|exists root, dirs, files, file; auto].
  destruct (os_walk_roots _ _ _ _ _ N Hw) as [[mid ->] F].
  eapply Forall_forall in F; eauto.
  destruct (path_join_entry (directory ++ mid) file F) as (x & -> & Hx).
  exists (mid ++ x). split; [now rewrite app_assoc|].
  destruct mid; simpl; [exact Hx | discriminate].
Qed.

End LocatorFacts.

(** Files at the levels 0, 1, 1 and 3: the file of level 3 is found; in an
    empty tree nothing is found. *)
Example locator_levels :
  find_innermost_file (py "/out/G_temp")
    (Dir [ (py "a", Dir [ (py "b", Dir [ (py "c", Dir [] [py "deep.bin"]) ] []) ] [py "one.txt"]);
           (py "d", Dir [] [py "two.txt"]) ]
         [py "top.txt"])
  = Some (py "/out/G_temp/a/b/c/deep.bin")
  /\ find_innermost_file (py "/out/G_temp") (Dir [ (py "a", Dir [] []) ] []) = None.
Proof. split; vm_compute; reflexivity. Qed.

(** C10 on a tree with files at four levels, searched from [/out/G_temp]. *)
Lemma find_innermost_file_inside_witness :
  strictly_inside (py "/out/G_temp") (py "/out/G_temp/a/b/deep.bin")
  /\ exists root dirs files file,
       In (root, dirs, files)
          (os_walk (py "/out/G_temp")
             (Dir [ (py "a", Dir [ (py "b", Dir [] [py "deep.bin"; py "deep2.bin"]) ] [py "mid.txt"]);
                    (py "c", Dir [ (py "d", Dir [] [py "other.bin"]) ] []) ]
                  [py "top.txt"]))
       /\ In file files
       /\ py "/out/G_temp/a/b/deep.bin" = path_join root file.
Proof.
  apply find_innermost_file_inside; vm_compute; reflexivity.
Defined.

(** ** Computations *)

Section MonadFacts.
Variable World : Type.
Variable H : host World.

(** A message that can be printed is printed, and the program goes on. *)
Lemma print_then {A} (m : message) (k : M World A) w :
  can_print H m w = true ->
  (print H m ;; k) w = (outcome (k w), world_after (k w), Printed m :: events (k w)).
Proof.
  intros C. unfold bind, print. rewrite C. destruct (k w) as [[r w1] e1]. reflexivity.
Qed.

(** A message that cannot be printed leaves nothing but the exception. *)
Lemma print_fails {A} (m : message) (k : M World A) w :
  can_print H m w = false ->
  (print H m ;; k) w = (Raise UnicodeEncodeError, w, []).
Proof. intros C. unfold bind, print. now rewrite C. Qed.

(** A [try] whose handler only prints a message that can be printed ends
    normally, with the events of its body first. *)
Lemma try_except_print (m : M World unit) (report : exn -> message) w :
  (forall e w1, can_print H (report e) w1 = true) ->
  exists w' tail,
    try_except m (fun e => print H (report e)) w = (Ok tt, w', events (m w) ++ tail).
Proof.
  intros C. unfold try_except, print, events.
  destruct (m w) as [[[[]|e] w1] e1]; simpl.
  - exists w1, []. now rewrite app_nil_r.
  - rewrite C. exists w1, [Printed (report e)]. reflexivity.
Qed.

(** [print] raises nothing but [UnicodeEncodeError]. *)
Lemma print_raises m w e :
  outcome (print H m w) = Raise e -> e = UnicodeEncodeError.
Proof.
  unfold print, outcome. destruct (can_print H m w); simpl; intros E;
    [discriminate E | now injection E].
Qed.

Lemma print_all (P : event -> bool) m w :
  P (Printed m) = true -> forallb P (events (print H m w)) = true.
Proof.
  intros Pm. unfold print, events. destruct (can_print H m w); simpl; [|reflexivity].
  now rewrite Pm.
Qed.

(** Properties of the events pass through the combinators. *)
Lemma ret_all {A} (P : event -> bool) (a : A) (w : World) :
  forallb P (events (ret a w)) = true.
Proof. reflexivity. Qed.

Lemma bind_all {A B} (P : event -> bool) (m : M World A) (f : A -> M World B) w :
  forallb P (events (m w)) = true ->
  (forall a w1, forallb P (events (f a w1)) = true) ->
  forallb P (events (bind m f w)) = true.
Proof.
  unfold bind, events. intros Hm Hf.
  destruct (m w) as [[[a|e] w1] e1]; simpl in *; auto.
  specialize (Hf a w1). destruct (f a w1) as [[r w2] e2]; simpl in *.
  rewrite forallb_app, Hm, Hf. reflexivity.
Qed.

Lemma try_except_all {A} (P : event -> bool) (m : M World A) handler w :
  forallb P (events (m w)) = true ->
  (forall e w1, forallb P (events (handler e w1)) = true) ->
  forallb P (events (try_except m handler w)) = true.
Proof.
  unfold try_except, events. intros Hm Hh.
  destruct (m w) as [[[a|e] w1] e1]; simpl in *; auto.
  specialize (Hh e w1). destruct (handler e w1) as [[r w2] e2]; simpl in *.
  rewrite forallb_app, Hm, Hh. reflexivity.
Qed.

Lemma try_except_only_all {A} (P : event -> bool) caught (m : M World A) handler w :
  forallb P (events (m w)) = true ->
  (forall w1, forallb P (events (handler w1)) = true) ->
  forallb P (events (try_except_only caught m handler w)) = true.
Proof.
  unfold try_except_only, events. intros Hm Hh.
  destruct (m w) as [[[a|e] w1] e1]; simpl in *; auto.
  destruct (caught e); simpl; auto.
  specialize (Hh w1). destruct (handler w1) as [[r w2] e2]; simpl in *.
  rewrite forallb_app, Hm, Hh. reflexivity.
Qed.

End MonadFacts.

(** ** Extractor resolver and archive extractor *)

Section ExtractorFacts.
Variable World : Type.
Variable H : host World.

(** A probe counts a tool as available when its process ran to the end
    within the time limit, whatever the return code; it counts it as missing
    on the three exceptions of line 34 and passes any other exception on. *)
Lemma is_tool_available_result tool w :
  outcome (is_tool_available H tool w)
  = match fst (subprocess_run H [tool; py "--version"] 5 w) with
    | Ok _ => Ok true
    | Raise e => if probe_caught e then Ok false else Raise e
    end.
Proof.
  unfold is_tool_available, try_except_only, bind, run, ret, outcome.
  destruct (subprocess_run H [tool; py "--version"] 5 w) as [[rc|e] w1]; simpl; auto.
  destruct (probe_caught e); reflexivity.
Qed.

Lemma append_if_available_result tool entry extractors w :
  match outcome (append_if_available H tool entry extractors w) with
  | Ok l => exists b : bool, l = extractors ++ (if b then [entry] else [])
  | Raise _ => True
  end.
Proof.
  unfold append_if_available, is_tool_available, try_except_only, bind, run, ret, outcome.
  destruct (subprocess_run H _ 5 w) as [[rc|e] w1]; simpl.
  - now exists true.
  - destruct (probe_caught e); simpl; auto.
    exists false. now rewrite app_nil_r.
Qed.

(** X8: the resolver returns the available back ends in rank order; [unzip] is
    not probed on Windows, and the library is last whenever it can be
    imported. *)
Lemma get_archive_extractor_ranked w :
  match outcome (get_archive_extractor H w) with
  | Ok l =>
      exists use_unrar use_7z use_unzip,
        l = ranked use_unrar use_7z (use_unzip && negb (win32 H)) (patoolib_importable H)
  | Raise _ => True
  end.
Proof.
  unfold get_archive_extractor, ranked.
  unfold bind at 1. destruct (win32 H).
  - unfold bind at 1.
    pose proof (append_if_available_result unrar (unrar, Some (py "x")) [] w) as A1.
    destruct (append_if_available H unrar (unrar, Some (py "x")) [] w) as [[[l1|e1] w1] ev1];
      [|exact I].
    destruct A1 as [b1 ->].
    pose proof (append_if_available_result sevenz (sevenz, Some (py "x"))
                  ([] ++ (if b1 then [(unrar, Some (py "x"))] else [])) w1) as A2.
    destruct (append_if_available H sevenz _ _ w1) as [[[l2|e2] w2] ev2]; [|exact I].
    destruct A2 as [b2 ->]. exists b1, b2, false.
    unfold outcome, ret. simpl.
    destruct b1, b2, (patoolib_importable H); reflexivity.
  - unfold bind at 1.
    pose proof (append_if_available_result unrar (unrar, Some (py "x")) [] w) as A1.
    destruct (append_if_available H unrar (unrar, Some (py "x")) [] w) as [[[l1|e1] w1] ev1];
      [|exact I].
    destruct A1 as [b1 ->]. unfold bind at 1.
    pose proof (append_if_available_result sevenz (sevenz, Some (py "x"))
                  ([] ++ (if b1 then [(unrar, Some (py "x"))] else [])) w1) as A2.
    destruct (append_if_available H sevenz _ _ w1) as [[[l2|e2] w2] ev2]; [|exact I].
    destruct A2 as [b2 ->].
    pose proof (append_if_available_result unzip (unzip, Some (py ""))
                  (([] ++ (if b1 then [(unrar, Some (py "x"))] else []))
                   ++ (if b2 then [(sevenz, Some (py "x"))] else [])) w2) as A3.
    destruct (append_if_available H unzip _ _ w2) as [[[l3|e3] w3] ev3]; [|exact I].
    destruct A3 as [b3 ->]. exists b1, b2, b3.
    unfold outcome, ret. simpl.
    destruct b1, b2, b3, (patoolib_importable H); reflexivity.
Qed.

(** One round of the loop of [extract_archive]: the back end is called once;
    the round returns [True] when the call reports success, passes the turn
    on when the failure of the call is reported, and raises the
    [UnicodeEncodeError] of line 97 when it is not. *)
Lemma attempt_round e archive_path extract_to w :
  exists ev w1 evs,
    backend_call H e archive_path extract_to w = (ev, w1)
    /\ filter is_backend_call evs = [ev]
    /\ try_except (attempt H e archive_path extract_to)
         (fun err => print H (BackendError (fst e) err) ;; ret None) w
       = ((if reports_success ev then Ok (Some true)
           else if reported H (fst e) ev w1 then Ok None
           else Raise UnicodeEncodeError),
          w1, evs).
Proof.
  destruct e as [name cmd].
  unfold backend_call, try_except, attempt, bind, run, do, print, emit, ret.
  destruct name; cbn [fst snd].
  1-3: match goal with
       | |- context [subprocess_run H ?c ?t ?w0] =>
           destruct (subprocess_run H c t w0) as [[rc|err] w1]
       end;
       [ destruct (rc =? 0)%Z eqn:Z0 | ];
       repeat match goal with
              | |- context [can_print H ?m ?w0] => destruct (can_print H m w0) eqn:?
              end;
       eexists _, _, _; (split; [reflexivity|]);
       (split; [| cbn [reports_success reported];
                  repeat match goal with E : _ = _ |- _ => rewrite E end;
                  cbn [orb]; reflexivity ]);
       reflexivity.
  destruct (win32 H);
    destruct (perform H (PatoolExtract archive_path extract_to) w) as [[[]|err] w1];
    repeat match goal with
           | |- context [can_print H ?m ?w0] => destruct (can_print H m w0) eqn:?
           end;
    eexists _, _, _; (split; [reflexivity|]);
    (split; [| cbn [reports_success reported];
               repeat match goal with E : _ = _ |- _ => rewrite E end;
               cbn [orb]; reflexivity ]);
    reflexivity.
Qed.

Lemma try_extractors_chain extractors archive_path extract_to w :
  exists r w' evs,
    try_extractors H extractors archive_path extract_to w = (r, w', evs)
    /\ fallback_chain H archive_path extract_to extractors w r
         (filter is_backend_call evs) w'.
Proof.
  revert w. induction extractors as [|e rest IH]; intros w.
  - exists (Ok false), w, []. split; [reflexivity | constructor].
  - destruct (attempt_round e archive_path extract_to w) as (ev & w1 & evs & C & F & R).
    cbn [try_extractors]. unfold bind at 1. rewrite R.
    destruct (reports_success ev) eqn:S.
    + exists (Ok true), w1, (evs ++ []). split; [reflexivity|].
      rewrite app_nil_r, F. now apply chain_success.
    + destruct (reported H (fst e) ev w1) eqn:Rep.
      * destruct (IH w1) as (r & w' & evs' & T & Ch).
        rewrite T. exists r, w', (evs ++ evs'). split; [reflexivity|].
        rewrite filter_app, F. simpl. eapply chain_failure; eauto.
      * exists (Raise UnicodeEncodeError), w1, evs. split; [reflexivity|].
        rewrite F. now apply chain_unreported.
Qed.

(** [extract_archive] on what the resolver did. *)
Lemma extract_archive_cases archive_path extract_to archive_name w :
  match get_archive_extractor H w with
  | (Raise e, w0, probes) =>
      extract_archive H archive_path extract_to archive_name w = (Raise e, w0, probes)
  | (Ok [], w0, probes) =>
      extract_archive H archive_path extract_to archive_name w
      = (Raise (RuntimeError no_tools_message), w0, probes)
  | (Ok (e :: rest), w0, probes) =>
      exists r w' evs,
        extract_archive H archive_path extract_to archive_name w = (r, w', probes ++ evs)
        /\ fallback_chain H archive_path extract_to (e :: rest) w0 r
             (filter is_backend_call evs) w'
  end.
Proof.
  unfold extract_archive, bind, raise.
  destruct (get_archive_extractor H w) as [[[[|e rest]|err] w0] probes].
  - now rewrite app_nil_r.
  - destruct (try_extractors_chain (e :: rest) archive_path extract_to w0)
      as (r & w' & evs & T & Ch).
    rewrite T. exists r, w', evs. auto.
  - reflexivity.
Qed.

(** X11: what [extract_archive] does, by what the resolver did.  When the
    resolver returns back ends, they are called in rank order, each once and
    in the world the one before left.  The first call that reports success
    ends the chain with [True]; a failure that is reported passes the turn to
    the next back end, and [False] is returned when every back end was
    called and every failure was reported.  A failure whose report cannot be
    printed ends the chain with the [UnicodeEncodeError] of the print of line
    97, the back ends after it untried.  An exception of a probe that
    [is_tool_available] does not catch leaves [extract_archive] before any
    back end is called, and so does the [RuntimeError] of the empty list. *)
Theorem extract_archive_fallback_chain archive_path extract_to archive_name w :
  match get_archive_extractor H w with
  | (Raise e, w0, probes) =>
      extract_archive H archive_path extract_to archive_name w = (Raise e, w0, probes)
  | (Ok [], w0, probes) =>
      extract_archive H archive_path extract_to archive_name w
      = (Raise (RuntimeError no_tools_message), w0, probes)
  | (Ok (e :: rest), w0, probes) =>
      exists r w' evs,
        extract_archive H archive_path extract_to archive_name w = (r, w', probes ++ evs)
        /\ fallback_chain H archive_path extract_to (e :: rest) w0 r
             (filter is_backend_call evs) w'
  end.
Proof. apply extract_archive_cases. Qed.

(** What a chain that raises says: the exception is the one of [print], and
    the call made last is the call of a back end of the list that failed
    without a report. *)
Lemma fallback_chain_raises archive_path extract_to extractors w e calls w' :
  fallback_chain H archive_path extract_to extractors w (Raise e) calls w' ->
  e = UnicodeEncodeError
  /\ exists front x ev w0,
       In x extractors /\ calls = front ++ [ev]
       /\ backend_call H x archive_path extract_to w0 = (ev, w')
       /\ reports_success ev = false /\ reported H (fst x) ev w' = false.
Proof.
  remember (Raise e) as r eqn:R. induction 1 as
    [w | x rest w ev w1 C S | x rest w ev w1 r calls w2 C S Rep Ch IH | x rest w ev w1 C S Rep];
    try discriminate R.
  - destruct (IH R) as (-> & front & y & last & w0 & Hy & -> & C' & S' & Rep').
    split; [reflexivity|]. exists (ev :: front), y, last, w0. repeat split; auto. now right.
  - injection R as <-. split; [reflexivity|].
    exists [], x, ev, w. repeat split; auto. now left.
Qed.

Lemma run_extraction_event cmd timeout w :
  forallb extraction_event (events (run H cmd timeout w)) = true.
Proof. unfold run, events. destruct (subprocess_run H cmd timeout w). reflexivity. Qed.

Lemma append_if_available_events tool entry extractors w :
  forallb extraction_event (events (append_if_available H tool entry extractors w)) = true.
Proof.
  unfold append_if_available, is_tool_available.
  apply bind_all; [|intros; apply ret_all].
  apply try_except_only_all; [|intros; apply ret_all].
  apply bind_all; [apply run_extraction_event | intros; apply ret_all].
Qed.

Lemma get_archive_extractor_events w :
  forallb extraction_event (events (get_archive_extractor H w)) = true.
Proof.
  unfold get_archive_extractor.
  apply bind_all; [|intros; apply ret_all].
  destruct (win32 H).
  - apply bind_all; [|intros]; apply append_if_available_events.
  - apply bind_all; [apply append_if_available_events|]. intros.
    apply bind_all; [|intros]; apply append_if_available_events.
Qed.

Lemma try_extractors_events extractors archive_path extract_to w :
  forallb extraction_event
    (events (try_extractors H extractors archive_path extract_to w)) = true.
Proof.
  revert w. induction extractors as [|[name cmd] rest IH]; intros w; [reflexivity|].
  cbn [try_extractors]. apply bind_all.
  - apply try_except_all.
    + unfold attempt. destruct name.
      1-3: apply bind_all; [apply run_extraction_event|]; intros rc w1;
           destruct (rc =? 0)%Z; [apply ret_all|];
           apply bind_all; [now apply print_all | intros; apply ret_all].
      apply bind_all; [destruct (win32 H); reflexivity|]. intros _ w1.
      apply bind_all; [|intros; apply ret_all].
      unfold do, events. destruct (perform H _ w1). reflexivity.
    + intros e w1. apply bind_all; [now apply print_all | intros; apply ret_all].
  - intros [b|] w1; [apply ret_all | apply IH].
Qed.

(** The resolver and the extractor start processes and call the library;
    they move, remove and write nothing. *)
Lemma extract_archive_events archive_path extract_to archive_name w :
  forallb extraction_event
    (events (extract_archive H archive_path extract_to archive_name w)) = true.
Proof.
  unfold extract_archive. apply bind_all; [apply get_archive_extractor_events|].
  intros [|e rest] w1; [reflexivity | apply try_extractors_events].
Qed.

Lemma extract_archive_no_relocation archive_path extract_to archive_name w :
  filter relocation_step
    (events (extract_archive H archive_path extract_to archive_name w)) = [].
Proof.
  pose proof (extract_archive_events archive_path extract_to archive_name w) as F.
  induction (events (extract_archive H archive_path extract_to archive_name w))
    as [|ev evs IH]; [reflexivity|].
  simpl in F. apply andb_true_iff in F as [F1 F2]. simpl. rewrite (IH F2).
  destruct ev as [| [] | | | | |]; try reflexivity; discriminate.
Qed.

End ExtractorFacts.

(** ** Batch pipeline *)


Section PipelineFacts.
Context {U : UnicodeData}.
Variable World : Type.
Variable H : host World.
Variable cfg : settings.

(** No exception leaves a round of the loop under the progress bar when the
    error report of the archive can be printed. *)
Lemma process_archive_total archive w :
  (forall e w0, can_print H (ErrorProcessing archive e) w0 = true) ->
  exists w' evs, process_archive H cfg archive w = (Ok tt, w', evs).
Proof.
  intros C. unfold Pipeline.process_archive.
  match goal with
  | |- context [try_except ?m (fun e => print H (@?report e))] =>
      destruct (try_except_print H m report w C) as (w' & tail & E)
  end.
  rewrite E. eexists _, _. reflexivity.
Qed.

(** The same for a round of the loop without progress bar. *)
Lemma process_archive_plain_total archive total i w :
  (forall e w0, can_print H (ErrorProcessing archive e) w0 = true) ->
  exists w' evs, process_archive_plain H cfg total i archive w = (Ok tt, w', evs).
Proof.
  intros C. unfold Pipeline.process_archive_plain.
  match goal with
  | |- context [try_except ?m (fun e => print H (@?report e))] =>
      destruct (try_except_print H m report w C) as (w' & tail & E)
  end.
  rewrite E. eexists _, _. reflexivity.
Qed.

(** After a round the loop ticks the progress bar and goes on with the rest
    of the batch. *)
Lemma main_loop_cons archive rest w w1 e1 :
  process_archive H cfg archive w = (Ok tt, w1, e1) ->
  main_loop H cfg (archive :: rest) w
  = (outcome ((draw H BarUpdate ;; main_loop H cfg rest) w1),
     world_after ((draw H BarUpdate ;; main_loop H cfg rest) w1),
     e1 ++ events ((draw H BarUpdate ;; main_loop H cfg rest) w1)).
Proof.
  intros E. cbn [Pipeline.main_loop]. unfold bind at 1. rewrite E.
  destruct ((draw H BarUpdate ;; main_loop H cfg rest) w1) as [[r w2] e2]. reflexivity.
Qed.

(** The same for the loop without progress bar, which has no tick. *)
Lemma plain_loop_cons archive rest total i w w1 e1 :
  process_archive_plain H cfg total i archive w = (Ok tt, w1, e1) ->
  plain_loop_from H cfg total i (archive :: rest) w
  = (outcome (plain_loop_from H cfg total (S i) rest w1),
     world_after (plain_loop_from H cfg total (S i) rest w1),
     e1 ++ events (plain_loop_from H cfg total (S i) rest w1)).
Proof.
  intros E. cbn [Pipeline.plain_loop_from]. unfold bind at 1. rewrite E.
  destruct (plain_loop_from H cfg total (S i) rest w1) as [[r w2] e2]. reflexivity.
Qed.

Lemma draw_then {A} (ev : bool -> event) (k : M World A) w :
  (draw H ev ;; k) w
  = match draw_bar H w with
    | (true, w1) => (outcome (k w1), world_after (k w1), ev true :: events (k w1))
    | (false, w1) => (Raise UnicodeEncodeError, w1, [ev false])
    end.
Proof.
  unfold bind, draw. destruct (draw_bar H w) as [[|] w1]; [|reflexivity].
  destruct (k w1) as [[r w2] e2]. reflexivity.
Qed.

(** When the error reports can be printed, the loop under the progress bar
    ends normally after a round for every archive, or it is left by the
    [UnicodeEncodeError] of the bar. *)
Lemma main_loop_run archive_files w :
  reports_printable H archive_files ->
  exists w' evs,
    (main_loop H cfg archive_files w = (Ok tt, w', evs)
     /\ forall a, In a archive_files ->
          exists w0 front back, evs = front ++ events (process_archive H cfg a w0) ++ back)
    \/ main_loop H cfg archive_files w = (Raise UnicodeEncodeError, w', evs).
Proof.
  revert w. induction archive_files as [|archive rest IH]; intros w C.
  - exists w, []. left. split; [reflexivity | intros a []].
  - assert (reports_printable H rest) as C' by (intros a e w0 Ha; apply C; now right).
    assert (forall e w0, can_print H (ErrorProcessing archive e) w0 = true) as Ca
      by (intros e w0; apply C; now left).
    destruct (@process_archive_total archive w Ca) as (w1 & e1 & E1).
    rewrite (main_loop_cons archive rest w E1), draw_then.
    destruct (draw_bar H w1) as [[|] w2].
    + destruct (IH w2 C') as (w3 & e3 & [[E3 R]|E3]); rewrite E3;
        unfold outcome, world_after, events; simpl.
      * eexists _, _. left. split; [reflexivity|].
        intros a [<-|Ha].
        -- exists w, [], (BarUpdate true :: e3). rewrite E1. reflexivity.
        -- destruct (R a Ha) as (w0 & front & back & ->).
           exists w0, (e1 ++ BarUpdate true :: front), back.
           simpl. rewrite <- !app_assoc. reflexivity.
      * eexists _, _. right. reflexivity.
    + unfold outcome, world_after, events; simpl.
      eexists _, _. right. reflexivity.
Qed.

(** When the error reports can be printed, the loop without progress bar
    ends normally after a round for every archive. *)
Lemma plain_loop_run total i archive_files w :
  reports_printable H archive_files ->
  exists w' evs,
    plain_loop_from H cfg total i archive_files w = (Ok tt, w', evs)
    /\ forall a, In a archive_files ->
         exists j w0 front back,
           evs = front ++ events (process_archive_plain H cfg total j a w0) ++ back.
Proof.
  revert i w. induction archive_files as [|archive rest IH]; intros i w C.
  - exists w, []. split; [reflexivity | intros a []].
  - assert (reports_printable H rest) as C' by (intros a e w0 Ha; apply C; now right).
    assert (forall e w0, can_print H (ErrorProcessing archive e) w0 = true) as Ca
      by (intros e w0; apply C; now left).
    destruct (@process_archive_plain_total archive total i w Ca) as (w1 & e1 & E1).
    destruct (IH (S i) w1 C') as (w2 & e2 & E2 & R).
    rewrite (plain_loop_cons archive rest total i w E1), E2.
    unfold outcome, world_after, events; simpl.
    eexists _, _. split; [reflexivity|].
    intros a [<-|Ha].
    + exists i, w, [], e2. rewrite E1. reflexivity.
    + destruct (R a Ha) as (j & w0 & front & back & ->).
      exists j, w0, (e1 ++ front), back. now rewrite <- app_assoc.
Qed.

(** When the error reports can be printed, the batch ends normally, and
    every archive has had a round in the loop that went through: under the
    progress bar, or, when the bar could not be drawn, in the loop without
    it. *)
Lemma main_batch_run archive_files w :
  reports_printable H archive_files ->
  exists w' evs,
    main_batch H cfg archive_files w = (Ok tt, w', evs)
    /\ ((forall a, In a archive_files ->
           exists w0 front back, evs = front ++ events (process_archive H cfg a w0) ++ back)
        \/ (forall a, In a archive_files ->
              exists total j w0 front back,
                evs = front ++ events (process_archive_plain H cfg total j a w0) ++ back)).
Proof.
  intros C.
  pose proof (fun w0 => @plain_loop_run (length archive_files) 0 archive_files w0 C) as P.
  assert (forall (k : M World unit) w0,
            (print H ProgressBarDisabled ;; k) w0
            = (outcome (k w0), world_after (k w0),
               Printed ProgressBarDisabled :: events (k w0))) as PD
    by (intros k w0; now apply print_then).
  unfold main_batch, plain_loop.
  unfold bind at 1, try_except_only. rewrite draw_then.
  destruct (draw_bar H w) as [[|] w1].
  - destruct (@main_loop_run archive_files w1 C) as (w2 & e2 & [[E2 R]|E2]); rewrite E2;
      unfold outcome, world_after, events; simpl.
    + eexists _, _. split; [reflexivity|]. left.
      intros a Ha. destruct (R a Ha) as (w0 & front & back & ->).
      exists w0, (BarOpened (length archive_files) true :: front),
             (back ++ [Printed UnpackingComplete]).
      simpl. now rewrite <- !app_assoc.
    + rewrite PD.
      destruct (P w2) as (w3 & e3 & E3 & R). rewrite E3.
      unfold outcome, world_after, events; simpl.
      eexists _, _. split; [reflexivity|]. right.
      intros a Ha. destruct (R a Ha) as (j & w0 & front & back & ->).
      exists (length archive_files), j, w0,
             ((BarOpened (length archive_files) true :: e2)
              ++ Printed ProgressBarDisabled :: front),
             (back ++ [Printed UnpackingComplete]).
      simpl. rewrite <- !app_assoc. simpl. now rewrite <- !app_assoc.
  - simpl. rewrite PD.
    destruct (P w1) as (w3 & e3 & E3 & R). rewrite E3.
    unfold outcome, world_after, events; simpl.
    eexists _, _. split; [reflexivity|]. right.
    intros a Ha. destruct (R a Ha) as (j & w0 & front & back & ->).
    exists (length archive_files), j, w0,
           (BarOpened (length archive_files) false :: Printed ProgressBarDisabled :: front),
           (back ++ [Printed UnpackingComplete]).
    simpl. now rewrite <- !app_assoc.
Qed.

Lemma artifact_produced_part archive front evs back :
  artifact_produced cfg archive evs = true ->
  artifact_produced cfg archive (front ++ evs ++ back) = true.
Proof.
  unfold Pipeline.artifact_produced. intros E. apply andb_true_iff in E as [E1 E2].
  rewrite !existsb_app, E1, E2. now rewrite !orb_true_r.
Qed.

(** X22: when the error report of lines 271 and 337 can be printed for
    every archive of the batch, no exception raised in the round of an
    archive leaves the loop: whatever happens to an archive, at whatever
    stage, the batch ends normally and every archive of it has its round, the
    archives after the failing one included; an archive among them that has
    a file placed at its final path and its marker written from whatever
    world its round starts in, in either loop, has them in the batch. *)
Theorem main_batch_isolation before failing after archive w :
  reports_printable H (before ++ failing :: after) ->
  In archive after ->
  (forall w0, artifact_produced cfg archive (events (process_archive H cfg archive w0)) = true) ->
  (forall total i w0,
      artifact_produced cfg archive
        (events (process_archive_plain H cfg total i archive w0)) = true) ->
  outcome (main_batch H cfg (before ++ failing :: after) w) = Ok tt
  /\ (forall a, In a (before ++ failing :: after) ->
        had_round H cfg a (events (main_batch H cfg (before ++ failing :: after) w)))
  /\ artifact_produced cfg archive
       (events (main_batch H cfg (before ++ failing :: after) w)) = true.
Proof.
  intros C Hin Bar Plain.
  assert (In archive (before ++ failing :: after)) as Hin'
    by (apply in_or_app; right; now right).
  destruct (@main_batch_run (before ++ failing :: after) w C) as (w' & evs & E & R).
  rewrite E. unfold outcome, events. simpl fst. simpl snd.
  split; [reflexivity|]. destruct R as [R|R]; split.
  - intros a Ha. destruct (R a Ha) as (w0 & front & back & ->).
    left. now exists w0, front, back.
  - destruct (R archive Hin') as (w0 & front & back & ->).
    apply artifact_produced_part, Bar.
  - intros a Ha. destruct (R a Ha) as (total & j & w0 & front & back & ->).
    right. now exists total, j, w0, front, back.
  - destruct (R archive Hin') as (total & j & w0 & front & back & ->).
    apply artifact_produced_part, Plain.
Qed.

(** C8, as the code has it: in both loops the clean-up of the scratch
    directory comes before the marker write, and after a relocation that
    succeeded.  Under the progress bar the marker write follows a clean-up
    that succeeded.  In the loop without progress bar it follows the
    clean-up whatever its outcome, when the outcome of the clean-up can be
    printed; the round stops where a message of lines 305-330 cannot be
    printed. *)
Theorem cleanup_precedes_marker archive total i w :
  steps_under_bar cfg archive
    (filter relocation_step (events (process_archive H cfg archive w)))
  /\ steps_plain cfg archive
       (filter relocation_step (events (process_archive_plain H cfg total i archive w)))
  /\ (forall game_dir final_file_path game_name w0,
        (forall w1, can_print H (CleanedUp game_dir) w1 = true) ->
        (forall e w1, can_print H (CleanupFailed game_dir e) w1 = true) ->
        filter relocation_step
          (events ((clean_up H game_dir ;; write_marker H final_file_path game_name) w0))
        = [Did (Rmtree game_dir) (fst (perform H (Rmtree game_dir) w0));
           Did (WriteText (final_file_path ++ py ".xbox360") game_name)
               (fst (perform H (WriteText (final_file_path ++ py ".xbox360") game_name)
                       (snd (perform H (Rmtree game_dir) w0))))]).
Proof.
  split; [|split].
  - run_round @extract_archive_no_relocation; settle X; unfold steps_under_bar;
      first [ now left
            | right; left; do 2 eexists; reflexivity
            | right; right; left; do 2 eexists; reflexivity
            | right; right; right; do 2 eexists; reflexivity ].
  - run_round @extract_archive_no_relocation; settle X;
      unfold steps_plain, relocation_calls, relocated;
      first [ now left
            | right; left; do 2 eexists; left; reflexivity
            | right; left; do 2 eexists; right; left; eexists; reflexivity
            | right; left; do 2 eexists; right; right; eexists; reflexivity
            | right; right; left; do 2 eexists;
              split; [left; eexists; reflexivity | reflexivity]
            | right; right; left; do 2 eexists;
              split; [right; do 2 eexists; reflexivity | reflexivity]
            | right; right; right; do 3 eexists;
              split; [left; eexists; reflexivity | reflexivity]
            | right; right; right; do 3 eexists;
              split; [right; do 2 eexists; reflexivity | reflexivity] ].
  - intros game_dir final_file_path game_name w0 C1 C2.
    unfold clean_up, write_marker, try_except, bind, do, print, events.
    destruct (perform H (Rmtree game_dir) w0) as [[[]|e] w1]; rewrite ?C1, ?C2;
      cbn [fst snd];
      destruct (perform H (WriteText (final_file_path ++ py ".xbox360") game_name) w1)
        as [[[]|e'] w2];
      repeat match goal with
             | |- context [can_print H ?m ?w3] => destruct (can_print H m w3)
             end;
      reflexivity.
Qed.

(** One round under the progress bar that meets no failure, whatever the
    name of the archive. *)
Lemma process_archive_succeeds archive w w1 w2 evs p w3 w4 w5 :
  can_print H (Processing archive) w = true ->
  perform H (Makedirs (game_dir_of cfg archive)) w = (Ok tt, w1) ->
  extract_archive H (path_join (xbla_dir cfg) archive) (game_dir_of cfg archive) archive w1
  = (Ok true, w2, evs) ->
  found (find_innermost_file (game_dir_of cfg archive)
           (tree_at H (game_dir_of cfg archive) w2)) = Some p ->
  perform H (Move p (final_file_path_of cfg archive)) w2 = (Ok tt, w3) ->
  perform H (Rmtree (game_dir_of cfg archive)) w3 = (Ok tt, w4) ->
  perform H (WriteText (marker_path_of cfg archive) (game_name_of cfg archive)) w4
  = (Ok tt, w5) ->
  process_archive H cfg archive w
  = (Ok tt, w5,
     Printed (Processing archive)
     :: Did (Makedirs (game_dir_of cfg archive)) (Ok tt)
     :: evs
     ++ [Walked (game_dir_of cfg archive);
         Did (Move p (final_file_path_of cfg archive)) (Ok tt);
         Did (Rmtree (game_dir_of cfg archive)) (Ok tt);
         Did (WriteText (marker_path_of cfg archive) (game_name_of cfg archive)) (Ok tt)]).
Proof.
  intros C Mk Ex Fo Mv Rm Wr. unfold marker_path_of in Wr.
  cbv beta iota zeta delta
    [Pipeline.process_archive bind try_except do print ret locate walk].
  rewrite C, Mk, Ex. cbv beta iota zeta. rewrite Fo. cbv beta iota zeta.
  rewrite Mv, Rm, Wr. unfold marker_path_of. cbn [app]. reflexivity.
Qed.

(** One round of the loop without progress bar that meets no failure,
    whatever the name of the archive: the relocation steps. *)
Lemma process_archive_plain_succeeds archive total i w w1 w2 evs p w3 w4 w5 :
  can_print H (ProcessingOf archive (i + 1) total) w = true ->
  perform H (Makedirs (game_dir_of cfg archive)) w = (Ok tt, w1) ->
  extract_archive H (path_join (xbla_dir cfg) archive) (game_dir_of cfg archive) archive w1
  = (Ok true, w2, evs) ->
  found (find_innermost_file (game_dir_of cfg archive)
           (tree_at H (game_dir_of cfg archive) w2)) = Some p ->
  can_print H (Moving p (final_file_path_of cfg archive)) w2 = true ->
  perform H (Move p (final_file_path_of cfg archive)) w2 = (Ok tt, w3) ->
  can_print H (Moved (game_name_of cfg archive)) w3 = true ->
  perform H (Rmtree (game_dir_of cfg archive)) w3 = (Ok tt, w4) ->
  can_print H (CleanedUp (game_dir_of cfg archive)) w4 = true ->
  perform H (WriteText (marker_path_of cfg archive) (game_name_of cfg archive)) w4
  = (Ok tt, w5) ->
  filter relocation_step (events (process_archive_plain H cfg total i archive w))
  = [Did (Move p (final_file_path_of cfg archive)) (Ok tt);
     Did (Rmtree (game_dir_of cfg archive)) (Ok tt);
     Did (WriteText (marker_path_of cfg archive) (game_name_of cfg archive)) (Ok tt)].
Proof.
  intros C Mk Ex Fo Cm Mv Cd Rm Cc Wr. unfold marker_path_of in Wr.
  pose proof (extract_archive_no_relocation H (path_join (xbla_dir cfg) archive)
                (game_dir_of cfg archive) archive w1) as X.
  rewrite Ex in X. unfold events in X. cbn [snd] in X.
  cbv beta iota zeta delta
    [Pipeline.process_archive_plain relocate clean_up write_marker bind try_except do
     print ret locate walk].
  rewrite C, Mk, Ex. cbv beta iota zeta. rewrite Fo. cbv beta iota zeta.
  rewrite Cm, Mv. cbv beta iota zeta. rewrite Cd. cbv beta iota zeta.
  rewrite Rm. cbv beta iota zeta. rewrite Cc. cbv beta iota zeta.
  rewrite Wr. cbv beta iota zeta. unfold marker_path_of, events.
  destruct (can_print H (MarkerCreated (game_name_of cfg archive)) w5);
    cbv beta iota zeta;
    repeat match goal with
           | |- context [can_print H ?m ?w0] => destruct (can_print H m w0)
           end;
    cbn [snd app filter relocation_step]; rewrite ?filter_app, ?X;
    cbn [snd app filter relocation_step]; reflexivity.
Qed.

(** C6, as the code has it: the name is not tested.  In both loops a round
    whose announcement can be printed makes the scratch directory named
    after the sanitized name, whatever that name is, and when the directory
    is there it goes on to [extract_archive]; and in both loops a round that
    meets no failure relocates the file found, removes the scratch directory
    and writes the marker under that name, empty or not. *)
Theorem extraction_follows_any_name archive w :
  (can_print H (Processing archive) w = true ->
   exists rest,
     events (process_archive H cfg archive w)
     = Printed (Processing archive)
       :: Did (Makedirs (game_dir_of cfg archive))
              (fst (perform H (Makedirs (game_dir_of cfg archive)) w))
       :: match fst (perform H (Makedirs (game_dir_of cfg archive)) w) with
          | Ok _ =>
              events (extract_archive H (path_join (xbla_dir cfg) archive)
                        (game_dir_of cfg archive) archive
                        (snd (perform H (Makedirs (game_dir_of cfg archive)) w)))
              ++ rest
          | Raise _ => rest
          end)
  /\ (forall total i,
        can_print H (ProcessingOf archive (i + 1) total) w = true ->
        exists rest,
          events (process_archive_plain H cfg total i archive w)
          = Printed (ProcessingOf archive (i + 1) total)
            :: Did (Makedirs (game_dir_of cfg archive))
                   (fst (perform H (Makedirs (game_dir_of cfg archive)) w))
            :: match fst (perform H (Makedirs (game_dir_of cfg archive)) w) with
               | Ok _ =>
                   events (extract_archive H (path_join (xbla_dir cfg) archive)
                             (game_dir_of cfg archive) archive
                             (snd (perform H (Makedirs (game_dir_of cfg archive)) w)))
                   ++ rest
               | Raise _ => rest
               end)
  /\ (forall w1 w2 evs p w3 w4 w5,
        can_print H (Processing archive) w = true ->
        perform H (Makedirs (game_dir_of cfg archive)) w = (Ok tt, w1) ->
        extract_archive H (path_join (xbla_dir cfg) archive) (game_dir_of cfg archive)
          archive w1 = (Ok true, w2, evs) ->
        found (find_innermost_file (game_dir_of cfg archive)
                 (tree_at H (game_dir_of cfg archive) w2)) = Some p ->
        perform H (Move p (final_file_path_of cfg archive)) w2 = (Ok tt, w3) ->
        perform H (Rmtree (game_dir_of cfg archive)) w3 = (Ok tt, w4) ->
        perform H (WriteText (marker_path_of cfg archive) (game_name_of cfg archive)) w4
        = (Ok tt, w5) ->
        filter relocation_step (events (process_archive H cfg archive w))
        = [Did (Move p (final_file_path_of cfg archive)) (Ok tt);
           Did (Rmtree (game_dir_of cfg archive)) (Ok tt);
           Did (WriteText (marker_path_of cfg archive) (game_name_of cfg archive)) (Ok tt)])
  /\ (forall total i w1 w2 evs p w3 w4 w5,
        can_print H (ProcessingOf archive (i + 1) total) w = true ->
        perform H (Makedirs (game_dir_of cfg archive)) w = (Ok tt, w1) ->
        extract_archive H (path_join (xbla_dir cfg) archive) (game_dir_of cfg archive)
          archive w1 = (Ok true, w2, evs) ->
        found (find_innermost_file (game_dir_of cfg archive)
                 (tree_at H (game_dir_of cfg archive) w2)) = Some p ->
        can_print H (Moving p (final_file_path_of cfg archive)) w2 = true ->
        perform H (Move p (final_file_path_of cfg archive)) w2 = (Ok tt, w3) ->
        can_print H (Moved (game_name_of cfg archive)) w3 = true ->
        perform H (Rmtree (game_dir_of cfg archive)) w3 = (Ok tt, w4) ->
        can_print H (CleanedUp (game_dir_of cfg archive)) w4 = true ->
        perform H (WriteText (marker_path_of cfg archive) (game_name_of cfg archive)) w4
        = (Ok tt, w5) ->
        filter relocation_step (events (process_archive_plain H cfg total i archive w))
        = [Did (Move p (final_file_path_of cfg archive)) (Ok tt);
           Did (Rmtree (game_dir_of cfg archive)) (Ok tt);
           Did (WriteText (marker_path_of cfg archive) (game_name_of cfg archive)) (Ok tt)]).
Proof.
  split; [|split; [|split]].
  4:{ intros total i w1 w2 evs p w3 w4 w5 C Mk Ex Fo Cm Mv Cd Rm Cc Wr.
      exact (@process_archive_plain_succeeds archive total i w w1 w2 evs p w3 w4 w5
               C Mk Ex Fo Cm Mv Cd Rm Cc Wr). }
  - intros C.
    cbv beta iota zeta delta
      [Pipeline.process_archive relocate clean_up write_marker bind try_except do print
       emit ret locate walk events snd fst].
    rewrite C. repeat host_step @extract_archive_no_relocation;
      eexists; simpl; rewrite <- ?app_assoc; simpl; reflexivity.
  - intros total i C.
    cbv beta iota zeta delta
      [Pipeline.process_archive_plain relocate clean_up write_marker bind try_except do
       print emit ret locate walk events snd fst].
    rewrite C. repeat host_step @extract_archive_no_relocation;
      eexists; simpl; rewrite <- ?app_assoc; simpl; reflexivity.
  - intros w1 w2 evs p w3 w4 w5 C Mk Ex Fo Mv Rm Wr.
    rewrite (process_archive_succeeds archive w C Mk Ex Fo Mv Rm Wr).
    pose proof (extract_archive_no_relocation H (path_join (xbla_dir cfg) archive)
                  (game_dir_of cfg archive) archive w1) as X.
    rewrite Ex in X. unfold events in *. cbn [snd filter relocation_step] in *.
    rewrite filter_app, X. reflexivity.
Qed.

(** C4, as the code has it: with no back end resolved in the round of an
    archive, [extract_archive] raises before it tries anything; the round
    catches the error, reports it for the archive and ends normally, and the
    loop goes on with the rest of the batch, under the progress bar and
    without it. *)
Theorem no_backend_fails_the_round archive rest w w1 w2 probes :
  can_print H (ErrorProcessing archive (RuntimeError no_tools_message)) w2 = true ->
  perform H (Makedirs (game_dir_of cfg archive)) w = (Ok tt, w1) ->
  get_archive_extractor H w1 = (Ok [], w2, probes) ->
  extract_archive H (path_join (xbla_dir cfg) archive) (game_dir_of cfg archive) archive w1
  = (Raise (RuntimeError no_tools_message), w2, probes)
  /\ (can_print H (Processing archive) w = true ->
      main_loop H cfg (archive :: rest) w
      = (outcome ((draw H BarUpdate ;; main_loop H cfg rest) w2),
         world_after ((draw H BarUpdate ;; main_loop H cfg rest) w2),
         (Printed (Processing archive)
          :: Did (Makedirs (game_dir_of cfg archive)) (Ok tt)
          :: probes ++ [Printed (ErrorProcessing archive (RuntimeError no_tools_message))])
         ++ events ((draw H BarUpdate ;; main_loop H cfg rest) w2)))
  /\ (forall total i,
        can_print H (ProcessingOf archive (i + 1) total) w = true ->
        plain_loop_from H cfg total i (archive :: rest) w
        = (outcome (plain_loop_from H cfg total (S i) rest w2),
           world_after (plain_loop_from H cfg total (S i) rest w2),
           (Printed (ProcessingOf archive (i + 1) total)
            :: Did (Makedirs (game_dir_of cfg archive)) (Ok tt)
            :: probes
            ++ [Printed (ErrorProcessing archive (RuntimeError no_tools_message))])
           ++ events (plain_loop_from H cfg total (S i) rest w2))).
Proof.
  intros Ce P G.
  assert (extract_archive H (path_join (xbla_dir cfg) archive) (game_dir_of cfg archive)
            archive w1 = (Raise (RuntimeError no_tools_message), w2, probes)) as E.
  { unfold extract_archive, bind. rewrite G. unfold raise. now rewrite app_nil_r. }
  split; [exact E|]. split.
  - intros Ca. apply main_loop_cons.
    cbv beta iota zeta delta
      [Pipeline.process_archive bind try_except do print ret locate walk].
    rewrite Ca, P, E, Ce. simpl. reflexivity.
  - intros total i Ca. apply plain_loop_cons.
    cbv beta iota zeta delta
      [Pipeline.process_archive_plain bind try_except do print ret locate walk].
    rewrite Ca, P, E, Ce. simpl. reflexivity.
Qed.

End PipelineFacts.

(** ** Runs on the simulated host *)

(** C1 on a host where [unrar] exits with 3, [7z] runs into the time limit
    and the library unpacks the archive: the two tools are called and fail,
    the failures are reported, the library is called last, and the result
    is [True]. *)
Example last_resort_run :
  let run := extract_archive (Sim.sim_host Sim.last_resort)
               (py "/in/A.rar") (py "/out/A_temp") (py "A.rar") [] in
  outcome run = Ok true
  /\ filter (fun ev => is_backend_call ev && negb (reports_success ev)) (events run)
     = [ Ran [py "unzip"; py "--version"] 5 (Raise FileNotFoundError);
         Ran [py "unrar"; py "x"; py "-o-"; py "/in/A.rar"; py "/out/A_temp"] 60 (Ok 3%Z);
         Ran [py "7z"; py "x"; py "-o/out/A_temp"; py "/in/A.rar"] 60 (Raise TimeoutExpired) ]
  /\ messages (events run) = [BackendFailed unrar; BackendError sevenz TimeoutExpired]
  /\ last (events run) (Walked [])
     = Did (PatoolExtract (py "/in/A.rar") (py "/out/A_temp")) (Ok tt).
Proof. repeat split; vm_compute; reflexivity. Qed.

(** C1 fails for an archive with an accented letter in its name
    ([Sim.accented], in [/in]) on a console that encodes ASCII only, where [unrar] exits with 3, [7z] runs into the time limit and
    the library would unpack the archive: the exit code of [unrar] is
    reported and [7z] is called; the exception of the time limit cannot be
    reported, since its text holds the path of the archive, so the print of
    line 97 raises; that [UnicodeEncodeError] leaves [extract_archive], and
    the library, which is in the resolved list, is not called.  It fails as
    well where no program may be started: the [PermissionError] of the first
    probe leaves [extract_archive], although the library can be imported. *)
Theorem backend_failure_propagates :
  let host := Sim.sim_host Sim.unreported_timeout in
  let archive_path := py "/in/" ++ Sim.accented in
  let extract_to := py "/out/Pok" ++ 233%N :: py "mon_temp" in
  let run := extract_archive host archive_path extract_to Sim.accented [] in
  outcome (get_archive_extractor host [])
  = Ok [(unrar, Some (py "x")); (sevenz, Some (py "x")); (patoolib, None)]
  /\ outcome run = Raise UnicodeEncodeError
  /\ events run
     = [ Ran [py "unrar"; py "--version"] 5 (Ok 0%Z);
         Ran [py "7z"; py "--version"] 5 (Ok 0%Z);
         Ran [py "unzip"; py "--version"] 5 (Raise FileNotFoundError);
         Ran [py "unrar"; py "x"; py "-o-"; archive_path; extract_to] 60 (Ok 3%Z);
         Printed (BackendFailed unrar);
         Ran [py "7z"; py "x"; py "-o" ++ extract_to; archive_path] 60 (Raise TimeoutExpired) ]
  /\ fst (backend_call host (patoolib, None) archive_path extract_to (world_after run))
     = Did (PatoolExtract archive_path extract_to) (Ok tt)
  /\ patoolib_importable locked_host = true
  /\ extract_archive locked_host archive_path extract_to Sim.accented tt
     = (Raise PermissionError, tt,
        [Ran [py "unrar"; py "--version"] 5 (Raise PermissionError)]).
Proof. repeat split; vm_compute; reflexivity. Qed.

(** A batch of three archives of which the second cannot be unpacked by any
    tool, on a console that prints every message and where the progress bar
    breaks during the second round: the third archive yields its artifact
    from every world in either loop, and the theorem applies with the first
    archive before and the third after the second. *)
Lemma main_batch_isolation_witness :
  reports_printable (Sim.sim_host Sim.bar_breaks)
    ([py "A.zip"] ++ py "B.zip" :: [py "C.zip"])
  /\ outcome (main_batch (U := ascii_tables) (Sim.sim_host Sim.bar_breaks) Sim.underscores
                ([py "A.zip"] ++ py "B.zip" :: [py "C.zip"]) []) = Ok tt
  /\ (forall a, In a ([py "A.zip"] ++ py "B.zip" :: [py "C.zip"]) ->
        had_round (U := ascii_tables) (Sim.sim_host Sim.bar_breaks) Sim.underscores a
          (events (main_batch (U := ascii_tables) (Sim.sim_host Sim.bar_breaks)
                     Sim.underscores ([py "A.zip"] ++ py "B.zip" :: [py "C.zip"]) [])))
  /\ artifact_produced (U := ascii_tables) Sim.underscores (py "C.zip")
       (events (main_batch (U := ascii_tables) (Sim.sim_host Sim.bar_breaks) Sim.underscores
                  ([py "A.zip"] ++ py "B.zip" :: [py "C.zip"]) [])) = true.
Proof.
  assert (reports_printable (Sim.sim_host Sim.bar_breaks)
            ([py "A.zip"] ++ py "B.zip" :: [py "C.zip"])) as C
    by (intros a e w0 _; reflexivity).
  split; [exact C|].
  apply (@main_batch_isolation ascii_tables _ (Sim.sim_host Sim.bar_breaks)
           Sim.underscores [py "A.zip"] (py "B.zip") [py "C.zip"] (py "C.zip") [] C).
  - left. reflexivity.
  - intros w0. vm_compute. reflexivity.
  - intros total i w0. vm_compute. reflexivity.
Defined.

(** C2 fails on a console that encodes ASCII only, for a batch whose first
    archive has a letter outside ASCII in its name: the announcement of line
    242 raises, the print of the handler of line 271 raises again and leaves
    the loop under the progress bar; the loop without progress bar is left
    in the same way at lines 284 and 337, and the batch ends with
    [UnicodeEncodeError].  The second archive, which yields its artifact
    when it is the whole batch, is never attempted. *)
Lemma unprintable_name_aborts_batch :
  let host := Sim.sim_host Sim.ascii_only in
  let run := main_batch (U := ascii_tables) host Sim.underscores
               [Sim.accented; py "B.zip"] [] in
  outcome run = Raise UnicodeEncodeError
  /\ events run = [BarOpened 2 true; Printed ProgressBarDisabled]
  /\ outcome (main_batch (U := ascii_tables) host Sim.underscores [py "B.zip"] []) = Ok tt
  /\ artifact_produced (U := ascii_tables) Sim.underscores (py "B.zip")
       (events (main_batch (U := ascii_tables) host Sim.underscores [py "B.zip"] []))
     = true.
Proof. repeat split; vm_compute; reflexivity. Qed.

(** The batch where the progress bar can be drawn: the second archive is
    reported as not extracted, the first and the third yield their
    artifacts. *)
Example one_bad_archive_run :
  let run := main_batch (U := ascii_tables) (Sim.sim_host Sim.one_bad_archive) Sim.underscores
               [py "A.zip"; py "B.zip"; py "C.zip"] [] in
  outcome run = Ok tt
  /\ messages (events run)
     = [ Processing (py "A.zip");
         Processing (py "B.zip");
         BackendFailed unrar; BackendFailed sevenz; ExtractFailed (py "B.zip");
         Processing (py "C.zip");
         UnpackingComplete ]
  /\ artifact_produced (U := ascii_tables) Sim.underscores (py "A.zip") (events run) = true
  /\ artifact_produced (U := ascii_tables) Sim.underscores (py "B.zip") (events run) = false
  /\ artifact_produced (U := ascii_tables) Sim.underscores (py "C.zip") (events run) = true.
Proof. repeat split; vm_compute; reflexivity. Qed.

(** The same batch where the progress bar breaks during the second round:
    the loop without progress bar starts again from the first archive. *)
Example bar_breaks_run :
  let run := main_batch (U := ascii_tables) (Sim.sim_host Sim.bar_breaks) Sim.underscores
               [py "A.zip"; py "B.zip"; py "C.zip"] [] in
  outcome run = Ok tt
  /\ filter (fun m => match m with
                      | Processing _ | ProcessingOf _ _ _ | ExtractFailed _
                      | ProgressBarDisabled | UnpackingComplete => true
                      | _ => false
                      end)
            (messages (events run))
     = [ Processing (py "A.zip");
         Processing (py "B.zip"); ExtractFailed (py "B.zip");
         ProgressBarDisabled;
         ProcessingOf (py "A.zip") 1 3;
         ProcessingOf (py "B.zip") 2 3; ExtractFailed (py "B.zip");
         ProcessingOf (py "C.zip") 3 3;
         UnpackingComplete ].
Proof. split; vm_compute; reflexivity. Qed.

(** C4 fails on a host with no tool and no library: the error of the empty
    back-end list is reported for the first archive, the run is not aborted,
    and the second archive is processed and reported in the same way. *)
Lemma no_backend_batch_continues :
  let host := Sim.sim_host Sim.bare in
  let run := main_batch (U := ascii_tables) host Sim.underscores [py "A.zip"; py "B.zip"] [] in
  outcome (get_archive_extractor host []) = Ok []
  /\ outcome run = Ok tt
  /\ messages (events run)
     = [ Processing (py "A.zip");
         ErrorProcessing (py "A.zip") (RuntimeError no_tools_message);
         Processing (py "B.zip");
         ErrorProcessing (py "B.zip") (RuntimeError no_tools_message);
         UnpackingComplete ].
Proof. repeat split; vm_compute; reflexivity. Qed.

(** C4's corrected statement on that host, for the first archive of a batch
    of two. *)
Lemma no_backend_fails_the_round_witness :
  let host := Sim.sim_host Sim.bare in
  let cfg := Sim.underscores in
  let gd := game_dir_of (U := ascii_tables) cfg (py "A.zip") in
  let probes := events (get_archive_extractor host [py "/out/A_temp"]) in
  let report := Printed (ErrorProcessing (py "A.zip") (RuntimeError no_tools_message)) in
  can_print host (ErrorProcessing (py "A.zip") (RuntimeError no_tools_message))
    [py "/out/A_temp"] = true
  /\ perform host (Makedirs gd) [] = (Ok tt, [py "/out/A_temp"])
  /\ get_archive_extractor host [py "/out/A_temp"] = (Ok [], [py "/out/A_temp"], probes)
  /\ extract_archive host (path_join (xbla_dir cfg) (py "A.zip")) gd (py "A.zip")
       [py "/out/A_temp"]
     = (Raise (RuntimeError no_tools_message), [py "/out/A_temp"], probes)
  /\ (can_print host (Processing (py "A.zip")) [] = true ->
      main_loop (U := ascii_tables) host cfg [py "A.zip"; py "B.zip"] []
      = (outcome ((draw host BarUpdate ;; main_loop (U := ascii_tables) host cfg [py "B.zip"])
                    [py "/out/A_temp"]),
         world_after ((draw host BarUpdate ;; main_loop (U := ascii_tables) host cfg [py "B.zip"])
                        [py "/out/A_temp"]),
         (Printed (Processing (py "A.zip")) :: Did (Makedirs gd) (Ok tt) :: probes ++ [report])
         ++ events ((draw host BarUpdate ;; main_loop (U := ascii_tables) host cfg [py "B.zip"])
                      [py "/out/A_temp"])))
  /\ (forall total i,
        can_print host (ProcessingOf (py "A.zip") (i + 1) total) [] = true ->
        plain_loop_from (U := ascii_tables) host cfg total i [py "A.zip"; py "B.zip"] []
        = (outcome (plain_loop_from (U := ascii_tables) host cfg total (S i) [py "B.zip"]
                      [py "/out/A_temp"]),
           world_after (plain_loop_from (U := ascii_tables) host cfg total (S i) [py "B.zip"]
                          [py "/out/A_temp"]),
           (Printed (ProcessingOf (py "A.zip") (i + 1) total)
            :: Did (Makedirs gd) (Ok tt) :: probes ++ [report])
           ++ events (plain_loop_from (U := ascii_tables) host cfg total (S i) [py "B.zip"]
                        [py "/out/A_temp"]))).
Proof.
  intros host cfg gd probes report.
  split; [reflexivity|]. split; [reflexivity|]. split; [reflexivity|].
  apply (@no_backend_fails_the_round ascii_tables _ host cfg (py "A.zip") [py "B.zip"]
           [] [py "/out/A_temp"] [py "/out/A_temp"] probes); reflexivity.
Defined.

(** C6 fails on the archive [.zip]: its sanitized name is empty, and the
    round still unpacks it, moves the file found and writes a marker. *)
Lemma empty_name_goes_through :
  let run := process_archive (U := ascii_tables) (Sim.sim_host Sim.healthy) Sim.underscores
               (py ".zip") [] in
  game_name_of (U := ascii_tables) Sim.underscores (py ".zip") = []
  /\ outcome run = Ok tt
  /\ In (Ran [py "unrar"; py "x"; py "-o-"; py "/in/.zip"; py "/out/_temp"] 60 (Ok 0%Z))
        (events run)
  /\ filter relocation_step (events run)
     = [ Did (Move (py "/out/_temp/Content/0000/ABCDEF") (py "/out/")) (Ok tt);
         Did (Rmtree (py "/out/_temp")) (Ok tt);
         Did (WriteText (py "/out/.xbox360") []) (Ok tt) ].
Proof.
  repeat split; try (vm_compute; reflexivity).
  vm_compute. tauto.
Qed.

(** C8 fails on a healthy host: the file is moved, then the scratch
    directory is removed, and the marker is written last. *)
Lemma marker_follows_cleanup :
  let run := process_archive (U := ascii_tables) (Sim.sim_host Sim.healthy) Sim.underscores
               (py "Game Title.zip") [] in
  filter relocation_step (events run)
  = [ Did (Move (py "/out/Game_Title_temp/Content/0000/ABCDEF") (py "/out/Game_Title")) (Ok tt);
      Did (Rmtree (py "/out/Game_Title_temp")) (Ok tt);
      Did (WriteText (py "/out/Game_Title.xbox360") (py "Game_Title")) (Ok tt) ]
  /\ occurs_before is_marker_write is_cleanup (events run) = false
  /\ occurs_before is_cleanup is_marker_write (events run) = true.
Proof. repeat split; vm_compute; reflexivity. Qed.

(** In the loop without progress bar on a console that encodes ASCII only,
    the round stops after the move: the check mark of line 305 and the cross
    of line 307 cannot be printed, the handler of line 336 reports the
    [UnicodeEncodeError], and neither the clean-up nor the marker write is
    attempted. *)
Example round_stops_after_move :
  let run := process_archive_plain (U := ascii_tables) (Sim.sim_host Sim.ascii_only)
               Sim.underscores 1 0 (py "A.zip") [] in
  outcome run = Ok tt
  /\ filter relocation_step (events run)
     = [ Did (Move (py "/out/A_temp/Content/0000/ABCDEF") (py "/out/A")) (Ok tt) ]
  /\ last (events run) (Walked [])
     = Printed (ErrorProcessing (py "A.zip") UnicodeEncodeError).
Proof. repeat split; vm_compute; reflexivity. Qed.


(** * Further properties *)

(** ** Filename sanitizer *)

Section SanitizerMore.
Context {U : UnicodeData}.

Lemma subseq_length a b : subseq a b -> length a <= length b.
Proof. induction 1; simpl; lia. Qed.

Lemma subseq_In a b c : subseq a b -> In c a -> In c b.
Proof.
  induction 1; simpl; auto.
  intros [E|E]; auto.
Qed.

Lemma str_replace_length old new s :
  length new <= 1 -> length (str_replace old new s) <= length s.
Proof.
  intros L. induction s as [|c s IH]; simpl; auto.
  rewrite length_app. destruct (c =? old)%N; simpl; lia.
Qed.

Lemma re_sub_run_length bad repl in_run s :
  length repl <= 1 -> length (re_sub_run bad repl in_run s) <= length s.
Proof.
  intros L. revert in_run. induction s as [|c s IH]; intros in_run; simpl; auto.
  destruct (bad c); simpl.
  - rewrite length_app. specialize (IH true). destruct in_run; simpl; lia.
  - specialize (IH false). lia.
Qed.

(** X2: the sanitized name is never longer than the file name. *)
Theorem sanitize_length filename p :
  length (sanitize filename p) <= length filename.
Proof.
  unfold sanitize, clean_filename.
  pose proof (subseq_length (remove_extension_subseq SUPPORTED_EXTENSIONS filename)) as L0.
  set (stem := remove_extension SUPPORTED_EXTENSIONS filename) in *.
  etransitivity; [apply subseq_length, str_strip_subseq|].
  destruct p; cbn [replace_spaces_of space_replacement_of].
  - change (py " ") with [space]. cbn [truthy].
    rewrite collapse_repeats_squeeze.
    etransitivity; [apply subseq_length, squeeze_subseq|].
    unfold re_sub_class. etransitivity; [apply re_sub_run_length; simpl; lia | exact L0].
  - change (py "_") with [underscore]. cbn [truthy].
    rewrite collapse_repeats_squeeze.
    etransitivity; [apply subseq_length, squeeze_subseq|].
    etransitivity; [apply str_replace_length; simpl; lia|].
    unfold re_sub_class. etransitivity; [apply re_sub_run_length; simpl; lia|].
    etransitivity; [apply str_replace_length; simpl; lia | exact L0].
  - change (py "-") with [dash]. cbn [truthy].
    rewrite collapse_repeats_squeeze.
    etransitivity; [apply subseq_length, squeeze_subseq|].
    etransitivity; [apply str_replace_length; simpl; lia|].
    unfold re_sub_class. etransitivity; [apply re_sub_run_length; simpl; lia|].
    etransitivity; [apply str_replace_length; simpl; lia | exact L0].
  - change (py "") with (@nil char). cbn [truthy].
    etransitivity; [apply str_replace_length; simpl; lia|].
    unfold re_sub_class. etransitivity; [apply re_sub_run_length; simpl; lia|].
    etransitivity; [apply str_replace_length; simpl; lia | exact L0].
Qed.

(** X3: under the three policies that replace spaces no space is left. *)
Theorem no_space_under_replacement filename :
  Forall (fun c => c <> space) (sanitize filename replaceWithUnderscore)
  /\ Forall (fun c => c <> space) (sanitize filename replaceWithDash)
  /\ Forall (fun c => c <> space) (sanitize filename removeSpaces).
Proof.
  repeat split;
    (eapply Forall_impl; [|apply replacing_leaves_no_space]);
    intros c Hc; now apply Hc.
Qed.

End SanitizerMore.

Section SanitizerFixedPoints.
Context {U : UnicodeData}.

Lemma no_double_tail c x s : no_double c (x :: s) = true -> no_double c s = true.
Proof.
  destruct s as [|y s]; [reflexivity|].
  rewrite no_double_cons. intros E. now apply andb_true_iff in E.
Qed.

Lemma squeeze_fixed c s : no_double c s = true -> squeeze c s = s.
Proof.
  induction s as [|x s IH]; [reflexivity|]. intros N.
  rewrite squeeze_cons, (IH (no_double_tail _ _ _ N)).
  destruct ((x =? c)%N && startswith s [c]) eqn:E; [|reflexivity].
  apply andb_true_iff in E as [E1 E2]. destruct s as [|y s]; [discriminate|].
  rewrite startswith_one in E2. rewrite no_double_cons in N.
  rewrite (N.eqb_sym y c), E1, E2 in N. discriminate.
Qed.

Lemma re_sub_run_fixed bad repl in_run s :
  Forall (fun c => bad c = false) s -> re_sub_run bad repl in_run s = s.
Proof.
  intros F. revert in_run. induction F as [|c s Hc F IH]; intros in_run; simpl; auto.
  rewrite Hc. f_equal. apply IH.
Qed.

Lemma str_replace_fixed old new s :
  Forall (fun c => c <> old) s -> str_replace old new s = s.
Proof.
  induction 1 as [|c s Hc F IH]; simpl; auto.
  destruct (N.eqb_spec c old); [contradiction|]. simpl. now f_equal.
Qed.

Lemma lstrip_fixed set s :
  (forall x rest, s = x :: rest -> mem x set = false) -> lstrip set s = s.
Proof.
  destruct s as [|x s]; [reflexivity|]. intros Hx. simpl.
  now rewrite (Hx x s eq_refl).
Qed.

(** Stripping twice is stripping once. *)
Lemma str_strip_idem set s : str_strip set (str_strip set s) = str_strip set s.
Proof.
  set (t := str_strip set s).
  assert (lstrip set t = t) as L
    by (apply lstrip_fixed; intros x rest E; now apply (str_strip_first set s E)).
  unfold str_strip at 1. rewrite L. unfold rstrip.
  rewrite lstrip_fixed; [apply rev_involutive|].
  intros x rest E. apply (str_strip_last set s (rev rest) x).
  fold t. rewrite <- (rev_involutive t), E. reflexivity.
Qed.

Lemma remove_extension_fixed exts s :
  (forall ext, In ext exts -> endswith (str_lower s) ext = false) ->
  remove_extension exts s = s.
Proof.
  induction exts as [|ext exts IH]; intros F; simpl; auto.
  rewrite (F ext (or_introl eq_refl)). apply IH. intros e He. apply F. now right.
Qed.

Lemma lower_char_no_dot c :
  lower_without_dot U -> c <> dot -> ~ In dot (lower_char c).
Proof.
  intros T D. unfold lower_char, between.
  destruct ((65 <=? c)%N && (c <=? 90)%N) eqn:B.
  - apply andb_true_iff in B as [B1 B2]. apply N.leb_le in B1.
    intros [E|[]]. unfold dot in E. lia.
  - destruct (is_ascii c) eqn:A; [|now apply T].
    intros [E|[]]. congruence.
Qed.

Lemma str_lower_no_dot s :
  lower_without_dot U -> Forall (fun c => c <> dot) s -> ~ In dot (str_lower s).
Proof.
  intros T F Hin. unfold str_lower in Hin. apply in_flat_map in Hin as (c & Hc & Hd).
  rewrite Forall_forall in F. exact (lower_char_no_dot T (F c Hc) Hd).
Qed.

Lemma sanitize_no_dot filename p : Forall (fun c => c <> dot) (sanitize filename p).
Proof.
  destruct (replace_spaces_of p) eqn:R.
  - eapply Forall_impl; [|apply (replace_class_chars filename p R)].
    intros c B ->. vm_compute in B. discriminate.
  - destruct p; try discriminate.
    eapply Forall_impl; [|apply keep_class_chars].
    intros c B ->. vm_compute in B. discriminate.
Qed.

Lemma replacement_no_double filename p c :
  space_replacement_of p = [c] -> no_double c (sanitize filename p) = true.
Proof.
  intros Hc. destruct p; simpl in Hc; try discriminate; injection Hc as <-.
  - apply keepSpaces_no_double.
  - unfold sanitize, clean_filename. cbn [replace_spaces_of space_replacement_of].
    change (py "_") with [95%N]. cbn [truthy].
    rewrite collapse_repeats_squeeze. apply no_double_strip, squeeze_no_double.
  - unfold sanitize, clean_filename. cbn [replace_spaces_of space_replacement_of].
    change (py "-") with [45%N]. cbn [truthy].
    rewrite collapse_repeats_squeeze. apply no_double_strip, squeeze_no_double.
Qed.

(** On a name that already has the shape of a sanitized name, only the
    trimming is left to do. *)
Lemma sanitize_shaped s p :
  lower_without_dot U ->
  Forall (fun c => c <> dot) s ->
  Forall (fun c => if replace_spaces_of p
                   then outside_replace_class c = false /\ c <> space
                   else outside_keep_class c = false) s ->
  (forall c, space_replacement_of p = [c] -> no_double c s = true) ->
  sanitize s p = str_strip (py ".-_ ") s.
Proof.
  intros T D C N. unfold sanitize, clean_filename.
  rewrite remove_extension_fixed.
  2:{ intros ext He. destruct (endswith (str_lower s) ext) eqn:E; auto.
      exfalso. apply (str_lower_no_dot T D).
      apply (endswith_In _ _ dot E).
      destruct He as [<-|[<-|[<-|[]]]]; vm_compute; auto. }
  destruct p; cbn [replace_spaces_of space_replacement_of] in *.
  - unfold re_sub_class. rewrite re_sub_run_fixed by exact C.
    change (py " ") with [space]. cbn [truthy].
    rewrite collapse_repeats_squeeze, squeeze_fixed; auto.
  - assert (Forall (fun c => c <> space) s) as Sp
      by (eapply Forall_impl; [|exact C]; intros c [_ Hc]; exact Hc).
    assert (Forall (fun c => outside_replace_class c = false) s) as Cl
      by (eapply Forall_impl; [|exact C]; intros c [Hc _]; exact Hc).
    rewrite (str_replace_fixed _ Sp). unfold re_sub_class.
    rewrite (re_sub_run_fixed _ _ _ Cl), (str_replace_fixed _ Sp).
    change (py "_") with [underscore]. cbn [truthy].
    rewrite collapse_repeats_squeeze, squeeze_fixed; auto.
  - assert (Forall (fun c => c <> space) s) as Sp
      by (eapply Forall_impl; [|exact C]; intros c [_ Hc]; exact Hc).
    assert (Forall (fun c => outside_replace_class c = false) s) as Cl
      by (eapply Forall_impl; [|exact C]; intros c [Hc _]; exact Hc).
    rewrite (str_replace_fixed _ Sp). unfold re_sub_class.
    rewrite (re_sub_run_fixed _ _ _ Cl), (str_replace_fixed _ Sp).
    change (py "-") with [dash]. cbn [truthy].
    rewrite collapse_repeats_squeeze, squeeze_fixed; auto.
  - assert (Forall (fun c => c <> space) s) as Sp
      by (eapply Forall_impl; [|exact C]; intros c [_ Hc]; exact Hc).
    assert (Forall (fun c => outside_replace_class c = false) s) as Cl
      by (eapply Forall_impl; [|exact C]; intros c [Hc _]; exact Hc).
    rewrite (str_replace_fixed _ Sp). unfold re_sub_class.
    rewrite (re_sub_run_fixed _ _ _ Cl), (str_replace_fixed _ Sp).
    reflexivity.
Qed.

Lemma sanitize_is_stripped filename p :
  exists body, sanitize filename p = str_strip (py ".-_ ") body.
Proof. unfold sanitize, clean_filename. eexists. reflexivity. Qed.

(** X4: sanitizing a sanitized name changes nothing, when the lower case of the
    Unicode database holds no dot. *)
Theorem sanitize_idempotent filename p :
  lower_without_dot U ->
  sanitize (sanitize filename p) p = sanitize filename p.
Proof.
  intros T. rewrite sanitize_shaped; auto.
  - destruct (sanitize_is_stripped filename p) as [body ->]. apply str_strip_idem.
  - apply sanitize_no_dot.
  - destruct (replace_spaces_of p) eqn:R.
    + pose proof (replace_class_chars filename p R) as C.
      pose proof (replacing_leaves_no_space filename p) as Sp.
      rewrite Forall_forall in *. intros c Hc. split; [now apply C|].
      now apply Sp.
    + destruct p; try discriminate. apply keep_class_chars.
  - intros c Hc. now apply replacement_no_double.
Qed.

End SanitizerFixedPoints.

(** Idempotence on ASCII names. *)
Lemma sanitize_idempotent_witness :
  lower_without_dot ascii_tables
  /\ @sanitize ascii_tables (@sanitize ascii_tables (py "..My  Game!! (v1.2) [EU].7Z") replaceWithDash)
       replaceWithDash
     = @sanitize ascii_tables (py "..My  Game!! (v1.2) [EU].7Z") replaceWithDash.
Proof.
  assert (lower_without_dot ascii_tables) as T.
  { intros c A [E|[]]. subst c. discriminate. }
  split; [exact T|]. apply (sanitize_idempotent (U := ascii_tables)). exact T.
Defined.

Section SanitizerEmptyNames.
Context {U : UnicodeData}.

Lemma lstrip_nil set s :
  lstrip set s = [] <-> Forall (fun c => mem c set = true) s.
Proof.
  induction s as [|c s IH]; simpl.
  - split; auto.
  - destruct (mem c set) eqn:E.
    + rewrite IH. split; intros F; [now constructor | now inversion F].
    + split; [discriminate|]. intros F. inversion F; congruence.
Qed.

Lemma str_strip_nil set s :
  str_strip set s = [] <-> Forall (fun c => mem c set = true) s.
Proof.
  rewrite <- lstrip_nil. split.
  - intros E. destruct (lstrip set s) as [|x rest] eqn:L; [reflexivity|].
    pose proof (lstrip_head _ _ L) as Hx.
    unfold str_strip, rstrip in E. rewrite L in E.
    apply (f_equal (@rev char)) in E. rewrite rev_involutive in E. simpl in E.
    apply lstrip_nil in E. rewrite Forall_forall in E.
    specialize (E x). rewrite E in Hx; [discriminate|].
    apply in_or_app. right. now left.
  - intros E. unfold str_strip. now rewrite E.
Qed.

Lemma str_replace_all (P : char -> Prop) old new s :
  Forall P new -> P old -> Forall P (str_replace old new s) <-> Forall P s.
Proof.
  intros Hn Ho. induction s as [|c s IH]; [reflexivity|].
  change (str_replace old new (c :: s))
    with ((if (c =? old)%N then new else [c]) ++ str_replace old new s).
  rewrite Forall_app, IH. destruct (N.eqb_spec c old) as [->|D].
  - split; [intros [_ F]; now constructor | intros F; inversion F; auto].
  - split; [intros [F1 F2]; inversion F1; now constructor
           | intros F; inversion F; subst; split; auto].
Qed.

Lemma re_sub_run_all (P : char -> Prop) bad repl in_run s :
  Forall P repl ->
  Forall P (re_sub_run bad repl in_run s)
  <-> Forall (fun c => bad c = true \/ P c) s.
Proof.
  intros Hr. revert in_run. induction s as [|c s IH]; intros in_run; simpl.
  - split; auto.
  - destruct (bad c) eqn:B.
    + rewrite Forall_app, IH. split.
      * intros [_ F]. constructor; auto.
      * intros F. inversion F; subst. split; auto. now destruct in_run.
    + split.
      * intros F. inversion F; subst. constructor; auto. now apply (IH false).
      * intros F. inversion F as [|? ? [Hc|Hc] F']; subst; [congruence|].
        constructor; auto. now apply (IH false).
Qed.

Lemma squeeze_all (P : char -> Prop) c s :
  P c -> Forall P (squeeze c s) <-> Forall P s.
Proof.
  intros Hc. induction s as [|x s IH]; [reflexivity|].
  rewrite squeeze_cons. destruct ((x =? c)%N && startswith s [c]) eqn:E.
  - apply andb_true_iff in E as [E _]. apply N.eqb_eq in E. subst x.
    rewrite IH. split; [now constructor | intros F; now inversion F].
  - split; intros F; inversion F; subst; constructor; auto; now apply IH.
Qed.

(** X5: the sanitizer returns the empty name exactly for the names that, once
    the extension is cut off, hold nothing but dots, dashes, underscores,
    spaces and characters outside the class of the chosen format. *)
Theorem sanitize_empty_iff filename p :
  sanitize filename p = []
  <-> forallb (droppable p) (remove_extension SUPPORTED_EXTENSIONS filename) = true.
Proof.
  set (P := fun c : char => mem c (py ".-_ ") = true).
  assert (P space) as Ps by reflexivity.
  assert (forall (bad : char -> bool) s,
            Forall (fun c => bad c = true \/ P c) s
            <-> forallb (fun c => mem c (py ".-_ ") || bad c) s = true) as Fb.
  { intros bad s. rewrite forallb_forall, Forall_forall.
    split; intros F c Hc; specialize (F c Hc).
    - apply orb_true_iff. tauto.
    - apply orb_true_iff in F. tauto. }
  unfold sanitize, clean_filename, droppable. rewrite str_strip_nil. fold P.
  set (stem := remove_extension SUPPORTED_EXTENSIONS filename).
  assert (forall r, Forall P r ->
            Forall P (str_replace space r
                        (re_sub_class outside_replace_class r
                           (str_replace space r stem)))
            <-> forallb (fun c => mem c (py ".-_ ") || outside_replace_class c) stem
                = true) as R.
  { intros r Hr. rewrite (@str_replace_all P space r _ Hr Ps). unfold re_sub_class.
    rewrite (@re_sub_run_all P _ r false _ Hr), <- Fb.
    apply str_replace_all.
    - eapply Forall_impl; [|exact Hr]. auto.
    - now right. }
  destruct p; cbn [replace_spaces_of space_replacement_of].
  - change (py " ") with [space]. cbn [truthy].
    rewrite collapse_repeats_squeeze, (@squeeze_all P space _ Ps). unfold re_sub_class.
    rewrite (@re_sub_run_all P _ [] false _ (Forall_nil P)). apply Fb.
  - change (py "_") with [underscore]. cbn [truthy].
    rewrite collapse_repeats_squeeze, (@squeeze_all P); [|reflexivity].
    apply R. constructor; [reflexivity|constructor].
  - change (py "-") with [dash]. cbn [truthy].
    rewrite collapse_repeats_squeeze, (@squeeze_all P); [|reflexivity].
    apply R. constructor; [reflexivity|constructor].
  - change (py "") with (@nil char). cbn [truthy]. apply R. constructor.
Qed.

End SanitizerEmptyNames.

(** ** Listing of the input folder *)

Section ListingFacts.
Context {U : UnicodeData}.

Lemma last_app_nonempty (a b : str) d : b <> [] -> last (a ++ b) d = last b d.
Proof.
  intros Hb. induction a as [|x a IH]; [reflexivity|].
  simpl. destruct (a ++ b) eqn:E; [|exact IH].
  apply app_eq_nil in E as [_ E]. contradiction.
Qed.

Lemma endswith_last s p d : endswith s p = true -> p <> [] -> last s d = last p d.
Proof.
  unfold endswith. intros E Hp. apply andb_true_iff in E as [_ E].
  apply str_eqb_eq in E.
  rewrite <- (firstn_skipn (length s - length p) s), E.
  now apply last_app_nonempty.
Qed.

Lemma filter_disjoint_app (A : Type) (f g : A -> bool) l :
  (forall x, f x = true -> g x = true -> False) ->
  Permutation (filter f l ++ filter g l) (filter (fun x => f x || g x) l).
Proof.
  intros D. induction l as [|x l IH]; [constructor|].
  simpl. destruct (f x) eqn:Ef, (g x) eqn:Eg; simpl.
  - destruct (D x Ef Eg).
  - now constructor.
  - symmetry. apply Permutation_cons_app. now symmetry.
  - exact IH.
Qed.

(** The three extensions exclude one another: they end with different
    letters. *)
Lemma extensions_exclusive f e1 e2 :
  In e1 SUPPORTED_EXTENSIONS -> In e2 SUPPORTED_EXTENSIONS ->
  endswith (str_lower f) e1 = true -> endswith (str_lower f) e2 = true ->
  e1 = e2.
Proof.
  intros I1 I2 E1 E2.
  assert (last e1 0%N = last e2 0%N) as L.
  { rewrite <- (@endswith_last _ _ 0%N E1), <- (@endswith_last _ _ 0%N E2); auto.
    - destruct I2 as [<-|[<-|[<-|[]]]]; discriminate.
    - destruct I1 as [<-|[<-|[<-|[]]]]; discriminate. }
  destruct I1 as [<-|[<-|[<-|[]]]], I2 as [<-|[<-|[<-|[]]]];
    try reflexivity; vm_compute in L; discriminate.
Qed.

(** X7: the queue of archives is the listing of the input folder restricted to
    the entries with a supported extension, each as often as the folder
    lists it; only the order differs, as the queue is grouped by extension. *)
Theorem archive_files_permutation listing :
  Permutation (archive_files_of listing) (filter has_supported_extension listing).
Proof.
  unfold archive_files_of, has_supported_extension, SUPPORTED_EXTENSIONS.
  cbn [flat_map existsb]. rewrite app_nil_r.
  set (rar := fun f => endswith (str_lower f) (py ".rar")).
  set (zip := fun f => endswith (str_lower f) (py ".zip")).
  set (sevenz := fun f => endswith (str_lower f) (py ".7z")).
  match goal with
  | |- Permutation _ (filter ?h _) =>
      rewrite (filter_ext h (fun f => rar f || (fun x => zip x || sevenz x) f))
  end.
  2:{ intros f. unfold rar, zip, sevenz. cbv beta.
      now rewrite orb_false_r. }
  etransitivity.
  - apply Permutation_app_head. apply filter_disjoint_app.
    intros f E1 E2.
    assert (py ".zip" = py ".7z") as C
      by (apply (extensions_exclusive f); simpl; auto).
    discriminate C.
  - apply filter_disjoint_app. intros f E1 E2.
    apply orb_true_iff in E2 as [E2|E2].
    + assert (py ".rar" = py ".zip") as C
        by (apply (extensions_exclusive f); simpl; auto).
      discriminate C.
    + assert (py ".rar" = py ".7z") as C
        by (apply (extensions_exclusive f); simpl; auto).
      discriminate C.
Qed.

End ListingFacts.

(** ** Rules for the events and the value of a computation *)

Section ProgramLogic.
Variable World : Type.
Variable H : host World.
Variable P : event -> Prop.

Lemma holds_ret {A} (Q : A -> Prop) (a : A) : Q a -> holds P Q (@ret World A a).
Proof.
  intros Ha w. split; [constructor|]. intros b E.
  unfold outcome, ret in E. simpl in E. injection E as <-. exact Ha.
Qed.

Lemma holds_raise {A} (Q : A -> Prop) e : holds P Q (@raise World A e).
Proof. intros w. split; [constructor|]. intros b E. discriminate E. Qed.

Lemma holds_bind {A B} (Q : A -> Prop) (R : B -> Prop) (m : M World A) (f : A -> M World B) :
  holds P Q m -> (forall a, Q a -> holds P R (f a)) -> holds P R (bind m f).
Proof.
  intros Hm Hf w. destruct (Hm w) as [Fm Qm]. unfold bind, events, outcome in *.
  destruct (m w) as [[[a|e] w1] e1]; simpl in *.
  - destruct (Hf a (Qm a eq_refl) w1) as [Ff Qf]. unfold events, outcome in *.
    destruct (f a w1) as [[r w2] e2]; simpl in *. split; auto.
    apply Forall_app. auto.
  - split; auto. discriminate.
Qed.

Lemma holds_try_except {A} (Q : A -> Prop) (m : M World A) handler :
  holds P Q m -> (forall e, holds P Q (handler e)) -> holds P Q (try_except m handler).
Proof.
  intros Hm Hh w. destruct (Hm w) as [Fm Qm]. unfold try_except, events, outcome in *.
  destruct (m w) as [[[a|e] w1] e1]; simpl in *; auto.
  destruct (Hh e w1) as [Fh Qh]. unfold events, outcome in *.
  destruct (handler e w1) as [[r w2] e2]; simpl in *. split; auto.
  apply Forall_app. auto.
Qed.

Lemma holds_try_except_only {A} (Q : A -> Prop) caught (m : M World A) handler :
  holds P Q m -> holds P Q handler -> holds P Q (try_except_only caught m handler).
Proof.
  intros Hm Hh w. destruct (Hm w) as [Fm Qm]. unfold try_except_only, events, outcome in *.
  destruct (m w) as [[[a|e] w1] e1]; simpl in *; auto.
  destruct (caught e); simpl; [|split; auto; discriminate].
  destruct (Hh w1) as [Fh Qh]. unfold events, outcome in *.
  destruct (handler w1) as [[r w2] e2]; simpl in *. split; auto.
  apply Forall_app. auto.
Qed.

Lemma holds_weaken {A} (Q Q' : A -> Prop) (m : M World A) :
  holds P Q m -> (forall a, Q a -> Q' a) -> holds P Q' m.
Proof. intros Hm I w. destruct (Hm w) as [F Qm]. split; auto. Qed.

Lemma holds_emit ev : P ev -> holds P (fun _ => True) (@emit World ev).
Proof. intros Hev w. split; [repeat constructor; auto | auto]. Qed.

Lemma holds_print m : P (Printed m) -> holds P (fun _ => True) (print H m).
Proof.
  intros Pm w. unfold print, events. destruct (can_print H m w); simpl; split; auto.
Qed.

Lemma holds_run cmd timeout :
  (forall r, P (Ran cmd timeout r)) -> holds P (fun _ => True) (run H cmd timeout).
Proof.
  intros Hr w. unfold run, events. destruct (subprocess_run H cmd timeout w) as [r w1].
  simpl. split; auto.
Qed.

Lemma holds_do a : (forall r, P (Did a r)) -> holds P (fun _ => True) (do H a).
Proof.
  intros Hr w. unfold do, events. destruct (perform H a w) as [r w1].
  simpl. split; auto.
Qed.

Lemma holds_walk (Q : dir_tree -> Prop) directory :
  P (Walked directory) -> (forall w, Q (tree_at H directory w)) ->
  holds P Q (walk H directory).
Proof.
  intros Hw Ht w. unfold walk, events, outcome. simpl. split; auto.
  intros a E. inversion E. apply Ht.
Qed.

Lemma holds_draw ev :
  (forall drawn, P (ev drawn)) -> holds P (fun _ => True) (draw H ev).
Proof.
  intros Hd w. unfold draw, events. destruct (draw_bar H w) as [drawn w1].
  simpl. split; auto.
Qed.

End ProgramLogic.

(** ** Calls of the resolver and the extractor *)

Section ExtractorCalls.
Variable World : Type.
Variable H : host World.
Variables archive_path extract_to : str.

Lemma is_tool_available_holds (P : event -> Prop) e :
  (forall r, P (probe_of e r)) ->
  holds P (fun _ => True) (is_tool_available H (tool_name (fst e))).
Proof.
  intros He. unfold is_tool_available.
  apply holds_try_except_only; [|now apply holds_ret].
  eapply holds_bind; [apply holds_run | intros; now apply holds_ret].
  exact He.
Qed.

Lemma append_if_available_holds (P : event -> Prop) allowed e extractors :
  (forall r, P (probe_of e r)) ->
  In e allowed -> incl extractors allowed ->
  holds P (fun l => incl l allowed) (append_if_available H (fst e) e extractors).
Proof.
  intros He Hin Hl. unfold append_if_available.
  eapply holds_bind; [now apply is_tool_available_holds|].
  intros ok _. apply holds_ret. destruct ok; auto.
  apply incl_app; auto. now intros x [<-|[]].
Qed.

(** The events of the resolver are the probes of the tools of the platform,
    and what it returns is taken from these tools and the library. *)
Lemma get_archive_extractor_holds (P : event -> Prop) :
  (forall e r, In e (offered (win32 H)) -> P (probe_of e r)) ->
  holds P (fun l => incl l (resolvable (win32 H))) (get_archive_extractor H).
Proof.
  intros Hp. unfold get_archive_extractor.
  assert (forall e, In e (offered (win32 H)) -> In e (resolvable (win32 H))) as R
    by (intros e He; apply in_or_app; now left).
  eapply holds_bind with (Q := fun l => incl l (resolvable (win32 H))).
  - destruct (win32 H).
    + eapply holds_bind.
      * apply (@append_if_available_holds P (resolvable true) (unrar, Some (py "x")));
          [intros r; apply Hp | apply R | intros x []]; simpl; auto.
      * intros l Hl.
        apply (@append_if_available_holds P (resolvable true) (sevenz, Some (py "x")));
          [intros r; apply Hp | apply R | exact Hl]; simpl; auto.
    + eapply holds_bind.
      * apply (@append_if_available_holds P (resolvable false) (unrar, Some (py "x")));
          [intros r; apply Hp | apply R | intros x []]; simpl; auto.
      * intros l Hl. eapply holds_bind.
        -- apply (@append_if_available_holds P (resolvable false) (sevenz, Some (py "x")));
             [intros r; apply Hp | apply R | exact Hl]; simpl; auto.
        -- intros l' Hl'.
           apply (@append_if_available_holds P (resolvable false) (unzip, Some (py "")));
             [intros r; apply Hp | apply R | exact Hl']; simpl; auto.
  - intros l Hl. apply holds_ret. destruct (patoolib_importable H); auto.
    apply incl_app; auto. intros x [<-|[]]. apply in_or_app. right. now left.
Qed.

Lemma get_archive_extractor_sanctioned :
  holds (sanctioned (win32 H) archive_path extract_to)
        (fun l => incl l (resolvable (win32 H)))
        (get_archive_extractor H).
Proof. apply get_archive_extractor_holds. intros e r He. now constructor. Qed.

Lemma attempt_sanctioned e :
  In e (resolvable (win32 H)) ->
  holds (sanctioned (win32 H) archive_path extract_to) (fun _ => True)
        (attempt H e archive_path extract_to).
Proof.
  intros He. apply in_app_or in He as [He|[<-|[]]].
  - assert (forall r, sanctioned (win32 H) archive_path extract_to
                        (Ran (command_line (fst e) (snd e) archive_path extract_to) 60 r))
      as C by (intros r; now apply sanctioned_command).
    assert (fst e <> patoolib) as N.
    { destruct (win32 H); simpl in He;
        repeat (destruct He as [<-|He]; [discriminate|]); destruct He. }
    destruct e as [name cmd]. unfold attempt. simpl in C, N.
    destruct name; try contradiction;
      (eapply holds_bind; [apply holds_run; exact C|]);
      intros rc _; destruct (rc =? 0)%Z; try (now apply holds_ret);
      (eapply holds_bind; [apply holds_print; constructor | intros; now apply holds_ret]).
  - unfold attempt. eapply holds_bind with (Q := fun _ => True).
    + destruct (win32 H).
      * apply holds_emit. now constructor.
      * now apply holds_ret.
    + intros _ _. eapply holds_bind; [apply holds_do; intros r; constructor|].
      intros; now apply holds_ret.
Qed.

Lemma try_extractors_sanctioned extractors :
  incl extractors (resolvable (win32 H)) ->
  holds (sanctioned (win32 H) archive_path extract_to) (fun _ => True)
        (try_extractors H extractors archive_path extract_to).
Proof.
  induction extractors as [|e rest IH]; intros Hl.
  - now apply holds_ret.
  - cbn [try_extractors]. eapply holds_bind with (Q := fun _ => True).
    + apply holds_try_except.
      * apply attempt_sanctioned, Hl. now left.
      * intros err. eapply holds_bind; [apply holds_print; constructor|].
        intros; now apply holds_ret.
    + intros [b|] _; [now apply holds_ret|].
      apply IH. intros x Hx. apply Hl. now right.
Qed.

Lemma extract_archive_sanctioned archive_name :
  holds (sanctioned (win32 H) archive_path extract_to) (fun _ => True)
        (extract_archive H archive_path extract_to archive_name).
Proof.
  unfold extract_archive. eapply holds_bind; [apply get_archive_extractor_sanctioned|].
  intros [|e rest] Hl; [apply holds_raise|].
  now apply try_extractors_sanctioned.
Qed.

(** X9: whatever the host does, [extract_archive] starts no process but the
    probes of the tools of the platform, with a limit of five seconds, and
    these tools on the archive and the destination it was given, with a limit
    of sixty; it calls the library on these two paths only; it sets the
    environment variable on Windows only; and it touches the file system in
    no other way. *)
Theorem extract_archive_calls archive_name w :
  Forall (sanctioned (win32 H) archive_path extract_to)
         (events (extract_archive H archive_path extract_to archive_name w)).
Proof. apply extract_archive_sanctioned. Qed.

End ExtractorCalls.

(** ** Exceptions of the extractor *)

Section ExtractorRaises.
Variable World : Type.
Variable H : host World.

Lemma append_if_available_run tool entry extractors w :
  append_if_available H tool entry extractors w
  = (match fst (subprocess_run H [tool_name tool; py "--version"] 5 w) with
     | Ok _ => Ok (extractors ++ [entry])
     | Raise e => if probe_caught e then Ok extractors else Raise e
     end,
     snd (subprocess_run H [tool_name tool; py "--version"] 5 w),
     [Ran [tool_name tool; py "--version"] 5
          (fst (subprocess_run H [tool_name tool; py "--version"] 5 w))]).
Proof.
  unfold append_if_available, is_tool_available, try_except_only, bind, run, ret.
  destruct (subprocess_run H [tool_name tool; py "--version"] 5 w) as [[rc|e] w1];
    cbn [fst snd]; [reflexivity|].
  destruct (probe_caught e); reflexivity.
Qed.

(** When the resolver raises, a probe has raised an exception that
    [is_tool_available] does not catch, and that probe is the last event;
    when it returns, the library is in the list if it can be imported. *)
Lemma get_archive_extractor_ends w :
  match get_archive_extractor H w with
  | (Raise e, _, evs) =>
      probe_caught e = false
      /\ exists front x,
           In x (offered (win32 H)) /\ evs = front ++ [probe_of x (Raise e)]
  | (Ok l, _, _) => patoolib_importable H = true -> l <> []
  end.
Proof.
  unfold get_archive_extractor. destruct (win32 H); unfold bind;
    repeat (rewrite append_if_available_run;
            match goal with
            | |- context [subprocess_run H ?c 5 ?w0] =>
                destruct (subprocess_run H c 5 w0) as [[?rc|?err] ?w]
            end;
            cbn [fst snd];
            try match goal with
                | |- context [probe_caught ?x] => destruct (probe_caught x) eqn:?
                end);
    unfold ret; cbn [fst snd];
    try (intros ->; intros E; apply app_eq_nil in E as [_ E]; discriminate E);
    (split; [assumption|]);
    first [ exists [], (unrar, Some (py "x")); split; [simpl; tauto | reflexivity]
          | eexists [_], (sevenz, Some (py "x")); split; [simpl; tauto | reflexivity]
          | eexists [_; _], (unzip, Some (py "")); split; [simpl; tauto | reflexivity] ].
Qed.

(** X10: [extract_archive] raises in three ways only.  No back end is
    resolved, which takes a host without the library: [RuntimeError].  A
    probe raises an exception other than the three that [is_tool_available]
    catches: that exception.  In these two cases nothing but probes has run.
    Or a back end of the resolved list was called, failed, and its failure
    could not be reported: the [UnicodeEncodeError] of the print of line 97,
    with that call as the last one made. *)
Theorem extract_archive_raises archive_path extract_to archive_name w e :
  outcome (extract_archive H archive_path extract_to archive_name w) = Raise e ->
  (Forall (probe_event (win32 H))
          (events (extract_archive H archive_path extract_to archive_name w))
   /\ ((e = RuntimeError no_tools_message
        /\ patoolib_importable H = false
        /\ outcome (get_archive_extractor H w) = Ok [])
       \/ (probe_caught e = false
           /\ exists front x,
                In x (offered (win32 H))
                /\ events (extract_archive H archive_path extract_to archive_name w)
                   = front ++ [probe_of x (Raise e)])))
  \/ (e = UnicodeEncodeError
      /\ exists extractors front x ev w0,
           outcome (get_archive_extractor H w) = Ok extractors
           /\ In x extractors
           /\ filter is_backend_call
                (events (extract_archive H archive_path extract_to archive_name w))
              = front ++ [ev]
           /\ backend_call H x archive_path extract_to w0
              = (ev, world_after (extract_archive H archive_path extract_to archive_name w))
           /\ reports_success ev = false
           /\ reported H (fst x) ev
                (world_after (extract_archive H archive_path extract_to archive_name w))
              = false).
Proof.
  pose proof (get_archive_extractor_ends w) as G.
  assert (Forall (probe_event (win32 H)) (events (get_archive_extractor H w))) as F.
  { apply (@get_archive_extractor_holds World H (probe_event (win32 H))).
    intros x r Hx. now exists x, r. }
  pose proof (extract_archive_cases H archive_path extract_to archive_name w) as C.
  destruct (get_archive_extractor H w) as [[[[|x rest]|e'] w1] probes];
    unfold outcome, events, world_after in *; cbn [fst snd] in *.
  - rewrite C. cbn [fst snd]. intros E. injection E as <-. left.
    split; [exact F|]. left. repeat split.
    destruct (patoolib_importable H); [|reflexivity]. now destruct G.
  - destruct C as (r & w' & evs & -> & Ch). cbn [fst snd]. intros ->.
    destruct (fallback_chain_raises Ch) as (-> & front & y & ev & w0 & Hy & E & B & S & R).
    right. split; [reflexivity|].
    exists (x :: rest), (filter is_backend_call probes ++ front), y, ev, w0.
    repeat split; auto. now rewrite filter_app, E, app_assoc.
  - rewrite C. cbn [fst snd]. intros E. injection E as <-. left.
    split; [exact F|]. right. exact G.
Qed.

End ExtractorRaises.

(** On a host where no program may be started the first probe ends the
    extraction, although the library could be imported. *)
Lemma extract_archive_raises_witness :
  let run := extract_archive locked_host (py "/in/A.zip") (py "/out/A_temp") (py "A.zip") tt in
  outcome run = Raise PermissionError
  /\ ((Forall (probe_event (win32 locked_host)) (events run)
       /\ ((PermissionError = RuntimeError no_tools_message
            /\ patoolib_importable locked_host = false
            /\ outcome (get_archive_extractor locked_host tt) = Ok [])
           \/ (probe_caught PermissionError = false
               /\ exists front x,
                    In x (offered (win32 locked_host))
                    /\ events run = front ++ [probe_of x (Raise PermissionError)])))
      \/ (PermissionError = UnicodeEncodeError
          /\ exists extractors front x ev w0,
               outcome (get_archive_extractor locked_host tt) = Ok extractors
               /\ In x extractors
               /\ filter is_backend_call (events run) = front ++ [ev]
               /\ backend_call locked_host x (py "/in/A.zip") (py "/out/A_temp") w0
                  = (ev, world_after run)
               /\ reports_success ev = false
               /\ reported locked_host (fst x) ev (world_after run) = false)).
Proof.
  intros run. split; [reflexivity|].
  apply (@extract_archive_raises unit locked_host (py "/in/A.zip") (py "/out/A_temp")
           (py "A.zip") tt PermissionError).
  reflexivity.
Defined.

(** ** Depth by separators and depth by nesting *)

Section LocatorLevels.

Lemma flat_map_flat_map {A B C} (g : B -> list C) (h : A -> list B) l :
  flat_map g (flat_map h l) = flat_map (fun x => flat_map g (h x)) l.
Proof.
  induction l as [|x l IH]; simpl; auto. now rewrite flat_map_app, IH.
Qed.

Lemma map_flat_map {A B C} (f : B -> C) (h : A -> list B) l :
  map f (flat_map h l) = flat_map (fun x => map f (h x)) l.
Proof.
  induction l as [|x l IH]; simpl; auto. now rewrite map_app, IH.
Qed.

Lemma flat_map_equal {A B} (g h : A -> list B) l :
  Forall (fun x => g x = h x) l -> flat_map g l = flat_map h l.
Proof. induction 1 as [|x l E F IH]; simpl; auto. now rewrite E, IH. Qed.

(** The walk with levels lists the files of the walk, in its order. *)
Lemma files_with_level_walk top level t :
  map fst (files_with_level top level t) = walk_files top t.
Proof.
  revert top level. induction t as [subdirs files IH] using dir_tree_induction.
  intros top level. unfold walk_files. cbn [files_with_level os_walk flat_map].
  rewrite map_app, map_map. cbn [fst]. f_equal.
  rewrite map_flat_map, flat_map_flat_map. apply flat_map_equal.
  eapply Forall_impl; [|exact IH]. intros entry E. apply E.
Qed.

Lemma path_join_name a name :
  entry_name_ok name = true ->
  path_join a name = a ++ (if joins_with_sep a then [os_sep] else []) ++ name.
Proof.
  unfold entry_name_ok, path_join, joins_with_sep. intros N.
  apply andb_true_iff in N as [N1 N2].
  destruct name as [|c name]; [discriminate|].
  apply negb_true_iff in N2. simpl in N2. apply orb_false_iff in N2 as [N2 _].
  simpl startswith. rewrite N2. simpl.
  destruct (truthy a), (endswith a [os_sep]); reflexivity.
Qed.

Lemma depth_of_app directory rest :
  depth_of directory (directory ++ rest) = Z.of_nat (count os_sep rest).
Proof.
  unfold depth_of. rewrite skipn_app, skipn_all, Nat.sub_diag. reflexivity.
Qed.

Lemma count_name name : entry_name_ok name = true -> count os_sep name = 0.
Proof.
  unfold entry_name_ok, count. intros N. apply andb_true_iff in N as [_ N].
  apply negb_true_iff in N. apply count_occ_not_In. intros Hin.
  apply mem_In in Hin. congruence.
Qed.

Lemma last_In (s : str) d : s <> [] -> In (last s d) s.
Proof.
  intros N. rewrite (app_removelast_last d N) at 2.
  apply in_or_app. right. now left.
Qed.

Lemma joined_joins a name :
  entry_name_ok name = true -> joins_with_sep (path_join a name) = true.
Proof.
  intros N. rewrite (@path_join_name a name N). unfold entry_name_ok in N.
  apply andb_true_iff in N as [N1 N2]. apply negb_true_iff in N2.
  assert (name <> []) as Ne by (destruct name; [discriminate | discriminate]).
  set (sep := if joins_with_sep a then [os_sep] else []).
  unfold joins_with_sep. apply andb_true_iff. split.
  - destruct a as [|x a]; [|reflexivity]. exact N1.
  - apply negb_true_iff.
    destruct (endswith (a ++ sep ++ name) [os_sep]) eqn:E; [|reflexivity].
    apply (@endswith_last _ _ 0%N) in E; [|discriminate].
    rewrite app_assoc, last_app_nonempty in E by exact Ne.
    pose proof (@last_In name 0%N Ne) as L. rewrite E in L. simpl in L.
    apply mem_In in L. congruence.
Qed.

(** Under names of directory entries, the number of separators the search
    counts for a file is its level plus the same offset for every file. *)
Lemma files_with_level_depth directory t :
  names_ok t = true ->
  forall mid level,
    count os_sep mid + level_offset (directory ++ mid) = level + level_offset directory ->
    Forall (fun pl => depth_of directory (fst pl)
                      = Z.of_nat (snd pl + level_offset directory))
           (files_with_level (directory ++ mid) level t).
Proof.
  induction t as [subdirs files IH] using dir_tree_induction.
  intros N mid level I. simpl in N. apply andb_true_iff in N as [Nf Ns].
  cbn [files_with_level]. apply Forall_app. split.
  - apply Forall_forall. intros pl Hin. apply in_map_iff in Hin as (f & <- & Hf).
    cbn [fst snd]. eapply forallb_forall in Nf; eauto.
    rewrite (@path_join_name _ f Nf), <- app_assoc, depth_of_app.
    pose proof (@count_name f Nf) as C.
    unfold count in *. rewrite !count_occ_app. unfold char in *. rewrite C.
    f_equal. unfold level_offset in *.
    destruct (joins_with_sep (directory ++ mid)); cbn; lia.
  - apply Forall_forall. intros pl Hin.
    apply in_flat_map in Hin as ([name sub] & He & Hin). cbn [fst snd] in Hin.
    eapply forallb_forall in Ns; eauto. cbn [fst snd] in Ns.
    apply andb_true_iff in Ns as [Nn Nt].
    eapply Forall_forall in IH; eauto. cbn [snd] in IH.
    pose proof (@joined_joins (directory ++ mid) name Nn) as J.
    rewrite (@path_join_name _ name Nn) in Hin, J. rewrite <- app_assoc in Hin, J.
    specialize (IH Nt (mid ++ (if joins_with_sep (directory ++ mid) then [os_sep] else [])
                           ++ name) (S level)).
    eapply Forall_forall in IH; [exact IH | | exact Hin].
    unfold level_offset at 1. rewrite J.
    pose proof (@count_name name Nn) as C.
    unfold count in *. rewrite !count_occ_app. unfold char in *. rewrite C.
    unfold level_offset in *.
    destruct (joins_with_sep (directory ++ mid)); cbn; lia.
Qed.

(** X12: under names of directory entries the file found is the first, in walk
    order, of the files at the greatest nesting level: the count of
    separators of lines 110-112 ranks the files as the number of
    directories above them does. *)
Theorem find_innermost_file_deepest_level directory t p :
  names_ok t = true ->
  find_innermost_file directory t = Some p ->
  exists before level after,
    files_with_level directory 0 t = before ++ (p, level) :: after
    /\ (forall q, In q before -> snd q < level)
    /\ (forall q, In q after -> snd q <= level).
Proof.
  intros N E.
  pose proof (find_innermost_file_split directory t) as S. rewrite E in S.
  destruct S as (b & a & W & Hb & Ha).
  pose proof (@files_with_level_depth directory t N [] 0) as D.
  rewrite app_nil_r in D. specialize (D eq_refl). rewrite Forall_forall in D.
  rewrite <- (files_with_level_walk directory 0 t) in W.
  apply map_eq_app in W as (b' & rest & Efl & <- & R).
  destruct rest as [|[p' level] a']; [discriminate|].
  simpl in R. injection R as -> <-.
  assert (In (p, level) (files_with_level directory 0 t)) as Hp
    by (rewrite Efl; apply in_or_app; right; now left).
  pose proof (D _ Hp) as Dp. cbn [fst snd] in Dp.
  exists b', level, a'. split; [exact Efl|]. split.
  - intros q Hq.
    assert (In q (files_with_level directory 0 t)) as Hq'
      by (rewrite Efl; apply in_or_app; now left).
    pose proof (D _ Hq') as Dq. specialize (Hb (fst q) (in_map fst _ _ Hq)). lia.
  - intros q Hq.
    assert (In q (files_with_level directory 0 t)) as Hq'
      by (rewrite Efl; apply in_or_app; right; now right).
    pose proof (D _ Hq') as Dq. specialize (Ha (fst q) (in_map fst _ _ Hq)). lia.
Qed.

End LocatorLevels.

(** The file two directories down is found, before and after files of
    lower levels. *)
Lemma find_innermost_file_deepest_level_witness :
  let t := Dir [ (py "Content", Dir [ (py "0000", Dir [] [py "ABCDEF"]) ] [py "notes.txt"]);
                 (py "Extras", Dir [] [py "cover.png"]) ]
               [py "readme.txt"] in
  names_ok t = true
  /\ find_innermost_file (py "/out/G_temp") t = Some (py "/out/G_temp/Content/0000/ABCDEF")
  /\ exists before level after,
       files_with_level (py "/out/G_temp") 0 t
       = before ++ (py "/out/G_temp/Content/0000/ABCDEF", level) :: after
       /\ (forall q, In q before -> snd q < level)
       /\ (forall q, In q after -> snd q <= level).
Proof.
  intros t. split; [reflexivity|]. split; [reflexivity|].
  apply (@find_innermost_file_deepest_level (py "/out/G_temp") t); reflexivity.
Defined.

(** ** Names of archives that differ in the extension *)

Section SharedNames.
Context {U : UnicodeData}.

Lemma endswith_app (x e : str) : endswith (x ++ e) e = true.
Proof.
  unfold endswith. rewrite length_app. apply andb_true_iff. split.
  - apply Nat.leb_le. lia.
  - replace (length x + length e - length e) with (length x) by lia.
    rewrite skipn_app, skipn_all, Nat.sub_diag. simpl. now apply str_eqb_eq.
Qed.

Lemma firstn_stem (stem suffix : str) n :
  length suffix = n -> firstn (length (stem ++ suffix) - n) (stem ++ suffix) = stem.
Proof.
  intros <-. rewrite length_app.
  replace (length stem + length suffix - length suffix) with (length stem) by lia.
  rewrite firstn_app, firstn_all, Nat.sub_diag. simpl. apply app_nil_r.
Qed.

(** The loop of lines 131-134 takes a spelled extension off, and nothing
    more. *)
Lemma remove_extension_spelled stem suffix :
  spells_extension suffix ->
  remove_extension SUPPORTED_EXTENSIONS (stem ++ suffix) = stem.
Proof.
  intros (ext & He & L & Len).
  assert (endswith (str_lower (stem ++ suffix)) ext = true) as E.
  { unfold str_lower. rewrite flat_map_app. fold (str_lower suffix).
    rewrite L. apply endswith_app. }
  assert (forall other, In other SUPPORTED_EXTENSIONS -> other <> ext ->
                        endswith (str_lower (stem ++ suffix)) other = false) as D.
  { intros other Ho Hn. destruct (endswith (str_lower (stem ++ suffix)) other) eqn:E';
      [|reflexivity].
    destruct Hn. now apply (extensions_exclusive (stem ++ suffix)). }
  unfold SUPPORTED_EXTENSIONS in *. cbn [remove_extension].
  destruct He as [<-|[<-|[<-|[]]]].
  - rewrite E. now apply firstn_stem.
  - rewrite (D (py ".rar")), E; [now apply firstn_stem | simpl; auto | discriminate].
  - rewrite (D (py ".rar")), (D (py ".zip")), E;
      [now apply firstn_stem | simpl; auto | discriminate | simpl; auto | discriminate].
Qed.

(** X6: archives that differ only in the spelling of the extension get the same
    game name, and with it the same scratch directory, the same final path
    and the same marker: their rounds work on the same paths. *)
Theorem same_stem_same_paths cfg stem suffix1 suffix2 :
  spells_extension suffix1 -> spells_extension suffix2 ->
  game_name_of cfg (stem ++ suffix1) = game_name_of cfg (stem ++ suffix2)
  /\ game_dir_of cfg (stem ++ suffix1) = game_dir_of cfg (stem ++ suffix2)
  /\ final_file_path_of cfg (stem ++ suffix1) = final_file_path_of cfg (stem ++ suffix2)
  /\ marker_path_of cfg (stem ++ suffix1) = marker_path_of cfg (stem ++ suffix2).
Proof.
  intros S1 S2.
  assert (game_name_of cfg (stem ++ suffix1) = game_name_of cfg (stem ++ suffix2)) as G.
  { unfold game_name_of, clean_filename.
    now rewrite (remove_extension_spelled stem S1), (remove_extension_spelled stem S2). }
  unfold marker_path_of, final_file_path_of, game_dir_of. now rewrite G.
Qed.

End SharedNames.

(** [Game.rar] and [Game.ZIP] are sent to the same paths. *)
Lemma same_stem_same_paths_witness :
  @spells_extension ascii_tables (py ".rar")
  /\ @spells_extension ascii_tables (py ".ZIP")
  /\ @game_name_of ascii_tables Sim.underscores (py "Game" ++ py ".rar")
     = @game_name_of ascii_tables Sim.underscores (py "Game" ++ py ".ZIP")
  /\ @game_dir_of ascii_tables Sim.underscores (py "Game" ++ py ".rar")
     = @game_dir_of ascii_tables Sim.underscores (py "Game" ++ py ".ZIP")
  /\ @final_file_path_of ascii_tables Sim.underscores (py "Game" ++ py ".rar")
     = @final_file_path_of ascii_tables Sim.underscores (py "Game" ++ py ".ZIP")
  /\ @marker_path_of ascii_tables Sim.underscores (py "Game" ++ py ".rar")
     = @marker_path_of ascii_tables Sim.underscores (py "Game" ++ py ".ZIP").
Proof.
  assert (@spells_extension ascii_tables (py ".rar")) as S1
    by (exists (py ".rar"); repeat split; simpl; auto).
  assert (@spells_extension ascii_tables (py ".ZIP")) as S2
    by (exists (py ".zip"); repeat split; simpl; auto).
  split; [exact S1|]. split; [exact S2|].
  apply (@same_stem_same_paths ascii_tables Sim.underscores (py "Game") _ _ S1 S2).
Defined.

(** ** Paths of the rounds *)

Section RoundPaths.
Context {U : UnicodeData}.
Variable World : Type.
Variable H : host World.
Variable cfg : settings.
Hypothesis entries : lists_entries H.

Lemma holds_events_impl {A} (P P' : event -> Prop) (Q : A -> Prop) (m : M World A) :
  (forall ev, P ev -> P' ev) -> holds P Q m -> holds P' Q m.
Proof.
  intros I Hm w. destruct (Hm w) as [F Qm]. split; auto.
  eapply Forall_impl; eauto.
Qed.

(** The file found lies inside the directory searched. *)
Lemma innermost_inside directory t p :
  names_ok t = true -> find_innermost_file directory t = Some p ->
  strictly_inside directory p.
Proof.
  intros N E.
  pose proof (find_innermost_file_split directory t) as S.
  rewrite E in S. destruct S as (before & after & W & _).
  assert (In p (walk_files directory t)) as Hin
    by (rewrite W; apply in_or_app; right; now left).
  destruct (walk_files_entries _ _ _ Hin) as (root & dirs & files & file & Hw & Hf & ->).
  destruct (os_walk_roots _ _ _ _ _ N Hw) as [[mid ->] F].
  eapply Forall_forall in F; eauto.
  destruct (path_join_entry (directory ++ mid) file F) as (x & -> & Hx).
  exists (mid ++ x). split; [now rewrite app_assoc|].
  destruct mid; simpl; [exact Hx | discriminate].
Qed.

Lemma locate_holds (P : event -> Prop) game_dir :
  P (Walked game_dir) ->
  holds P (fun o => forall p, found o = Some p -> strictly_inside game_dir p)
        (locate H game_dir).
Proof.
  intros Hw. unfold locate.
  eapply holds_bind with (Q := fun t => names_ok t = true).
  - apply holds_walk; [exact Hw | intros w; apply entries].
  - intros t N. apply holds_ret. intros p Hp.
    destruct (find_innermost_file game_dir t) as [q|] eqn:E; [|discriminate].
    simpl in Hp. destruct (truthy q); [|discriminate]. injection Hp as ->.
    now apply (innermost_inside game_dir t).
Qed.

Lemma process_archive_holds archive :
  holds (round_event (win32 H) cfg archive) (fun _ => True)
        (process_archive H cfg archive).
Proof.
  unfold process_archive. apply holds_try_except.
  2:{ intros e. apply holds_print, round_print. }
  eapply holds_bind; [apply holds_print, round_print|]. intros _ _.
  eapply holds_bind; [apply holds_do; intros r; apply round_makedirs|]. intros _ _.
  eapply holds_bind with (Q := fun _ => True).
  { eapply holds_events_impl; [|apply extract_archive_sanctioned].
    intros ev S. now apply round_extraction. }
  intros [|] _; [|apply holds_print, round_print].
  eapply holds_bind; [apply locate_holds, round_walk|].
  intros o Ho. destruct (found o) as [p|] eqn:Fo; [|apply holds_print, round_print].
  specialize (Ho p Fo).
  eapply holds_bind; [apply holds_do; intros r; now apply round_move|]. intros _ _.
  eapply holds_bind; [apply holds_do; intros r; apply round_rmtree|]. intros _ _.
  apply holds_do. intros r. apply round_marker.
Qed.

Lemma relocate_holds archive p :
  strictly_inside (game_dir_of cfg archive) p ->
  holds (round_event (win32 H) cfg archive) (fun _ => True)
        (relocate H p (final_file_path_of cfg archive) (game_name_of cfg archive)).
Proof.
  intros Hp. unfold relocate. apply holds_try_except.
  - eapply holds_bind; [apply holds_do; intros r; now apply round_move|]. intros _ _.
    eapply holds_bind; [apply holds_print, round_print|]. intros _ _.
    now apply holds_ret.
  - intros e. eapply holds_bind; [apply holds_print, round_print|]. intros _ _.
    apply holds_try_except.
    + eapply holds_bind; [apply holds_do; intros r; now apply round_copy|]. intros _ _.
      eapply holds_bind; [apply holds_do; intros r; now apply round_remove|]. intros _ _.
      eapply holds_bind; [apply holds_print, round_print|]. intros _ _.
      now apply holds_ret.
    + intros e'. eapply holds_bind; [apply holds_print, round_print|]. intros _ _.
      now apply holds_ret.
Qed.

Lemma process_archive_plain_holds total i archive :
  holds (round_event (win32 H) cfg archive) (fun _ => True)
        (process_archive_plain H cfg total i archive).
Proof.
  unfold process_archive_plain. apply holds_try_except.
  2:{ intros e. apply holds_print, round_print. }
  eapply holds_bind; [apply holds_print, round_print|]. intros _ _.
  eapply holds_bind; [apply holds_do; intros r; apply round_makedirs|]. intros _ _.
  eapply holds_bind with (Q := fun _ => True).
  { eapply holds_events_impl; [|apply extract_archive_sanctioned].
    intros ev S. now apply round_extraction. }
  intros [|] _; [|apply holds_print, round_print].
  eapply holds_bind; [apply locate_holds, round_walk|].
  intros o Ho. destruct (found o) as [p|] eqn:Fo; [|apply holds_print, round_print].
  specialize (Ho p Fo).
  eapply holds_bind; [apply holds_print, round_print|]. intros _ _.
  eapply holds_bind; [now apply relocate_holds|].
  intros [|] _; [|now apply holds_ret].
  eapply holds_bind with (Q := fun _ => True).
  - unfold clean_up. apply holds_try_except.
    + eapply holds_bind; [apply holds_do; intros r; apply round_rmtree|]. intros _ _.
      apply holds_print, round_print.
    + intros e. apply holds_print, round_print.
  - intros _ _. unfold write_marker. apply holds_try_except.
    + eapply holds_bind; [apply holds_do; intros r; apply round_marker|]. intros _ _.
      apply holds_print, round_print.
    + intros e. apply holds_print, round_print.
Qed.

End RoundPaths.

(** X13: on a host that lists directory entries under their names, every
    call of the round of an archive, in either loop, is one of these: a call
    that [extract_archive] may make for the path of the archive and its
    scratch directory; making, walking or removing the scratch directory of
    the archive; moving or copying a file from strictly inside that scratch
    directory to the final path of the archive, or removing such a file;
    writing the game name of the archive to its marker; a print. *)
Theorem round_paths {U : UnicodeData} World (H : host World) cfg archive w :
  lists_entries H ->
  Forall (round_event (win32 H) cfg archive) (events (process_archive H cfg archive w))
  /\ forall total i,
       Forall (round_event (win32 H) cfg archive)
              (events (process_archive_plain H cfg total i archive w)).
Proof.
  intros entries. split.
  - now apply process_archive_holds.
  - intros total i. now apply process_archive_plain_holds.
Qed.

(** The healthy host lists what was unpacked, and the round of an archive
    on it keeps to the paths of that archive in both loops. *)
Lemma round_paths_witness :
  lists_entries (Sim.sim_host Sim.healthy)
  /\ Forall (@round_event ascii_tables (win32 (Sim.sim_host Sim.healthy)) Sim.underscores
               (py "A B.zip"))
       (events (@process_archive ascii_tables _ (Sim.sim_host Sim.healthy) Sim.underscores
                  (py "A B.zip") []))
  /\ forall total i,
       Forall (@round_event ascii_tables (win32 (Sim.sim_host Sim.healthy)) Sim.underscores
                 (py "A B.zip"))
         (events (@process_archive_plain ascii_tables _ (Sim.sim_host Sim.healthy)
                    Sim.underscores total i (py "A B.zip") [])).
Proof.
  assert (lists_entries (Sim.sim_host Sim.healthy)) as L.
  { intros path w. simpl. unfold Sim.sim_tree_at.
    destruct (Sim.exists_dir path w); reflexivity. }
  split; [exact L|].
  exact (@round_paths ascii_tables _ (Sim.sim_host Sim.healthy) Sim.underscores
           (py "A B.zip") [] L).
Defined.

(** ** The prompts, the dialogs and the deletion of the archives *)

Section SessionFacts.
Context {U : UnicodeData} {V : UpperData}.
Variable World : Type.
Variable H : host World.
Variable D : desk World.

Lemma choose_format_turned_down bad rest (w : World) :
  forallb no_format bad = true ->
  choose_format (bad ++ rest) w
  = (result_of (choose_format rest w),
     (unread (choose_format rest w), world_of (choose_format rest w)),
     turned_down AskFormat BadFormat bad ++ steps (choose_format rest w)).
Proof.
  induction bad as [|line bad IH]; intros B.
  - simpl. now destruct (choose_format rest w) as [[r [i1 w1]] s].
  - simpl in B. apply andb_true_iff in B as [B1 B2].
    cbn [app choose_format]. unfold no_format in B1.
    destruct (format_of (strip_by re_s line)); [discriminate|].
    rewrite (IH B2). reflexivity.
Qed.

(** X15: the loop of lines 177-196 turns down every line that holds no format,
    with the same message, and takes the format of the first line that holds
    one, leaving the lines after it unread; when the input ends before that,
    [EOFError] leaves the loop.  The world is not touched. *)
Theorem choose_format_loop bad (w : World) :
  forallb no_format bad = true ->
  choose_format bad w
  = (Raise EOFError, ([], w),
     turned_down AskFormat BadFormat bad ++ [Asked AskFormat None])
  /\ forall good rest p,
       format_of (strip_by re_s good) = Some p ->
       choose_format (bad ++ good :: rest) w
       = (Ok p, (rest, w),
          turned_down AskFormat BadFormat bad ++ [Asked AskFormat (Some good)]).
Proof.
  intros B. split.
  - rewrite <- (app_nil_r bad) at 1. now rewrite (@choose_format_turned_down bad [] w B).
  - intros good rest p G. rewrite (@choose_format_turned_down bad (good :: rest) w B).
    cbn [choose_format]. now rewrite G.
Qed.


Lemma choose_format_quiet stdin (w : World) :
  world_of (choose_format stdin w) = w
  /\ forallb quiet (steps (choose_format stdin w)) = true.
Proof.
  induction stdin as [|line rest [IH1 IH2]]; [split; reflexivity|].
  cbn [choose_format]. destruct (format_of (strip_by re_s line)); [split; reflexivity|].
  destruct (choose_format rest w) as [[r [i1 w1]] s]. split; [exact IH1 | exact IH2].
Qed.

(** X16: when a folder dialog is cancelled, [main] ends without a call to the
    host and without reading a folder, whatever was typed. *)
Theorem main_cancelled stdin (w : World) :
  askdirectory D InputFolder = [] \/ askdirectory D OutputFolder = [] ->
  world_of (main H D stdin w) = w
  /\ forallb quiet (steps (main H D stdin w)) = true
  /\ (forall p, result_of (choose_format stdin w) = Ok p ->
        result_of (main H D stdin w) = Ok tt).
Proof.
  intros C. destruct (choose_format_quiet stdin w) as [Q1 Q2].
  unfold main, tbind, say, choose, can_say. cbn [constant_notice orb].
  destruct (choose_format stdin w) as [[[p|e] [i1 w1]] s1];
    unfold world_of, steps, result_of in *; cbn [fst snd] in *.
  2:{ repeat split; auto. intros p E. discriminate E. }
  destruct (truthy (askdirectory D InputFolder)) eqn:TI; cbn [negb].
  - destruct C as [C|C]; [rewrite C in TI; discriminate|].
    rewrite C. cbn [truthy negb fst snd]. subst w1.
    repeat split; auto. cbn [app forallb quiet]. rewrite forallb_app, Q2. reflexivity.
  - cbn [fst snd]. subst w1. repeat split; auto.
    cbn [app forallb quiet]. rewrite forallb_app, Q2. reflexivity.
Qed.

Lemma list_archives_listed exts xbla_dir i (w : World) listing :
  listdir D xbla_dir w = Ok listing ->
  list_archives D exts xbla_dir i w
  = (Ok (flat_map (fun ext => filter (fun f => endswith (str_lower f) ext) listing) exts),
     (i, w),
     map (fun _ => Listed xbla_dir (Ok listing)) exts).
Proof.
  intros L. induction exts as [|ext more IH]; [reflexivity|].
  cbn [list_archives]. unfold tbind, os_listdir, tret in *. rewrite L, IH.
  cbn [flat_map map app]. now rewrite app_nil_r.
Qed.

Lemma tbind_ok {A B} (m : T World A) (f : A -> T World B) i w a i1 w1 s1 :
  m i w = (Ok a, (i1, w1), s1) ->
  tbind m f i w
  = (result_of (f a i1 w1), (unread (f a i1 w1), world_of (f a i1 w1)),
     s1 ++ steps (f a i1 w1)).
Proof.
  intros E. unfold tbind. rewrite E. now destruct (f a i1 w1) as [[r [i2 w2]] s2].
Qed.

Lemma on_host_do a i (w w1 : World) r :
  perform H a w = (r, w1) -> on_host (do H a) i w = (r, (i, w1), [Host (Did a r)]).
Proof. intros E. unfold on_host, do. now rewrite E. Qed.

(** [main] up to the test of line 225, when a format was read, both
    folders were chosen, the output folder could be made and the input
    folder could be listed: the rest runs on the lines left and the world
    left, after the prelude. *)
Lemma main_queue stdin (w w1 : World) p listing :
  result_of (choose_format stdin w) = Ok p ->
  truthy (askdirectory D InputFolder) = true ->
  truthy (askdirectory D OutputFolder) = true ->
  perform H (Makedirs (askdirectory D OutputFolder)) w = (Ok tt, w1) ->
  listdir D (askdirectory D InputFolder) w1 = Ok listing ->
  forall rest : T World unit,
    rest = match archive_files_of listing with
           | [] => say D (NoArchives (askdirectory D InputFolder))
           | _ :: _ =>
               tbind (say D (Found (length (archive_files_of listing))))
                 (fun _ =>
                    tbind (on_host
                             (main_batch H
                                (settings_of p (askdirectory D InputFolder)
                                   (askdirectory D OutputFolder))
                                (archive_files_of listing)))
                      (fun _ => finish H D (askdirectory D InputFolder)
                                  (archive_files_of listing)))
           end ->
    main H D stdin w
    = (result_of (rest (unread (choose_format stdin w)) w1),
       (unread (rest (unread (choose_format stdin w)) w1),
        world_of (rest (unread (choose_format stdin w)) w1)),
       prelude D stdin w p listing ++ steps (rest (unread (choose_format stdin w)) w1)).
Proof.
  intros F TI TO Mk L rest ->.
  destruct (choose_format_quiet stdin w) as [Q _].
  unfold main, prelude.
  destruct (choose_format stdin w) as [[[p'|e] [i1 w0]] s1] eqn:E;
    unfold result_of, unread, world_of, steps in F, Q; cbn [fst snd] in F, Q;
    [|discriminate F].
  injection F as ->. subst w0.
  unfold tbind at 1 2 3. unfold say at 1 2.
  cbv beta iota delta [can_say constant_notice orb]. rewrite E. cbv beta iota.
  unfold tbind at 1 2 3. unfold say at 1 2, choose at 1.
  cbv beta iota delta [can_say constant_notice orb].
  rewrite TI. cbv beta iota delta [negb].
  unfold tbind at 1 2. unfold say at 1, choose at 1.
  cbv beta iota delta [can_say constant_notice orb].
  rewrite TO. cbv beta iota delta [negb].
  unfold tbind at 1 2. rewrite (@on_host_do _ i1 w w1 (Ok tt) Mk). cbv beta iota.
  rewrite (@list_archives_listed SUPPORTED_EXTENSIONS _ i1 w1 listing L). cbv beta iota.
  change (flat_map (fun ext => filter (fun f => endswith (str_lower f) ext) listing)
            SUPPORTED_EXTENSIONS) with (archive_files_of listing).
  change (unread (Ok p, (i1, w), s1)) with i1.
  match goal with
  | |- context [?k i1 w1] =>
      match type of (k i1 w1) with
      | (result unit * (list str * World) * list step)%type =>
          destruct (k i1 w1) as [[r [i2 w2]] s2]
      end
  end.
  unfold result_of, unread, world_of, steps. cbn [fst snd map SUPPORTED_EXTENSIONS app].
  rewrite <- !app_assoc. reflexivity.
Qed.

(** X17: with no archive in the input folder [main] ends after it has made the
    output folder and listed the input folder: nothing is unpacked, and the
    question of line 343 is not asked.  It returns normally when the notice
    of line 226, which shows the path of the folder, can be printed, and is
    left by the [UnicodeEncodeError] of that print when it cannot. *)
Theorem main_without_archives stdin (w w1 : World) p listing :
  result_of (choose_format stdin w) = Ok p ->
  truthy (askdirectory D InputFolder) = true ->
  truthy (askdirectory D OutputFolder) = true ->
  perform H (Makedirs (askdirectory D OutputFolder)) w = (Ok tt, w1) ->
  listdir D (askdirectory D InputFolder) w1 = Ok listing ->
  archive_files_of listing = [] ->
  main H D stdin w
  = if can_say D (NoArchives (askdirectory D InputFolder)) w1
    then (Ok tt, (unread (choose_format stdin w), w1),
          prelude D stdin w p listing
          ++ [Said (NoArchives (askdirectory D InputFolder))])
    else (Raise UnicodeEncodeError, (unread (choose_format stdin w), w1),
          prelude D stdin w p listing).
Proof.
  intros F TI TO Mk L Q.
  rewrite (@main_queue stdin w w1 p listing F TI TO Mk L _ eq_refl).
  rewrite Q. unfold say.
  destruct (can_say D (NoArchives (askdirectory D InputFolder)) w1);
    unfold result_of, unread, world_of, steps; cbn [fst snd]; [reflexivity|].
  now rewrite app_nil_r.
Qed.

(** X18: with archives in the input folder [main] runs the batch on the queue.
    When the batch ends normally, the closing question follows on the same
    queue, on the lines the format prompt left and in the world the batch
    left: what is deleted on [Y] does not depend on how the rounds went.
    When the batch raises, [main] is left by that exception and the
    question is not asked. *)
Theorem main_with_archives stdin (w w1 : World) p listing :
  result_of (choose_format stdin w) = Ok p ->
  truthy (askdirectory D InputFolder) = true ->
  truthy (askdirectory D OutputFolder) = true ->
  perform H (Makedirs (askdirectory D OutputFolder)) w = (Ok tt, w1) ->
  listdir D (askdirectory D InputFolder) w1 = Ok listing ->
  archive_files_of listing <> [] ->
  let queue := archive_files_of listing in
  let batch :=
    main_batch H (settings_of p (askdirectory D InputFolder) (askdirectory D OutputFolder))
      queue w1 in
  let closing :=
    finish H D (askdirectory D InputFolder) queue (unread (choose_format stdin w))
      (world_after batch) in
  main H D stdin w
  = match outcome batch with
    | Ok _ =>
        (result_of closing, (unread closing, world_of closing),
         prelude D stdin w p listing
         ++ Said (Found (length queue)) :: map Host (events batch) ++ steps closing)
    | Raise e =>
        (Raise e, (unread (choose_format stdin w), world_after batch),
         prelude D stdin w p listing
         ++ Said (Found (length queue)) :: map Host (events batch))
    end.
Proof.
  intros F TI TO Mk L Q queue batch closing.
  rewrite (@main_queue stdin w w1 p listing F TI TO Mk L _ eq_refl).
  subst closing batch queue.
  destruct (archive_files_of listing) as [|a l]; [contradiction|].
  unfold tbind, say, on_host. cbv beta iota delta [can_say constant_notice orb].
  destruct (main_batch H
              (settings_of p (askdirectory D InputFolder) (askdirectory D OutputFolder))
              (a :: l) w1) as [[[[]|e] w2] evs];
    unfold outcome, world_after, events; cbn [fst snd].
  - destruct (finish H D (askdirectory D InputFolder) (a :: l)
                (unread (choose_format stdin w)) w2) as [[r [i2 w3]] s2].
    reflexivity.
  - unfold result_of, unread, world_of, steps. cbn [fst snd app].
    rewrite ?app_nil_r. reflexivity.
Qed.

Lemma finish_turned_down xbla_dir archive_files line rest (w : World) :
  no_answer line = true ->
  finish H D xbla_dir archive_files (line :: rest) w
  = (result_of (finish H D xbla_dir archive_files rest w),
     (unread (finish H D xbla_dir archive_files rest w),
      world_of (finish H D xbla_dir archive_files rest w)),
     Asked AskDelete (Some line) :: Said BadDelete
       :: steps (finish H D xbla_dir archive_files rest w)).
Proof.
  intros B. unfold no_answer, answer_of in B. apply negb_true_iff in B.
  unfold finish, tbind. cbn [ask_delete]. rewrite B.
  destruct (ask_delete rest w) as [[[c|e] [i1 w1]] s1]; [|reflexivity].
  now destruct ((if str_eqb c (py "Y") then delete_originals H D xbla_dir archive_files
                 else tret tt) i1 w1) as [[r [i2 w2]] s2].
Qed.

(** X19: the closing question guards the deletion: the host is called after the
    batch only when the first line that answers the question answers
    [Y]. *)
Theorem deletion_needs_yes xbla_dir archive_files stdin (w : World) ev :
  In (Host ev) (steps (finish H D xbla_dir archive_files stdin w)) ->
  exists bad good rest,
    stdin = bad ++ good :: rest
    /\ forallb no_answer bad = true
    /\ answer_of good = py "Y".
Proof.
  induction stdin as [|line rest IH]; intros Hin.
  - unfold finish, tbind in Hin. simpl in Hin. destruct Hin as [E|[]]. discriminate E.
  - destruct (no_answer line) eqn:B.
    + rewrite (@finish_turned_down xbla_dir archive_files line rest w B) in Hin.
      unfold steps at 1 in Hin. cbn [snd] in Hin.
      destruct Hin as [E|[E|Hin]]; try discriminate E.
      destruct (IH Hin) as (bad & good & rest' & -> & Bb & Y).
      exists (line :: bad), good, rest'. simpl. rewrite B. auto.
    + destruct (str_eqb (answer_of line) (py "Y")) eqn:Y.
      * exists [], line, rest. repeat split. now apply str_eqb_eq.
      * exfalso. unfold no_answer in B. apply negb_false_iff in B.
        rewrite Y in B. cbn [orb] in B.
        unfold finish, tbind, answer_of in *. cbn [ask_delete] in Hin.
        rewrite Y, B in Hin. cbn [orb] in Hin. rewrite Y in Hin.
        simpl in Hin. destruct Hin as [E|[]]. discriminate E.
Qed.

Lemma remove_all_app xbla_dir before after (w : World) :
  outcome (remove_all H xbla_dir before w) = Ok tt ->
  remove_all H xbla_dir (before ++ after) w
  = (outcome (remove_all H xbla_dir after (world_after (remove_all H xbla_dir before w))),
     world_after (remove_all H xbla_dir after (world_after (remove_all H xbla_dir before w))),
     map (fun a => Did (Remove (path_join xbla_dir a)) (Ok tt)) before
     ++ events (remove_all H xbla_dir after (world_after (remove_all H xbla_dir before w)))).
Proof.
  revert w. induction before as [|a before IH]; intros w B.
  - cbn [app remove_all map]. change (world_after (ret tt w)) with w.
    now destruct (remove_all H xbla_dir after w) as [[r w1] s].
  - cbn [app remove_all] in *. unfold bind, do in *.
    destruct (perform H (Remove (path_join xbla_dir a)) w) as [[[]|e] w1];
      [|discriminate B].
    destruct (remove_all H xbla_dir before w1) as [[r w2] s] eqn:R.
    unfold outcome, world_after, events in *. cbn [fst snd] in *. subst r.
    specialize (IH w1). rewrite R in IH. cbn [fst snd] in IH.
    rewrite (IH eq_refl).
    now destruct (remove_all H xbla_dir after w2) as [[r' w3] s'].
Qed.

(** X20: the deletion of lines 348-354 stops at the first archive that cannot
    be removed: the archives before it are gone, the archives after it stay,
    and the message of the deletion is not printed.  The exception is
    reported and the deletion returns when the report of line 354 can be
    printed; when it cannot, the [UnicodeEncodeError] of that print leaves
    the deletion. *)
Theorem delete_stops_at_first_failure xbla_dir before failing after i (w w1 : World) e :
  outcome (remove_all H xbla_dir before w) = Ok tt ->
  perform H (Remove (path_join xbla_dir failing))
    (world_after (remove_all H xbla_dir before w)) = (Raise e, w1) ->
  delete_originals H D xbla_dir (before ++ failing :: after) i w
  = if can_say D (DeleteFailed e) w1
    then (Ok tt, (i, w1),
          map (fun a => Host (Did (Remove (path_join xbla_dir a)) (Ok tt))) before
          ++ [Host (Did (Remove (path_join xbla_dir failing)) (Raise e));
              Said (DeleteFailed e)])
    else (Raise UnicodeEncodeError, (i, w1),
          map (fun a => Host (Did (Remove (path_join xbla_dir a)) (Ok tt))) before
          ++ [Host (Did (Remove (path_join xbla_dir failing)) (Raise e))]).
Proof.
  intros B F.
  assert (remove_all H xbla_dir (failing :: after)
            (world_after (remove_all H xbla_dir before w))
          = (Raise e, w1, [Did (Remove (path_join xbla_dir failing)) (Raise e)])) as R
    by (cbn [remove_all]; unfold bind, do; now rewrite F).
  unfold delete_originals, ttry, tbind, on_host.
  rewrite (@remove_all_app xbla_dir before (failing :: after) w B), R.
  unfold outcome, world_after, events, say. cbn [fst snd].
  destruct (can_say D (DeleteFailed e) w1);
    rewrite map_app, map_map; cbn [map]; rewrite <- ?app_assoc, ?app_nil_r; reflexivity.
Qed.

(** X21: the check of lines 358-364 never reports: with both packages the script
    is [main], and without one of them the import of line 12 or 13 has
    raised [ImportError] before anything is printed. *)
Theorem script_check_is_idle I stdin (w : World) :
  script H D I stdin w
  = if has_alive_progress I && has_tkinter I
    then main H D stdin w
    else (Raise ImportError, (stdin, w), []).
Proof.
  unfold script, tbind, ttry_only, import.
  destruct (has_alive_progress I), (has_tkinter I); try reflexivity.
  unfold tret. cbn [andb].
  now destruct (main H D stdin w) as [[r [i1 w1]] s].
Qed.

End SessionFacts.

(** The input folder is not chosen: nothing happens on the healthy host. *)
Lemma main_cancelled_witness :
  (askdirectory cancelled InputFolder = [] \/ askdirectory cancelled OutputFolder = [])
  /\ world_of (@main ascii_tables ascii_upper _ (Sim.sim_host Sim.healthy) cancelled
                 [py "7"; py " 3 "] []) = []
  /\ forallb quiet (steps (@main ascii_tables ascii_upper _ (Sim.sim_host Sim.healthy)
                             cancelled [py "7"; py " 3 "] [])) = true
  /\ (forall p, result_of (@choose_format ascii_tables Sim.world [py "7"; py " 3 "] []) = Ok p ->
        result_of (@main ascii_tables ascii_upper _ (Sim.sim_host Sim.healthy) cancelled
                     [py "7"; py " 3 "] []) = Ok tt).
Proof.
  assert (askdirectory cancelled InputFolder = []
          \/ askdirectory cancelled OutputFolder = []) as C by (left; reflexivity).
  split; [exact C|].
  exact (@main_cancelled ascii_tables ascii_upper _ (Sim.sim_host Sim.healthy) cancelled
           [py "7"; py " 3 "] [] C).
Defined.

(** Two lines without a format, then the end of the input or a line with
    one. *)
Lemma choose_format_loop_witness :
  forallb (@no_format ascii_tables) [py "7"; py "two"] = true
  /\ (@choose_format ascii_tables Sim.world [py "7"; py "two"] []
      = (Raise EOFError, ([], []),
         turned_down AskFormat BadFormat [py "7"; py "two"] ++ [Asked AskFormat None])
      /\ forall good rest p,
           format_of (strip_by (@re_s ascii_tables) good) = Some p ->
           @choose_format ascii_tables Sim.world ([py "7"; py "two"] ++ good :: rest) []
           = (Ok p, (rest, []),
              turned_down AskFormat BadFormat [py "7"; py "two"]
              ++ [Asked AskFormat (Some good)])).
Proof.
  split; [reflexivity|].
  apply (@choose_format_loop ascii_tables Sim.world [py "7"; py "two"] []).
  reflexivity.
Defined.

(** A folder with a text file and a picture, on the healthy host. *)
Lemma main_without_archives_witness :
  let host := Sim.sim_host Sim.healthy in
  let listing := [py "notes.txt"; py "cover.png"] in
  let notice := NoArchives (askdirectory no_archives InputFolder) in
  result_of (@choose_format ascii_tables Sim.world [[]] []) = Ok replaceWithUnderscore
  /\ truthy (askdirectory no_archives InputFolder) = true
  /\ truthy (askdirectory no_archives OutputFolder) = true
  /\ perform host (Makedirs (askdirectory no_archives OutputFolder)) []
     = (Ok tt, [py "/out"])
  /\ listdir no_archives (askdirectory no_archives InputFolder) [py "/out"] = Ok listing
  /\ @archive_files_of ascii_tables listing = []
  /\ @main ascii_tables ascii_upper _ host no_archives [[]] []
     = if can_say no_archives notice [py "/out"]
       then (Ok tt, (unread (@choose_format ascii_tables Sim.world [[]] []), [py "/out"]),
             @prelude ascii_tables _ no_archives [[]] [] replaceWithUnderscore listing
             ++ [Said notice])
       else (Raise UnicodeEncodeError,
             (unread (@choose_format ascii_tables Sim.world [[]] []), [py "/out"]),
             @prelude ascii_tables _ no_archives [[]] [] replaceWithUnderscore listing).
Proof.
  intros host listing notice. repeat (split; [reflexivity|]).
  apply (@main_without_archives ascii_tables ascii_upper _ host no_archives
           [[]] [] [py "/out"] replaceWithUnderscore listing); reflexivity.
Defined.

(** Three archives on the healthy host, the default format, and [y] to the
    closing question. *)
Lemma main_with_archives_witness :
  let host := Sim.sim_host Sim.healthy in
  let stdin := [[]; py "y"] in
  let listing := [py "A.zip"; py "notes.txt"; py "B.zip"; py "C.rar"] in
  let queue := @archive_files_of ascii_tables listing in
  let batch :=
    @main_batch ascii_tables _ host
      (settings_of replaceWithUnderscore (askdirectory three_archives InputFolder)
         (askdirectory three_archives OutputFolder))
      queue [py "/out"] in
  let closing :=
    @finish ascii_tables ascii_upper _ host three_archives
      (askdirectory three_archives InputFolder) queue
      (unread (@choose_format ascii_tables Sim.world stdin [])) (world_after batch) in
  result_of (@choose_format ascii_tables Sim.world stdin []) = Ok replaceWithUnderscore
  /\ truthy (askdirectory three_archives InputFolder) = true
  /\ truthy (askdirectory three_archives OutputFolder) = true
  /\ perform host (Makedirs (askdirectory three_archives OutputFolder)) []
     = (Ok tt, [py "/out"])
  /\ listdir three_archives (askdirectory three_archives InputFolder) [py "/out"]
     = Ok listing
  /\ queue <> []
  /\ @main ascii_tables ascii_upper _ host three_archives stdin []
     = match outcome batch with
       | Ok _ =>
           (result_of closing, (unread closing, world_of closing),
            @prelude ascii_tables _ three_archives stdin [] replaceWithUnderscore listing
            ++ Said (Found (length queue)) :: map Host (events batch) ++ steps closing)
       | Raise e =>
           (Raise e, (unread (@choose_format ascii_tables Sim.world stdin []),
                      world_after batch),
            @prelude ascii_tables _ three_archives stdin [] replaceWithUnderscore listing
            ++ Said (Found (length queue)) :: map Host (events batch))
       end.
Proof.
  intros host stdin listing queue batch closing.
  repeat (split; [reflexivity|]).
  split; [discriminate|].
  apply (@main_with_archives ascii_tables ascii_upper _ host three_archives
           stdin [] [py "/out"] replaceWithUnderscore listing);
    try reflexivity; discriminate.
Defined.

(** After a line that answers nothing and a line that answers [y], the
    archive is removed. *)
Lemma deletion_needs_yes_witness :
  let closing :=
    @finish ascii_tables ascii_upper _ (Sim.sim_host Sim.healthy) three_archives
      (py "/in") [py "A.zip"] [py "maybe"; py " y "] [] in
  In (Host (Did (Remove (py "/in/A.zip")) (Ok tt))) (steps closing)
  /\ exists bad good rest,
       [py "maybe"; py " y "] = bad ++ good :: rest
       /\ forallb (@no_answer ascii_tables ascii_upper) bad = true
       /\ @answer_of ascii_tables ascii_upper good = py "Y".
Proof.
  intros closing.
  assert (In (Host (Did (Remove (py "/in/A.zip")) (Ok tt))) (steps closing)) as Hin
    by (vm_compute; tauto).
  split; [exact Hin|].
  exact (@deletion_needs_yes ascii_tables ascii_upper _ (Sim.sim_host Sim.healthy)
           three_archives (py "/in") [py "A.zip"] [py "maybe"; py " y "] [] _ Hin).
Defined.

(** [/in/B.zip] cannot be removed: [A.zip] is gone, [C.rar] stays. *)
Lemma delete_stops_at_first_failure_witness :
  let host := Sim.sim_host guarded in
  let gone := map (fun a => Host (Did (Remove (path_join (py "/in") a)) (Ok tt)))
                  [py "A.zip"] in
  let kept := Host (Did (Remove (path_join (py "/in") (py "B.zip"))) (Raise PermissionError)) in
  outcome (remove_all host (py "/in") [py "A.zip"] []) = Ok tt
  /\ perform host (Remove (path_join (py "/in") (py "B.zip")))
       (world_after (remove_all host (py "/in") [py "A.zip"] []))
     = (Raise PermissionError, [])
  /\ @delete_originals _ host three_archives (py "/in")
       ([py "A.zip"] ++ py "B.zip" :: [py "C.rar"]) [] []
     = if can_say three_archives (DeleteFailed PermissionError) []
       then (Ok tt, ([], []), gone ++ [kept; Said (DeleteFailed PermissionError)])
       else (Raise UnicodeEncodeError, ([], []), gone ++ [kept]).
Proof.
  intros host gone kept. split; [reflexivity|]. split; [reflexivity|].
  apply (@delete_stops_at_first_failure _ host three_archives (py "/in") [py "A.zip"]
           (py "B.zip") [py "C.rar"] [] [] [] PermissionError); reflexivity.
Defined.

(** ** The two loops of the batch *)

Section BatchShape.
Context {U : UnicodeData}.
Variable World : Type.
Variable H : host World.
Variable cfg : settings.

(** A round is left by no exception but the [UnicodeEncodeError] of the
    print of its handler. *)
Lemma process_archive_raises archive w e :
  outcome (process_archive H cfg archive w) = Raise e -> e = UnicodeEncodeError.
Proof.
  unfold Pipeline.process_archive, try_except, outcome.
  match goal with
  | |- context [match ?m w with _ => _ end] => destruct (m w) as [[[[]|err] w1] e1]
  end; cbn [fst]; [discriminate|].
  pose proof (@print_raises World H (ErrorProcessing archive err) w1 e) as P.
  unfold outcome in P.
  destruct (print H (ErrorProcessing archive err) w1) as [[r w2] e2]. exact P.
Qed.

Lemma process_archive_plain_raises archive total i w e :
  outcome (process_archive_plain H cfg total i archive w) = Raise e ->
  e = UnicodeEncodeError.
Proof.
  unfold Pipeline.process_archive_plain, try_except, outcome.
  match goal with
  | |- context [match ?m w with _ => _ end] => destruct (m w) as [[[[]|err] w1] e1]
  end; cbn [fst]; [discriminate|].
  pose proof (@print_raises World H (ErrorProcessing archive err) w1 e) as P.
  unfold outcome in P.
  destruct (print H (ErrorProcessing archive err) w1) as [[r w2] e2]. exact P.
Qed.

Lemma main_loop_raises archive_files w e :
  outcome (main_loop H cfg archive_files w) = Raise e -> e = UnicodeEncodeError.
Proof.
  revert w. induction archive_files as [|archive rest IH]; intros w; [discriminate|].
  cbn [Pipeline.main_loop]. unfold bind at 1.
  pose proof (process_archive_raises archive w) as P.
  destruct (process_archive H cfg archive w) as [[[[]|err] w1] e1];
    unfold outcome in *; cbn [fst] in *.
  - rewrite draw_then. destruct (draw_bar H w1) as [[|] w2]; cbn [fst].
    + apply IH.
    + intros E. now injection E.
  - intros E. injection E as <-. now apply P.
Qed.

Lemma plain_loop_raises total i archive_files w e :
  outcome (plain_loop_from H cfg total i archive_files w) = Raise e ->
  e = UnicodeEncodeError.
Proof.
  revert i w. induction archive_files as [|archive rest IH]; intros i w; [discriminate|].
  cbn [Pipeline.plain_loop_from]. unfold bind at 1.
  pose proof (process_archive_plain_raises archive total i w) as P.
  destruct (process_archive_plain H cfg total i archive w) as [[[[]|err] w1] e1];
    unfold outcome in *; cbn [fst] in *.
  - specialize (IH (S i) w1).
    destruct (plain_loop_from H cfg total (S i) rest w1) as [[r w2] e2]. exact IH.
  - intros E. injection E as <-. now apply P.
Qed.

(** X14: the loop under the progress bar is left by no exception but
    [UnicodeEncodeError], raised by the bar or by the print of the handler of
    line 271; when that happens the batch starts over: the loop without
    progress bar processes every archive of the batch, the ones that had
    their round under the bar included, in the world the first loop left.
    That loop in turn is left by no exception but the [UnicodeEncodeError]
    of the print of line 337, which then leaves the batch before the closing
    message; otherwise the batch ends normally with the closing message. *)
Theorem main_batch_starts_over archive_files w :
  let under_bar :=
    (draw H (BarOpened (length archive_files)) ;; main_loop H cfg archive_files) w in
  let again := plain_loop H cfg archive_files (world_after under_bar) in
  main_batch H cfg archive_files w
  = match outcome under_bar with
    | Ok _ =>
        (Ok tt, world_after under_bar, events under_bar ++ [Printed UnpackingComplete])
    | Raise _ =>
        match outcome again with
        | Ok _ =>
            (Ok tt, world_after again,
             events under_bar
             ++ Printed ProgressBarDisabled :: events again ++ [Printed UnpackingComplete])
        | Raise e =>
            (Raise e, world_after again,
             events under_bar ++ Printed ProgressBarDisabled :: events again)
        end
    end
  /\ (forall e, outcome under_bar = Raise e -> e = UnicodeEncodeError)
  /\ (forall e, outcome again = Raise e -> e = UnicodeEncodeError).
Proof.
  cbv zeta.
  assert (forall e,
            outcome ((draw H (BarOpened (length archive_files))
                      ;; main_loop H cfg archive_files) w) = Raise e ->
            e = UnicodeEncodeError) as R1.
  { intros e. rewrite draw_then. destruct (draw_bar H w) as [[|] w1].
    - unfold outcome at 1. cbn [fst]. apply main_loop_raises.
    - unfold outcome. cbn [fst]. intros E. now injection E. }
  split; [|split; [exact R1 | intros e; apply plain_loop_raises]].
  unfold main_batch. unfold bind at 1. unfold try_except_only.
  destruct ((draw H (BarOpened (length archive_files));; main_loop H cfg archive_files) w)
    as [[[[]|e] w1] e1] eqn:B; unfold outcome, world_after, events in *; cbn [fst snd] in *.
  - unfold print. cbn. reflexivity.
  - rewrite (R1 e eq_refl). cbn [is_UnicodeEncodeError].
    unfold bind at 1. unfold print at 1. cbn [can_print constant_text orb].
    destruct (plain_loop H cfg archive_files w1) as [[[[]|e'] w2] e2]; cbn [fst snd].
    + unfold print. cbn. rewrite <- app_assoc. reflexivity.
    + cbn. reflexivity.
Qed.

End BatchShape.
